(** * carbonapi: the scatter/gather proxy of main.go

    A shallow embedding of the request path of [main.go]: the scatter
    ([singleGet], [multiGet]), the find aggregator ([findHandlerPB],
    [findHandler]), the routing cache ([Config.metricPaths]) and the
    render merger ([renderHandler], [handleRenderPB], [mergeValues],
    [createRenderResponse], [returnRender]); and, beside the request path,
    the concurrency limiter ([serverLimiter]), the reader of the
    configuration header ([stripCommentHeader]) and the latency histogram
    ([bucketRequestTimes]).

    Conventions.
    - A Go slice is a [list]; a nil slice and an empty slice are both [[]]
      except where the code tells them apart ([serverResponse.response],
      and the slices handed to the encoders), where the slice is an
      [option].
    - An index expression [l[i]] is [index l i] and an assignment to
      [l[i]] is [assign l i x]; out of range both are the run-time panic
      "index out of range", [panic].
    - [expvar.Int] counters are int64, updated with wrap-around.
    - The process state touched by the handlers (counters, routing cache,
      goroutines started, clock) is threaded by the monad [go]; a panic
      keeps the state reached, as the globals of the process do. *)

From Stdlib Require Import ZArith Floats.PrimFloat Strings.Byte.
From stdpp Require Import gmap strings list fin_maps.
From Equations Require Import Equations.

Set Warnings "-register-all".

(** ** Machine integers and counters *)

Definition wrap64 (z : Z) : Z := ((z + 2 ^ 63) `mod` 2 ^ 64 - 2 ^ 63)%Z.

Module expvar.
(** [expvar.Int.Add]: [atomic.AddInt64] on an int64 *)
Definition Add (v delta : Z) : Z := wrap64 (v + delta).
End expvar.

(** [var Metrics = struct { ... }] *)
Record Metrics := mkMetrics {
  FindRequests : Z;
  FindErrors : Z;
  RenderRequests : Z;
  RenderErrors : Z;
  Timeouts : Z
}.

Definition FindRequests_Add (d : Z) (M : Metrics) : Metrics :=
  mkMetrics (expvar.Add (FindRequests M) d) (FindErrors M) (RenderRequests M)
            (RenderErrors M) (Timeouts M).
Definition FindErrors_Add (d : Z) (M : Metrics) : Metrics :=
  mkMetrics (FindRequests M) (expvar.Add (FindErrors M) d) (RenderRequests M)
            (RenderErrors M) (Timeouts M).
Definition RenderRequests_Add (d : Z) (M : Metrics) : Metrics :=
  mkMetrics (FindRequests M) (FindErrors M) (expvar.Add (RenderRequests M) d)
            (RenderErrors M) (Timeouts M).
Definition RenderErrors_Add (d : Z) (M : Metrics) : Metrics :=
  mkMetrics (FindRequests M) (FindErrors M) (RenderRequests M)
            (expvar.Add (RenderErrors M) d) (Timeouts M).
Definition Timeouts_Add (d : Z) (M : Metrics) : Metrics :=
  mkMetrics (FindRequests M) (FindErrors M) (RenderRequests M)
            (RenderErrors M) (expvar.Add (Timeouts M) d).


(** ** Process state and the monad of the handlers *)

(** [var Config]: the part read by the request path.  [metricPaths], the
    routing cache, is the one field written after start-up and lives in
    [State]. *)
Record Config := mkConfig {
  Backends : list string;
  TimeoutMs : Z;
  TimeoutMsAfterFirstSeen : Z
}.

Record State := mkState {
  metricPaths : gmap string (list string);
  metrics : Metrics;
  (** every [go singleGet(uri, server, ch)] so far, as [(server, uri)] *)
  spawned : list (string * string);
  (** the monotonic clock, in nanoseconds *)
  now : Z
}.

Definition go (A : Type) : Type := State → option A * State.

#[global] Instance go_ret : MRet go := λ A a s, (Some a, s).
#[global] Instance go_bind : MBind go := λ A B k m s,
  match m s with
  | (Some a, s') => k a s'
  | (None, s') => (None, s')
  end.

Definition panic {A} : go A := λ s, (None, s).
Definition modify (f : State → State) : go unit := λ s, (Some tt, f s).
Definition gets {A} (f : State → A) : go A := λ s, (Some (f s), s).

(** [l[i]] as an expression *)
Definition index {A} (l : list A) (i : nat) : go A :=
  match l !! i with Some x => mret x | None => panic end.

(** [l[i] = x] as a statement; the slice header is unchanged, so the
    result is the array afterwards. *)
Definition assign {A} (l : list A) (i : nat) (x : A) : go (list A) :=
  if decide (i < length l) then mret (<[i:=x]> l) else panic.

Definition with_metrics (f : Metrics → Metrics) (s : State) : State :=
  mkState (metricPaths s) (f (metrics s)) (spawned s) (now s).
Definition with_metricPaths (f : gmap string (list string) → gmap string (list string))
    (s : State) : State :=
  mkState (f (metricPaths s)) (metrics s) (spawned s) (now s).
Definition with_spawned (f : list (string * string) → list (string * string))
    (s : State) : State :=
  mkState (metricPaths s) (metrics s) (f (spawned s)) (now s).
Definition with_now (f : Z → Z) (s : State) : State :=
  mkState (metricPaths s) (metrics s) (spawned s) (f (now s)).

(** ** Messages of the backend protocol (package carbonzipperpb)

    The generated message types are declared outside main.go.  The fields
    are the ones main.go reads: [match.Path], [match.IsLeaf],
    [metric.Name], [metric.StartTime], [metric.StopTime],
    [metric.StepTime] / [GetStepTime()], [metric.Values],
    [metric.IsAbsent].  The scalar fields are required fields of the
    messages, so they are set in every message that [proto.Unmarshal]
    accepted; they are modelled by their values. *)

Record GlobMatch := mkGlobMatch {
  Path : string;
  IsLeaf : bool
}.

Record GlobResponse := mkGlobResponse {
  GlobName : string;
  Matches : list GlobMatch
}.

Record FetchResponse := mkFetchResponse {
  Name : string;
  StartTime : Z;
  StopTime : Z;
  StepTime : Z;
  Values : list float;
  IsAbsent : list bool
}.

Definition GetStepTime (d : FetchResponse) : Z := StepTime d.

(** ** The render merger: [mergeValues] *)

Definition set_IsAbsent (metric : FetchResponse) (l : list bool) : FetchResponse :=
  mkFetchResponse (Name metric) (StartTime metric) (StopTime metric)
                  (StepTime metric) (Values metric) l.
Definition set_Values (metric : FetchResponse) (l : list float) : FetchResponse :=
  mkFetchResponse (Name metric) (StartTime metric) (StopTime metric)
                  (StepTime metric) l (IsAbsent metric).

(** The invariant of the data model: one flag per sample. *)
Definition aligned (d : FetchResponse) : Prop :=
  length (IsAbsent d) = length (Values d).

#[global] Instance aligned_dec d : Decision (aligned d).
Proof. unfold aligned. apply _. Defined.

(** [metric] is a copy of [decoded[0]] that shares its [Values] and
    [IsAbsent] arrays; the loops below read only [decoded[1:]], whose
    arrays come from separate [proto.Unmarshal] calls, so a write through
    [metric] is never seen by a read of a peer. *)

(** The inner loop [for other := 1; other < len(decoded); other++] at
    index [i], over [peers = decoded[other:]].  The result carries
    [responseLengthMismatch]. *)
Fixpoint scanPeers (i : nat) (peers : list FetchResponse)
    (metric : FetchResponse) : go (FetchResponse * bool) :=
  match peers with
  | [] => mret (metric, false)
  | m :: rest =>
    if decide (length (Values m) ≠ length (Values metric)) then
      _ ← modify (with_metrics (RenderErrors_Add 1));
      (* responseLengthMismatch = true; break *)
      mret (metric, true)
    else
      a ← index (IsAbsent m) i;
      if negb a then
        (* found one *)
        ia ← assign (IsAbsent metric) i false;
        v ← index (Values m) i;
        vs ← assign (Values metric) i v;
        scanPeers i rest (set_Values (set_IsAbsent metric ia) vs)
      else scanPeers i rest metric
  end.

(** The outer loop [for i := range metric.Values], over the indices still
    to visit. *)
Fixpoint mergeLoop (idx : list nat) (peers : list FetchResponse)
    (metric : FetchResponse) (responseLengthMismatch : bool)
    : go (FetchResponse * bool) :=
  match idx with
  | [] => mret (metric, responseLengthMismatch)
  | i :: idx' =>
    a ← index (IsAbsent metric) i;
    if negb a || responseLengthMismatch then
      mergeLoop idx' peers metric responseLengthMismatch
    else
      r ← scanPeers i peers metric;
      mergeLoop idx' peers r.1 r.2
  end.

Definition mergeValues (metric : FetchResponse) (decoded : list FetchResponse)
    : go FetchResponse :=
  r ← mergeLoop (seq 0 (length (Values metric))) (drop 1 decoded) metric false;
  mret r.1.

(** ** The scatter: [singleGet] and [multiGet] *)

Record serverResponse := mkServerResponse {
  server : string;
  (** [None] is the nil slice a worker sends for an absent response *)
  response : option (list byte)
}.

(** What the network gives one worker. [url.Parse], [storageClient.Do] and
    [ioutil.ReadAll] are outside main.go; a worker sees one of: *)
Inductive exchange :=
| ParseError                                  (* url.Parse(server + uri) fails *)
| DoError                                     (* storageClient.Do fails *)
| Reply (StatusCode : Z) (body : option (list byte)).
                                              (* [None]: ReadAll fails *)

(** The report [singleGet] sends on [ch]. *)
Definition singleGet (uri server : string) (x : exchange) : serverResponse :=
  match x with
  | ParseError => mkServerResponse server None
  | DoError => mkServerResponse server None
  | Reply StatusCode body =>
    if decide (StatusCode = 404%Z) then mkServerResponse server None
    else if decide (StatusCode ≠ 200%Z) then mkServerResponse server None
    else match body with
         | None => mkServerResponse server None
         | Some b => mkServerResponse server (Some b)
         end
  end.

(** [time.Duration(ms) * time.Millisecond], an int64 count of nanoseconds *)
Definition Millisecond : Z := 1000000.
Definition Duration_of_ms (ms : Z) : Z := wrap64 (ms * Millisecond).

(** [time.After(d)]: a channel that delivers once, [d] after the call.  It
    is represented by the instant from which it is ready. *)
Definition time_After (d : Z) : go Z := gets (λ s, (now s + d)%Z).

(** The coordinator's [select] is driven by the scheduler.  An event says
    which case the next [select] takes and how long after the previous
    event:
    - [Deliver dt k]: [case r := <-ch], with [r] the report of the worker
      started for [servers[k]];
    - [Expire dt]: [case <-timeout].
    A worker sends once, and the timer channel is ready only from its
    instant on, so an event that names a worker already received (or no
    worker), or a timer not yet ready, cannot be taken and is passed over.
    A worker that never reports (a hung request, a limiter slot never
    granted) is simply never delivered.  When the events run out the
    coordinator waits until the timer delivers. *)
Inductive event :=
| Deliver (dt : N) (k : nat)
| Expire (dt : N).

Definition sleep (dt : N) : go unit := modify (with_now (λ t, (t + Z.of_N dt)%Z)).

(** The variables of the gather loop, with two history variables. *)
Record gather := mkGather {
  g_response : list serverResponse;
  g_isFirstResponse : bool;
  g_timeout : Z;
  g_i : nat;
  (** the workers whose report has been received, in order *)
  g_reported : list nat;
  (** each report received, with the instant of its receipt, in order *)
  g_received : list (Z * serverResponse)
}.

Section Scatter.
Variable cfg : Config.

(** [GATHER: for i := 0; i < len(servers); i++ { select { ... } }];
    [ch] lists, by worker, the report that worker sends. *)
Fixpoint GATHER (servers : list string) (ch : list serverResponse)
    (sched : list event) (g : gather) {struct sched} : go gather :=
  if decide (g_i g < length servers) then
    match sched with
    | [] =>
      (* case <-timeout *)
      _ ← modify (with_now (Z.max (g_timeout g)));
      _ ← modify (with_metrics (Timeouts_Add 1));
      mret g
    | Deliver dt k :: sched' =>
      _ ← sleep dt;
      match ch !! k with
      | Some r =>
        if decide (k ∈ g_reported g) then GATHER servers ch sched' g
        else
          (* case r := <-ch *)
          t ← gets now;
          match response r with
          | Some _ =>
            timeout ← (if g_isFirstResponse g
                       then time_After (Duration_of_ms (TimeoutMsAfterFirstSeen cfg))
                       else mret (g_timeout g));
            GATHER servers ch sched'
              (mkGather (g_response g ++ [r]) false timeout (S (g_i g))
                        (g_reported g ++ [k]) (g_received g ++ [(t, r)]))
          | None =>
            GATHER servers ch sched'
              (mkGather (g_response g) (g_isFirstResponse g) (g_timeout g)
                        (S (g_i g)) (g_reported g ++ [k]) (g_received g ++ [(t, r)]))
          end
      | None => GATHER servers ch sched' g
      end
    | Expire dt :: sched' =>
      _ ← sleep dt;
      t ← gets now;
      if decide (g_timeout g ≤ t)%Z then
        (* case <-timeout: ...; break GATHER *)
        _ ← modify (with_metrics (Timeouts_Add 1));
        mret g
      else GATHER servers ch sched' g
    end
  else mret g.

(** [multiGet] up to the end of the gather loop. [world k] is what the
    network gives the worker of [servers[k]]. *)
Definition multiGet_gather (servers : list string) (uri : string)
    (world : nat → exchange) (sched : list event) : go gather :=
  let ch := imap (λ k server, singleGet uri server (world k)) servers in
  _ ← modify (with_spawned (λ l, l ++ map (λ server, (server, uri)) servers));
  timeout ← time_After (Duration_of_ms (TimeoutMs cfg));
  GATHER servers ch sched (mkGather [] true timeout 0 [] []).

Definition multiGet (servers : list string) (uri : string)
    (world : nat → exchange) (sched : list event) : go (list serverResponse) :=
  g ← multiGet_gather servers uri world sched;
  mret (g_response g).
End Scatter.

(** ** Values handed to the encoders, and the bodies written *)

(** A Go value of type [interface{}] as main.go builds them. *)
Inductive any :=
| ANil                                   (* the nil interface *)
| ABool (b : bool)
| AInt32 (z : Z)
| AFloat64 (f : float)
| AString (s : string)
| ASlice (l : option (list any))         (* [None]: a nil slice *)
| AMap (m : gmap string any)             (* map[string]interface{} *)
| APickleNone                            (* pickle.None{} *)
| AGlobMatch (m : GlobMatch).            (* *pb.GlobMatch *)

(** A slice that starts nil and only grows by [append] is nil exactly
    when nothing was appended. *)
Definition appended (l : list any) : any :=
  ASlice (match l with [] => None | _ :: _ => Some l end).

Inductive json :=
| JNull
| JBool (b : bool)
| JInt (z : Z)
| JNumber (f : float)
| JString (s : string)
| JArray (l : list json)
| JObject (members : gmap string json).

(** The two names under which encoding/json writes the fields of
    [pb.GlobMatch]: the [json:"..."] tags of the generated declaration,
    which is outside main.go. *)
Record GlobMatchTags := mkGlobMatchTags {
  json_Path : string;
  json_IsLeaf : string
}.

(** The declaration the protobuf generator writes for the fields [path]
    and [isLeaf] of the message: Go field [Path] with tag
    [json:"path,omitempty"], Go field [IsLeaf] with tag
    [json:"isLeaf,omitempty"]. *)
Definition generated_tags : GlobMatchTags := mkGlobMatchTags "path" "isLeaf".

(** [json.Marshal] on the values above, as a JSON document; [None] is the
    encoder's UnsupportedValueError (a NaN or an infinity). *)
Fixpoint json_Marshal (tags : GlobMatchTags) (v : any) : option json :=
  match v with
  | ANil => Some JNull
  | ABool b => Some (JBool b)
  | AInt32 z => Some (JInt z)
  | AFloat64 f => if is_nan f || is_infinity f then None else Some (JNumber f)
  | AString s => Some (JString s)
  | ASlice None => Some JNull
  | ASlice (Some l) => JArray <$> mapM (json_Marshal tags) l
  | AMap m =>
    JObject <$> map_fold (λ k x acc, j ← json_Marshal tags x;
                                     members ← acc;
                                     Some (<[k:=j]> members)) (Some ∅) m
  | APickleNone => Some (JObject ∅)
  | AGlobMatch m =>
    Some (JObject (<[json_IsLeaf tags := JBool (IsLeaf m)]>
                   (<[json_Path tags := JString (Path m)]> ∅)))
  end.

Inductive message :=
| MsgGlob (m : GlobResponse)
| MsgFetch (m : FetchResponse).

(** What a handler wrote to the ResponseWriter. *)
Inductive payload :=
| NoBody
| Text (s : string)
| Protobuf (m : message)     (* w.Write(b) with b, _ := proto.Marshal(m) *)
| JSON (j : json)
| Pickle (v : any).          (* pickle.NewEncoder(w).Encode(v) *)

Record HTTPResponse := mkHTTPResponse {
  Status : Z;
  ContentType : string;
  Body : payload
}.

Definition newline : string := String (Ascii.ascii_of_nat 10) "".

Definition StatusBadRequest : Z := 400.
Definition StatusInternalServerError : Z := 500.

(** [http.Error(w, error, code)] *)
Definition http_Error (error : string) (code : Z) : HTTPResponse :=
  mkHTTPResponse code "text/plain; charset=utf-8" (Text (error +:+ newline)).

(** [json.NewEncoder(w).Encode(v)]: nothing is written when marshalling
    fails (the handlers drop the error). *)
Definition json_Encode (tags : GlobMatchTags) (v : any) : payload :=
  match json_Marshal tags v with
  | Some j => JSON j
  | None => NoBody
  end.

Record Request := mkRequest {
  RequestURI : string;
  FormValue : string → string
}.

(** ** The handlers *)

Section Handlers.
Variable cfg : Config.
(** [proto.Unmarshal] into a [pb.GlobResponse] and into a
    [pb.FetchResponse]; [None] is a decoding error. *)
Variable Unmarshal_Glob : list byte → option GlobResponse.
Variable Unmarshal_Fetch : list byte → option FetchResponse.
(** The rewritten request URI: [url.ParseRequestURI], then
    [v.Set("format", "protobuf")], [v.Encode()], [RequestURI()]. *)
Variable rewrite : string → string.
Variable tags : GlobMatchTags.

(** *** Find *)

(** The body of [for _, match := range metric.Matches] *)
Definition addMatch (srv : string)
    (acc : list GlobMatch * gmap string (list string)) (m : GlobMatch)
    : list GlobMatch * gmap string (list string) :=
  let p := acc.2 !! Path m in
  let metrics :=
    match p with
    | None =>
      (* we haven't seen this name yet *)
      acc.1 ++ [m]
    | Some _ => acc.1
    end in
  (metrics, <[Path m := default [] p ++ [srv]]> acc.2).

(** [for _, r := range responses] *)
Fixpoint findLoop (responses : list serverResponse)
    (acc : list GlobMatch * gmap string (list string))
    : go (list GlobMatch * gmap string (list string)) :=
  match responses with
  | [] => mret acc
  | r :: rest =>
    match Unmarshal_Glob (default [] (response r)) with
    | None =>
      _ ← modify (with_metrics (FindErrors_Add 1));
      findLoop rest acc
    | Some metric => findLoop rest (foldl (addMatch (server r)) acc (Matches metric))
    end
  end.

Definition findHandlerPB (responses : list serverResponse)
    : go (list GlobMatch * gmap string (list string)) :=
  findLoop responses ([], ∅).

(** [for k, v := range paths { Config.metricPaths[k] = v }] *)
Definition updateCache (paths cache : gmap string (list string))
    : gmap string (list string) :=
  map_fold (λ k v acc, <[k:=v]> acc) cache paths.

(** [switch format { ... }] of [findHandler] *)
Definition findEncode (req : Request) (format : string) (metrics : list GlobMatch)
    : HTTPResponse :=
  if decide (format = "protobuf") then
    mkHTTPResponse 200 "application/protobuf"
      (Protobuf (MsgGlob (mkGlobResponse (FormValue req "query") metrics)))
  else if decide (format = "json") then
    mkHTTPResponse 200 "application/json"
      (json_Encode tags (appended (AGlobMatch <$> metrics)))
  else if decide (format = "" ∨ format = "pickle") then
    let result :=
      (λ metric, AMap (<["isLeaf" := ABool (IsLeaf metric)]>
                       (<["metric_path" := AString (Path metric)]> ∅)))
      <$> metrics in
    mkHTTPResponse 200 "application/pickle" (Pickle (appended result))
  else mkHTTPResponse 200 "" NoBody.

Definition findHandler (req : Request) (world : nat → exchange)
    (sched : list event) : go HTTPResponse :=
  _ ← modify (with_metrics (FindRequests_Add 1));
  let format := FormValue req "format" in
  responses ← multiGet cfg (Backends cfg) (rewrite (RequestURI req)) world sched;
  if decide (responses = []) then
    mret (http_Error "find: error querying backends" StatusInternalServerError)
  else
    r ← findHandlerPB responses;
    let metrics := r.1 in
    let paths := r.2 in
    (* update our cache of which servers have which metrics *)
    _ ← modify (with_metricPaths (updateCache paths));
    mret (findEncode req format metrics).

(** *** Render *)

(** [for i, v := range metric.Values] of [createRenderResponse], from
    index [i] on *)
Fixpoint pvaluesLoop (i : nat) (vs : list float) (metric : FetchResponse)
    (missing : any) (pvalues : list any) : go (list any) :=
  match vs with
  | [] => mret pvalues
  | v :: vs' =>
    a ← index (IsAbsent metric) i;
    pvaluesLoop (S i) vs' metric missing
                (pvalues ++ [if a : bool then missing else AFloat64 v])
  end.

Definition createRenderResponse (metric : FetchResponse) (missing : any) : go any :=
  pvalues ← pvaluesLoop 0 (Values metric) metric missing [];
  mret (AMap (<["start" := AInt32 (StartTime metric)]>
             (<["step" := AInt32 (StepTime metric)]>
             (<["end" := AInt32 (StopTime metric)]>
             (<["name" := AString (Name metric)]>
             (<["values" := appended pvalues]> ∅)))))).

Definition returnRender (format : string) (metric : FetchResponse) : go HTTPResponse :=
  if decide (format = "protobuf") then
    mret (mkHTTPResponse 200 "application/protobuf" (Protobuf (MsgFetch metric)))
  else if decide (format = "json") then
    presponse ← createRenderResponse metric ANil;
    mret (mkHTTPResponse 200 "application/json" (json_Encode tags presponse))
  else if decide (format = "" ∨ format = "pickle") then
    presponse ← createRenderResponse metric APickleNone;
    mret (mkHTTPResponse 200 "application/pickle"
            (Pickle (ASlice (Some [presponse]))))
  else mret (mkHTTPResponse 200 "" NoBody).

(** The decoding loop of [handleRenderPB] *)
Fixpoint decodeLoop (responses : list serverResponse) (decoded : list FetchResponse)
    : go (list FetchResponse) :=
  match responses with
  | [] => mret decoded
  | r :: rest =>
    match Unmarshal_Fetch (default [] (response r)) with
    | None =>
      _ ← modify (with_metrics (RenderErrors_Add 1));
      decodeLoop rest decoded
    | Some d => decodeLoop rest (decoded ++ [d])
    end
  end.

(** [for i, d := range decoded { if d.GetStepTime() <
    decoded[highest].GetStepTime() { highest = i } }] *)
Fixpoint highestLoop (ids : list (nat * FetchResponse)) (decoded : list FetchResponse)
    (highest : nat) : go nat :=
  match ids with
  | [] => mret highest
  | (i, d) :: rest =>
    h ← index decoded highest;
    if decide (GetStepTime d < GetStepTime h)%Z
    then highestLoop rest decoded i
    else highestLoop rest decoded highest
  end.

(** [decoded[0], decoded[highest] = decoded[highest], decoded[0]] *)
Definition swapBase (decoded : list FetchResponse) (highest : nat)
    : go (list FetchResponse) :=
  dh ← index decoded highest;
  d0 ← index decoded 0;
  decoded ← assign decoded 0 dh;
  assign decoded highest d0.

(** [handleRenderPB] after the decoding loop *)
Definition renderDecoded (req : Request) (format : string)
    (decoded : list FetchResponse) : go HTTPResponse :=
  match decoded with
  | [] =>
    let err := "no decoded responses to merge for req: " +:+ RequestURI req in
    _ ← modify (with_metrics (RenderErrors_Add 1));
    mret (http_Error err StatusInternalServerError)
  | [d] => returnRender format d
  | _ =>
    (* Use the metric with the highest resolution as our base *)
    highest ← highestLoop (imap pair decoded) decoded 0;
    decoded ← swapBase decoded highest;
    metric ← index decoded 0;
    metric ← mergeValues metric decoded;
    returnRender format metric
  end.

Definition handleRenderPB (req : Request) (format : string)
    (responses : list serverResponse) : go HTTPResponse :=
  decoded ← decodeLoop responses [];
  renderDecoded req format decoded.

(** The server list [renderHandler] reads under [Config.mu.RLock()] *)
Definition lookupServers (target : string) : go (list string) :=
  cache ← gets metricPaths;
  match cache !! target with
  | Some serverList =>
    if decide (serverList = []) then mret (Backends cfg) else mret serverList
  | None => mret (Backends cfg)
  end.

Definition renderHandler (req : Request) (world : nat → exchange)
    (sched : list event) : go HTTPResponse :=
  _ ← modify (with_metrics (RenderRequests_Add 1));
  let target := FormValue req "target" in
  if decide (target = "") then mret (http_Error "empty target" StatusBadRequest)
  else
    serverList ← lookupServers target;
    let format := FormValue req "format" in
    responses ← multiGet cfg serverList (rewrite (RequestURI req)) world sched;
    if decide (responses = []) then
      _ ← modify (with_metrics (RenderErrors_Add 1));
      mret (http_Error "render: error querying backends" StatusInternalServerError)
    else handleRenderPB req format responses.
End Handlers.

(** ** The concurrency limiter: [serverLimiter]

    A [chan struct{}] of capacity [cap] used as a counting semaphore is
    the number of tokens it holds.  An operation on it either proceeds or
    blocks; a nil channel (the entry of a server the map does not have)
    blocks for ever. *)

Record semaphore := mkSemaphore {
  held : nat;
  capacity : nat
}.

(** [type serverLimiter map[string]chan struct{}]; [None] is the nil map
    of a limiter that was never set up. *)
Definition serverLimiter : Type := option (gmap string semaphore).

Inductive progress (A : Type) :=
| Proceeds (a : A)
| Blocks.
Arguments Proceeds {A} a.
Arguments Blocks {A}.

(** [newServerLimiter(servers, l)]; [None] is the panic of [make] on a
    negative size. *)
Definition newServerLimiter (servers : list string) (l : Z) : option serverLimiter :=
  match servers with
  | [] => Some (Some ∅)
  | _ :: _ =>
    if decide (l < 0)%Z then None
    else Some (Some (foldl (λ sl s, <[s := mkSemaphore 0 (Z.to_nat l)]> sl) ∅ servers))
  end.

(** [sl[s] <- struct{}{}] *)
Definition enter (sl : serverLimiter) (s : string) : progress serverLimiter :=
  match sl with
  | None => Proceeds None
  | Some m =>
    match m !! s with
    | None => Blocks
    | Some c =>
      if decide (held c < capacity c)
      then Proceeds (Some (<[s := mkSemaphore (S (held c)) (capacity c)]> m))
      else Blocks
    end
  end.

(** [<-sl[s]] *)
Definition leave (sl : serverLimiter) (s : string) : progress serverLimiter :=
  match sl with
  | None => Proceeds None
  | Some m =>
    match m !! s with
    | None => Blocks
    | Some c =>
      match held c with
      | 0 => Blocks
      | S n => Proceeds (Some (<[s := mkSemaphore n (capacity c)]> m))
      end
    end
  end.

(** [singleGet] with its limiter calls: the report it sends, if it gets to
    send one, and the limiter once its deferred [leave] has run.  A URL
    that does not parse is reported before any slot is asked for. *)
Definition singleGet_limited (sl : serverLimiter) (uri server : string) (x : exchange)
    : option serverResponse * progress serverLimiter :=
  match x with
  | ParseError => (Some (singleGet uri server x), Proceeds sl)
  | _ =>
    match enter sl server with
    | Blocks => (None, Blocks)
    | Proceeds sl' => (Some (singleGet uri server x), leave sl' server)
    end
  end.

(** The limiter calls of many workers, in the order they take effect. *)
Inductive limiter_call :=
| Enter (s : string)
| Leave (s : string).

#[global] Instance limiter_call_eq_dec : EqDecision limiter_call.
Proof. solve_decision. Defined.

Definition call (sl : serverLimiter) (c : limiter_call) : progress serverLimiter :=
  match c with
  | Enter s => enter sl s
  | Leave s => leave sl s
  end.

Fixpoint calls (sl : serverLimiter) (cs : list limiter_call) : progress serverLimiter :=
  match cs with
  | [] => Proceeds sl
  | c :: cs' =>
    match call sl c with
    | Proceeds sl' => calls sl' cs'
    | Blocks => Blocks
    end
  end.

(** ** The configuration header: [stripCommentHeader] *)

(** [bytes.Index(b, []byte{c})], with [None] for -1 *)
Fixpoint bytes_IndexByte (b : list byte) (c : byte) : option nat :=
  match b with
  | [] => None
  | x :: b' => if Byte.eqb x c then Some 0 else S <$> bytes_IndexByte b' c
  end.

Definition hash : byte := x23.
Definition linefeed : byte := x0a.

(** The three ways [stripCommentHeader] ends: the panic of [cfg[0]] on an
    empty slice, [return nil], and [return cfg]. *)
Inductive stripped :=
| StripPanic
| StripNil
| Stripped (cfg : list byte).

Equations stripCommentHeader (cfg : list byte) : stripped by wf (length cfg) lt :=
stripCommentHeader [] := StripPanic;
stripCommentHeader (c :: rest) with Byte.eqb c hash := {
  | false := Stripped (c :: rest);
  | true with bytes_IndexByte (c :: rest) linefeed := {
    | None := StripNil;
    | Some idx with decide (idx + 1 = length (c :: rest)) := {
      | left _ := StripNil;
      | right _ := stripCommentHeader (drop (idx + 1) (c :: rest)) } } }.
Next Obligation. rewrite length_drop. cbn. lia. Qed.

(** ** The latency histogram: [bucketRequestTimes]

    [int] is taken to be 64 bits wide, as on the platforms the proxy runs
    on; [/] on integers truncates toward zero. *)

(** [atomic.AddInt64(&timeBuckets[i], delta)] *)
Definition atomic_AddInt64 (timeBuckets : list Z) (i delta : Z) : option (list Z) :=
  if decide (0 ≤ i)%Z then
    x ← timeBuckets !! Z.to_nat i;
    Some (<[Z.to_nat i := expvar.Add x delta]> timeBuckets)
  else None.

(** [timeBuckets = make([]int64, Config.Buckets+1)] *)
Definition make_timeBuckets (Buckets : Z) : option (list Z) :=
  if decide (0 ≤ Buckets + 1)%Z then Some (replicate (Z.to_nat (Buckets + 1)) 0%Z)
  else None.

(** The histogram afterwards and whether "Slow Request" was logged;
    [None] is the panic of an index out of range. *)
Definition bucketRequestTimes (Buckets : Z) (timeBuckets : list Z) (t : Z)
    : option (list Z * bool) :=
  let ms := (t ÷ Millisecond)%Z in
  let bucket := (ms ÷ 100)%Z in
  if decide (bucket < Buckets)%Z then
    tb ← atomic_AddInt64 timeBuckets bucket 1;
    Some (tb, false)
  else
    (* Too big? Increment overflow bucket and log *)
    tb ← atomic_AddInt64 timeBuckets Buckets 1;
    Some (tb, true).

(** ** Vocabulary of the statements *)

(** A report that carries a body. *)
Definition present (r : serverResponse) : Prop := is_Some (response r).

#[global] Instance present_dec r : Decision (present r).
Proof. unfold present. apply _. Defined.

(** The invariant of the gather loop started at instant [t0]: one
    iteration per report received; the reports come from distinct workers,
    each its own worker's; [response] is the reports with a body; no
    report was received before the dispatch; the timer is the one armed at
    dispatch until a report with a body has been received, and from then
    on the one armed at the receipt of the first such report. *)
Definition gather_inv (cfg : Config) (servers : list string)
    (ch : list serverResponse) (t0 : Z) (g : gather) : Prop :=
  g_i g = length (g_received g) ∧
  g_i g ≤ length servers ∧
  NoDup (g_reported g) ∧
  Forall2 (λ k tr, ch !! k = Some tr.2) (g_reported g) (g_received g) ∧
  g_response g = filter present (g_received g).*2 ∧
  Forall (λ tr, (t0 ≤ tr.1)%Z) (g_received g) ∧
  match list_find (λ tr, present tr.2) (g_received g) with
  | None =>
    g_isFirstResponse g = true ∧
    g_timeout g = (t0 + Duration_of_ms (TimeoutMs cfg))%Z
  | Some (_, (t, _)) =>
    g_isFirstResponse g = false ∧
    g_timeout g = (t + Duration_of_ms (TimeoutMsAfterFirstSeen cfg))%Z
  end.

(** A computation that touches the counters only. *)
Definition only_metrics {A} (m : go A) : Prop :=
  ∀ s, metricPaths (m s).2 = metricPaths s ∧
       spawned (m s).2 = spawned s ∧
       now (m s).2 = now s.

(** The matches of the responses that decode, each with the backend that
    reported it, in shard-response order then match order. *)
Definition occurrences (Unmarshal_Glob : list byte → option GlobResponse)
    (responses : list serverResponse) : list (string * GlobMatch) :=
  r ← responses;
  match Unmarshal_Glob (default [] (response r)) with
  | None => []
  | Some metric => pair (server r) <$> Matches metric
  end.

(** One step of the aggregation, on an occurrence. *)
Definition addOccurrence (acc : list GlobMatch * gmap string (list string))
    (sm : string * GlobMatch) : list GlobMatch * gmap string (list string) :=
  addMatch sm.1 acc sm.2.

(** The union by path: the first record of each path not in [seen]. *)
Fixpoint firstByPath (seen : list string) (ms : list GlobMatch) : list GlobMatch :=
  match ms with
  | [] => []
  | m :: ms' =>
    if decide (Path m ∈ seen) then firstByPath seen ms'
    else m :: firstByPath (Path m :: seen) ms'
  end.

(** The backends that reported path [p], once per occurrence, in order. *)
Definition contributors (p : string) (occ : list (string * GlobMatch)) : list string :=
  (filter (λ sm, Path sm.2 = p) occ).*1.

(** A routing entry extended by further contributors. *)
Definition extended (o : option (list string)) (c : list string) : option (list string) :=
  match c with
  | [] => o
  | _ :: _ => Some (default [] o ++ c)
  end.

(** The sample of a response at an index: its flag and its value. *)
Definition sample (d : FetchResponse) (i : nat) : option bool * option float :=
  (IsAbsent d !! i, Values d !! i).

(** The values the peers have at index [i], in peer order. *)
Definition present_at (i : nat) (peers : list FetchResponse) : list float :=
  omap (λ m, match IsAbsent m !! i with
             | Some false => Values m !! i
             | _ => None
             end) peers.

(** [metric] with the sample at [i] set to the present value [v]. *)
Definition filled (metric : FetchResponse) (i : nat) (v : float) : FetchResponse :=
  set_Values (set_IsAbsent metric (<[i:=false]> (IsAbsent metric)))
             (<[i:=v]> (Values metric)).

(** [decoded[h]] has the smallest step, and is the first that has it. *)
Definition first_smallest_step (decoded : list FetchResponse) (h : nat)
    (base : FetchResponse) : Prop :=
  decoded !! h = Some base ∧
  (∀ j d, decoded !! j = Some d → (StepTime base ≤ StepTime d)%Z) ∧
  (∀ j d, j < h → decoded !! j = Some d → (StepTime base < StepTime d)%Z).

(** The samples of a response as JSON: null where the sample is absent. *)
Definition json_samples (metric : FetchResponse) : list json :=
  zip_with (λ v (a : bool), if a then JNull else JNumber v)
           (Values metric) (IsAbsent metric).

(** The floats encoding/json accepts. *)
Definition finite (f : float) : Prop := is_nan f || is_infinity f = false.

(** A match as encoding/json writes it under the declared names. *)
Definition glob_json (tags : GlobMatchTags) (m : GlobMatch) : json :=
  JObject (<[json_IsLeaf tags := JBool (IsLeaf m)]>
           (<[json_Path tags := JString (Path m)]> ∅)).

(** A JSON array, or null for a slice that is nil. *)
Definition json_slice (l : list json) : json :=
  match l with
  | [] => JNull
  | _ :: _ => JArray l
  end.

(** The render object: the five members of [createRenderResponse]. *)
Definition render_json (metric : FetchResponse) : json :=
  JObject (<["start" := JInt (StartTime metric)]>
          (<["step" := JInt (StepTime metric)]>
          (<["end" := JInt (StopTime metric)]>
          (<["name" := JString (Name metric)]>
          (<["values" := json_slice (json_samples metric)]> ∅))))).

(** ** Sample data *)

Module Sample.
Definition s0 : State := mkState ∅ (mkMetrics 0 0 0 0 0) [] 0.

Definition series (step : Z) (vs : list float) (absent : list bool) : FetchResponse :=
  mkFetchResponse "x.y" 0 (step * Z.of_nat (length vs)) step vs absent.

(** two responses of length 4 and one of length 5 *)
Definition base4 : FetchResponse :=
  series 60 [1; 0; 3; 0]%float [false; true; false; true].
Definition peer4 : FetchResponse :=
  series 60 [9; 2; 9; 9]%float [false; false; false; false].
Definition peer5 : FetchResponse :=
  series 60 [9; 2; 9; 9; 9]%float [false; false; false; false; false].
Definition full2 : FetchResponse := series 60 [1; 2]%float [false; false].

(** a base with one absent sample and two peers that both have it *)
Definition gap1 : FetchResponse := series 60 [0]%float [true].
Definition first1 : FetchResponse := series 60 [1]%float [false].
Definition second1 : FetchResponse := series 60 [2]%float [false].

(** a coarse and a fine series for the same window *)
Definition coarse : FetchResponse := series 60 [1; 0]%float [false; true].
Definition fine : FetchResponse :=
  series 10 [1; 1; 1; 1; 1; 1; 2; 2; 2; 2; 2; 2]%float
    [false; false; false; false; false; false;
     false; false; false; false; false; false].

Definition cfg : Config := mkConfig ["A"; "B"] 2000 500.
Definition cfgA : Config := mkConfig ["A"] 2000 500.

(** Stand-ins for the protobuf decoders: three bodies decode, every
    other body is malformed. *)
Definition Unmarshal_Glob (b : list byte) : option GlobResponse :=
  match b with
  | [c] =>
    if Byte.eqb c x01 then Some (mkGlobResponse "x.*" [mkGlobMatch "x.y" true])
    else if Byte.eqb c x02 then
      Some (mkGlobResponse "x.*" [mkGlobMatch "x.y" true; mkGlobMatch "x.z" true])
    else if Byte.eqb c x03 then
      Some (mkGlobResponse "foo.*" [mkGlobMatch "foo.bar" true; mkGlobMatch "foo.baz" true])
    else None
  | _ => None
  end.

Definition Unmarshal_Fetch (b : list byte) : option FetchResponse :=
  match b with
  | [c] =>
    if Byte.eqb c x01 then Some coarse
    else if Byte.eqb c x02 then Some fine
    else None
  | _ => None
  end.

(** Stand-in for the query rewriting. *)
Definition rewrite (uri : string) : string := uri +:+ "&format=protobuf".

Definition request (uri format target query : string) : Request :=
  mkRequest uri (λ key, if decide (key = "format") then format
                        else if decide (key = "target") then target
                        else if decide (key = "query") then query
                        else "").

Definition find_json : Request := request "/metrics/find/?query=x.*&format=json" "json" "" "x.*".
Definition find_foo_json : Request :=
  request "/metrics/find/?query=foo.*&format=json" "json" "" "foo.*".
Definition render_xz : Request := request "/render/?target=x.z&format=json" "json" "x.z" "".

(** worker 0 answers with body 01, every other worker with body 02 *)
Definition world12 (k : nat) : exchange :=
  match k with
  | 0 => Reply 200 (Some [x01])
  | _ => Reply 200 (Some [x02])
  end.
(** worker 0 answers 404, every other worker 200 with body 02 *)
Definition world404 (k : nat) : exchange :=
  match k with
  | 0 => Reply 404 (Some [])
  | _ => Reply 200 (Some [x02])
  end.
(** every worker answers with body 03 *)
Definition world3 (k : nat) : exchange := Reply 200 (Some [x03]).
(** every worker answers 200 with a body that does not decode *)
Definition worldBad (k : nat) : exchange := Reply 200 (Some [xff]).

Definition both : list event := [Deliver 10 0; Deliver 10 1].
Definition only0 : list event := [Deliver 10 0].

(** the scatter of the two-backend find, of the find whose body is
    malformed, and of the single-backend find *)
Definition find12 : option (list serverResponse) * State :=
  Eval vm_compute in
    multiGet cfg (Backends cfg) (rewrite (RequestURI find_json)) world12 both
             (with_metrics (FindRequests_Add 1) s0).
Definition findBad : option (list serverResponse) * State :=
  Eval vm_compute in
    multiGet cfgA (Backends cfgA) (rewrite (RequestURI find_json)) worldBad only0
             (with_metrics (FindRequests_Add 1) s0).

(** the routing cache after the two-backend find *)
Definition routed : State :=
  mkState (<["x.y" := ["A"; "B"]]> (<["x.z" := ["B"]]> ∅)) (mkMetrics 1 0 0 0 0) [] 0.

(** the two render responses of [world12], and the state after decoding *)
Definition render12 : list serverResponse :=
  [mkServerResponse "A" (Some [x01]); mkServerResponse "B" (Some [x02])].
End Sample.

(** ** Further vocabulary *)

(** The messages of the responses that decode, in order. *)
Definition decoded_bodies {A} (Unmarshal : list byte → option A)
    (responses : list serverResponse) : list A :=
  omap (λ r, Unmarshal (default [] (response r))) responses.

(** [n] render-errors, and [n] find-errors, counted one by one. *)
Definition render_errors (n : nat) (s : State) : State :=
  Nat.iter n (with_metrics (RenderErrors_Add 1)) s.
Definition find_errors (n : nat) (s : State) : State :=
  Nat.iter n (with_metrics (FindErrors_Add 1)) s.

(** The formats the handlers know. *)
Definition known_format (format : string) : Prop :=
  format = "protobuf" ∨ format = "json" ∨ format = "" ∨ format = "pickle".

(** The map [createRenderResponse] builds for a response, with [missing]
    at the absent samples. *)
Definition render_map (metric : FetchResponse) (missing : any) : any :=
  AMap (<["start" := AInt32 (StartTime metric)]>
       (<["step" := AInt32 (StepTime metric)]>
       (<["end" := AInt32 (StopTime metric)]>
       (<["name" := AString (Name metric)]>
       (<["values" := appended (zip_with (λ v (a : bool),
                                            if a then missing else AFloat64 v)
                                         (Values metric) (IsAbsent metric))]> ∅))))).

(** A backend that answers 200 with a body that could be read. *)
Definition answers (x : exchange) : Prop := ∃ b, x = Reply 200 (Some b).

(** A comment line of a configuration header: a hash, no linefeed before
    its end, and the linefeed that ends it. *)
Definition comment_line (l : list byte) : Prop :=
  ∃ text, l = hash :: text ++ [linefeed] ∧ linefeed ∉ text.

(** The number of calls of a kind on server [s] in a sequence of calls. *)
Definition entered (s : string) (cs : list limiter_call) : nat :=
  length (filter (λ c, c = Enter s) cs).
Definition left_ (s : string) (cs : list limiter_call) : nat :=
  length (filter (λ c, c = Leave s) cs).


(** The bucket of a duration of [t] nanoseconds: one per 100 ms, and the
    overflow bucket from [Buckets] on. *)
Definition bucket_of (Buckets t : Z) : nat :=
  Z.to_nat (Z.min (t / 100000000) Buckets).

(** [bucketRequestTimes] for the requests of durations [ts], one after the
    other. *)
Fixpoint timed (Buckets : Z) (timeBuckets : list Z) (ts : list Z) : option (list Z) :=
  match ts with
  | [] => Some timeBuckets
  | t :: ts' =>
    r ← bucketRequestTimes Buckets timeBuckets t;
    timed Buckets r.1 ts'
  end.

(** A response with at least one flag per value. *)
Definition flagged (d : FetchResponse) : Prop :=
  length (Values d) ≤ length (IsAbsent d).

(** The samples of a response, [None] where the sample is absent. *)
Definition samples_of (d : FetchResponse) : list (option float) :=
  zip_with (λ v (a : bool), if a then None else Some v) (Values d) (IsAbsent d).

(** A response whose present samples are all finite. *)
Definition finite_samples (d : FetchResponse) : Prop :=
  ∀ i v, Values d !! i = Some v → IsAbsent d !! i = Some false → finite v.

(** What a client reads in a render body: the name, the start, the stop
    and the step of the series and its samples, from the protobuf message,
    from the JSON object or from the pickled list of one map; [None] when
    the body is none of these. *)
Definition read_json_sample (j : json) : option (option float) :=
  match j with
  | JNull => Some None
  | JNumber f => Some (Some f)
  | _ => None
  end.

Definition read_pickle_sample (v : any) : option (option float) :=
  match v with
  | APickleNone => Some None
  | AFloat64 f => Some (Some f)
  | _ => None
  end.

Definition read_render (b : payload)
    : option (string * Z * Z * Z * list (option float)) :=
  match b with
  | Protobuf (MsgFetch m) =>
    Some (Name m, StartTime m, StopTime m, StepTime m, samples_of m)
  | JSON (JObject o) =>
    match o !! "name", o !! "start", o !! "end", o !! "step", o !! "values" with
    | Some (JString n), Some (JInt a), Some (JInt e), Some (JInt st), Some vs =>
      l ← match vs with
          | JNull => Some []
          | JArray l => mapM read_json_sample l
          | _ => None
          end;
      Some (n, a, e, st, l)
    | _, _, _, _, _ => None
    end
  | Pickle (ASlice (Some [AMap o])) =>
    match o !! "name", o !! "start", o !! "end", o !! "step", o !! "values" with
    | Some (AString n), Some (AInt32 a), Some (AInt32 e), Some (AInt32 st), Some vs =>
      l ← match vs with
          | ASlice None => Some []
          | ASlice (Some l) => mapM read_pickle_sample l
          | _ => None
          end;
      Some (n, a, e, st, l)
    | _, _, _, _, _ => None
    end
  | _ => None
  end.

(** The schedule on which the coordinator takes the reports of the
    workers [dks.*2], one after the other, each after its delay. *)
Definition deliveries (dks : list (N * nat)) : list event :=
  (λ dk, Deliver dk.1 dk.2) <$> dks.

(** The time these deliveries take. *)
Definition elapsed (dks : list (N * nat)) : Z :=
  foldr (λ dk acc, (Z.of_N dk.1 + acc)%Z) 0%Z dks.

(** The report of the worker started for [servers[k]]. *)
Definition report (servers : list string) (uri : string) (world : nat → exchange)
    (k : nat) : option serverResponse :=
  (λ srv, singleGet uri srv (world k)) <$> servers !! k.

(** The reports the coordinator has taken after these deliveries, from
    instant [t] on, each with the instant of its receipt. *)
Fixpoint receipts (servers : list string) (uri : string) (world : nat → exchange)
    (t : Z) (dks : list (N * nat)) : list (Z * serverResponse) :=
  match dks with
  | [] => []
  | dk :: dks' =>
    let t' := (t + Z.of_N dk.1)%Z in
    match report servers uri world dk.2 with
    | Some r => (t', r) :: receipts servers uri world t' dks'
    | None => receipts servers uri world t' dks'
    end
  end.

(** The deadline after these receipts, for a dispatch at instant [t0]:
    [TimeoutMs] from the dispatch as long as no report carries a body,
    and [TimeoutMsAfterFirstSeen] from the receipt of the first report
    that does. *)
Definition deadline (cfg : Config) (t0 : Z) (received : list (Z * serverResponse)) : Z :=
  match list_find (λ tr, present tr.2) received with
  | None => (t0 + Duration_of_ms (TimeoutMs cfg))%Z
  | Some (_, (t, _)) => (t + Duration_of_ms (TimeoutMsAfterFirstSeen cfg))%Z
  end.

(** * Properties *)

(** ** The monad *)

Lemma bind_run {A B} (m : go A) (k : A → go B) (s : State) :
  (m ≫= k) s = match m s with
               | (Some a, s') => k a s'
               | (None, s') => (None, s')
               end.
Proof. reflexivity. Qed.

Lemma ret_run {A} (a : A) (s : State) : (mret a : go A) s = (Some a, s).
Proof. reflexivity. Qed.

Lemma index_run {A} (l : list A) (i : nat) (x : A) (s : State) :
  l !! i = Some x → index l i s = (Some x, s).
Proof. intros H. unfold index. by rewrite H. Qed.

Lemma index_panic {A} (l : list A) (i : nat) (s : State) :
  l !! i = None → index l i s = (None, s).
Proof. intros H. unfold index. by rewrite H. Qed.

Lemma assign_run {A} (l : list A) (i : nat) (x : A) (s : State) :
  i < length l → assign l i x s = (Some (<[i:=x]> l), s).
Proof. intros H. unfold assign. by rewrite decide_True. Qed.

(** ** mergeValues *)

Lemma mergeLoop_app idx1 idx2 peers metric b s :
  mergeLoop (idx1 ++ idx2) peers metric b s =
  match mergeLoop idx1 peers metric b s with
  | (Some r, s') => mergeLoop idx2 peers r.1 r.2 s'
  | (None, s') => (None, s')
  end.
Proof.
  revert metric b s.
  induction idx1 as [|i idx1 IH]; intros metric b s; [done|].
  cbn [mergeLoop app]. rewrite !bind_run.
  destruct (index (IsAbsent metric) i s) as [[a|] s1]; [|done].
  destruct (negb a || b); [apply IH|].
  rewrite !bind_run.
  destruct (scanPeers i peers metric s1) as [[r|] s2]; [apply IH|done].
Qed.

(** An index whose sample is present, or any index once the mismatch flag
    is up, is passed over. *)
Lemma mergeLoop_skip idx peers metric b s :
  (∀ i, i ∈ idx → ∃ a, IsAbsent metric !! i = Some a ∧ negb a || b = true) →
  mergeLoop idx peers metric b s = (Some (metric, b), s).
Proof.
  induction idx as [|i idx IH]; intros Hidx; [done|].
  cbn [mergeLoop]. rewrite bind_run.
  destruct (Hidx i) as (a & Ha & Hskip); [left|].
  rewrite (index_run _ _ _ _ Ha), Hskip.
  apply IH. intros k Hk. apply Hidx. by right.
Qed.

(** What a scan at index [i] leaves alone. *)
Lemma scanPeers_frame i peers metric s r s' :
  scanPeers i peers metric s = (Some r, s') →
  length (Values r.1) = length (Values metric) ∧
  length (IsAbsent r.1) = length (IsAbsent metric) ∧
  (∀ k, k ≠ i → Values r.1 !! k = Values metric !! k ∧
                 IsAbsent r.1 !! k = IsAbsent metric !! k) ∧
  Name r.1 = Name metric ∧ StartTime r.1 = StartTime metric ∧
  StopTime r.1 = StopTime metric ∧ StepTime r.1 = StepTime metric.
Proof.
  revert metric s.
  induction peers as [|m rest IH]; intros metric s.
  - intros [= <- <-]. done.
  - cbn [scanPeers]. case_decide as Hlen.
    + intros [= <- <-]. done.
    + rewrite bind_run. unfold index at 1.
      destruct (IsAbsent m !! i) as [a|]; [|done]. rewrite ret_run.
      destruct a; cbn [negb]; [apply IH|].
      rewrite bind_run. unfold assign at 1. case_decide as Hi; [|done].
      rewrite ret_run, bind_run. unfold index at 1.
      destruct (Values m !! i) as [v|]; [|done]. rewrite ret_run, bind_run.
      unfold assign at 1. case_decide as Hi'; [|done]. rewrite ret_run.
      intros Hscan. apply IH in Hscan. cbn in Hscan.
      rewrite !length_insert in Hscan.
      destruct Hscan as (H1 & H2 & H3 & H4 & H5 & H6 & H7).
      split_and!; try done.
      intros k Hk. destruct (H3 k Hk) as [-> ->].
      by rewrite !list_lookup_insert_ne.
Qed.

(** The first element of a list with a decidable property. *)
Lemma Exists_first {A} (P : A → Prop) `{!∀ x, Decision (P x)} (l : list A) :
  Exists P l →
  ∃ j x, l !! j = Some x ∧ P x ∧ Forall (λ y, ¬ P y) (take j l).
Proof.
  induction 1 as [x l Hx | x l _ IH].
  - exists 0, x. by repeat split.
  - destruct (decide (P x)) as [Hx | Hx].
    + exists 0, x. by repeat split.
    + destruct IH as (j & y & Hj & Hy & Hpre).
      exists (S j), y. repeat split; [done..|]. by constructor.
Qed.

(** A scan over peers of the base's length that ends at a peer of another
    length: the peers before it are scanned as if they were all, and the
    peers after it are not looked at. *)
Lemma scanPeers_until_mismatch i pre mbad rest metric s :
  i < length (Values metric) → aligned metric →
  Forall (λ m, length (Values m) = length (Values metric) ∧ aligned m) pre →
  length (Values mbad) ≠ length (Values metric) →
  ∃ filled,
    scanPeers i pre metric s = (Some (filled, false), s) ∧
    scanPeers i (pre ++ mbad :: rest) metric s =
      (Some (filled, true), with_metrics (RenderErrors_Add 1) s).
Proof.
  intros Hi Hal Hpre Hbad. revert metric Hi Hal Hpre Hbad.
  induction pre as [|m pre IH]; intros metric Hi Hal Hpre Hbad.
  - exists metric. split; [done|]. cbn [app scanPeers]. by rewrite decide_True.
  - apply Forall_cons in Hpre as [[Hm Hma] Hpre].
    cbn [app scanPeers].
    destruct (decide (length (Values m) ≠ length (Values metric))) as [?|_]; [done|].
    unfold aligned in *.
    destruct (lookup_lt_is_Some_2 (IsAbsent m) i) as [a Ha]; [lia|].
    rewrite !bind_run, !(index_run _ _ _ _ Ha).
    destruct a; cbn [negb]; [by apply IH|].
    destruct (lookup_lt_is_Some_2 (Values m) i) as [v Hv]; [lia|].
    rewrite !bind_run, !assign_run by lia.
    rewrite !bind_run, !(index_run _ _ _ _ Hv).
    rewrite !bind_run, !assign_run by lia.
    apply IH; cbn; rewrite ?length_insert; try done.
Qed.

Lemma seq_split_at (n i : nat) :
  i < n → seq 0 n = seq 0 i ++ i :: seq (S i) (n - S i).
Proof.
  intros Hi. replace n with (i + S (n - S i)) at 1 by lia.
  by rewrite seq_app.
Qed.

(** C10.  The merger looks at the peers only at an index where the base
    marks the sample absent.  So when the base marks no sample absent, the
    peers are never examined, whatever their lengths: the mismatch flag
    stays down, no counter moves (the state is unchanged), and the base
    comes back as it was. *)
Theorem mergeValues_no_absent_no_mismatch
    (metric : FetchResponse) (decoded : list FetchResponse) (s : State) :
  aligned metric →
  Forall (λ a, a = false) (IsAbsent metric) →
  mergeLoop (seq 0 (length (Values metric))) (drop 1 decoded) metric false s
    = (Some (metric, false), s) ∧
  mergeValues metric decoded s = (Some metric, s).
Proof.
  intros Hal Hpresent.
  assert (mergeLoop (seq 0 (length (Values metric))) (drop 1 decoded) metric false s
          = (Some (metric, false), s)) as Hloop.
  { apply mergeLoop_skip. intros i Hi. apply elem_of_seq in Hi.
    destruct (lookup_lt_is_Some_2 (IsAbsent metric) i) as [a Ha];
      [unfold aligned in Hal; lia|].
    exists a. split; [done|].
    rewrite Forall_lookup in Hpresent. by rewrite (Hpresent i a Ha). }
  split; [done|]. unfold mergeValues. by rewrite bind_run, Hloop.
Qed.

Lemma mergeValues_no_absent_no_mismatch_witness :
  mergeLoop (seq 0 (length (Values Sample.full2)))
            (drop 1 [Sample.full2; Sample.peer5]) Sample.full2 false Sample.s0
    = (Some (Sample.full2, false), Sample.s0) ∧
  mergeValues Sample.full2 [Sample.full2; Sample.peer5] Sample.s0
    = (Some Sample.full2, Sample.s0).
Proof.
  apply (mergeValues_no_absent_no_mismatch Sample.full2
           [Sample.full2; Sample.peer5] Sample.s0).
  - reflexivity.
  - repeat constructor.
Defined.

(** C1, at three responses of one value each, the base's sample absent and
    both peers' samples present: the scan has no [break] after "found
    one", so the second peer overwrites what the first peer filled in and
    the merged sample is the last present peer's (2), not the first
    present peer's (1). *)
Theorem mergeValues_last_present_peer_wins :
  IsAbsent Sample.gap1 !! 0 = Some true ∧
  (IsAbsent Sample.first1 !! 0 = Some false ∧ Values Sample.first1 !! 0 = Some 1%float) ∧
  (IsAbsent Sample.second1 !! 0 = Some false ∧ Values Sample.second1 !! 0 = Some 2%float) ∧
  ∃ merged,
    mergeValues Sample.gap1 [Sample.gap1; Sample.first1; Sample.second1] Sample.s0
      = (Some merged, Sample.s0) ∧
    IsAbsent merged !! 0 = Some false ∧
    Values merged !! 0 = Some 2%float ∧
    Values merged !! 0 ≠ Values Sample.first1 !! 0.
Proof.
  split_and!; try reflexivity.
  exists (Sample.series 60 [2]%float [false]). split_and!; try reflexivity.
  cbn. by intros [= H].
Qed.

(** *** Peers of the base's length

    What the scan computes when every peer has the base's length: the
    base's sample where it is present; where it is absent, the value of a
    peer that has the sample, and of the last such peer in peer order,
    since the scan goes on after a fill. *)

Lemma filled_filled metric i v w :
  filled (filled metric i v) i w = filled metric i w.
Proof.
  unfold filled, set_Values, set_IsAbsent. cbn.
  by rewrite !list_insert_insert_eq.
Qed.

Lemma scanPeers_equal_length i peers metric s :
  i < length (Values metric) → aligned metric →
  Forall (λ m, length (Values m) = length (Values metric) ∧ aligned m) peers →
  scanPeers i peers metric s =
    (Some (from_option (filled metric i) metric (last (present_at i peers)), false), s).
Proof.
  revert metric.
  induction peers as [|m peers IH]; intros metric Hi Hal Hpeers; [done|].
  apply Forall_cons in Hpeers as [[Hm Hma] Hpeers].
  cbn [scanPeers]. rewrite decide_False by (by intros ?).
  unfold aligned in *.
  destruct (lookup_lt_is_Some_2 (IsAbsent m) i) as [a Ha]; [lia|].
  destruct (lookup_lt_is_Some_2 (Values m) i) as [v Hv]; [lia|].
  rewrite bind_run, (index_run _ _ _ _ Ha).
  unfold present_at. cbn [omap list_omap]. rewrite Ha, ?Hv.
  destruct a; cbn [negb].
  - by apply IH.
  - rewrite bind_run, assign_run by lia.
    rewrite bind_run, (index_run _ _ _ _ Hv).
    rewrite bind_run, assign_run by lia.
    fold (filled metric i v). fold (present_at i peers).
    rewrite IH; cbn; rewrite ?length_insert; try done.
    rewrite last_cons.
    destruct (last (present_at i peers)) as [w|]; cbn; by rewrite ?filled_filled.
Qed.

Lemma sample_filled_ne metric i j v : j ≠ i → sample (filled metric i v) j = sample metric j.
Proof.
  intros Hne. unfold sample, filled. cbn. by rewrite !list_lookup_insert_ne.
Qed.

Lemma sample_filled_eq metric i v :
  i < length (Values metric) → aligned metric →
  sample (filled metric i v) i = (Some false, Some v).
Proof.
  intros Hi Hal. unfold aligned in Hal. unfold sample, filled. cbn.
  by rewrite !list_lookup_insert_eq by lia.
Qed.

(** The sample the merger leaves at an index, from the sample it found
    there and the peers. *)
Lemma mergeLoop_equal_length idx peers metric s :
  NoDup idx → (∀ i, i ∈ idx → i < length (Values metric)) → aligned metric →
  Forall (λ m, length (Values m) = length (Values metric) ∧ aligned m) peers →
  ∃ merged,
    mergeLoop idx peers metric false s = (Some (merged, false), s) ∧
    aligned merged ∧ length (Values merged) = length (Values metric) ∧
    (∀ i, i ∉ idx → sample merged i = sample metric i) ∧
    (∀ i, i ∈ idx →
       sample merged i =
       match IsAbsent metric !! i, last (present_at i peers) with
       | Some true, Some v => (Some false, Some v)
       | _, _ => sample metric i
       end).
Proof.
  revert metric.
  induction idx as [|i idx IH]; intros metric Hnd Hidx Hal Hpeers.
  - exists metric. split_and!; try done. by intros i ?%elem_of_nil.
  - apply NoDup_cons in Hnd as [Hfresh Hnd].
    assert (i < length (Values metric)) as Hi by (apply Hidx; left).
    destruct (lookup_lt_is_Some_2 (IsAbsent metric) i) as [a Ha].
    { unfold aligned in Hal. lia. }
    cbn [mergeLoop]. rewrite bind_run, (index_run _ _ _ _ Ha), orb_false_r.
    set (next := if a then from_option (filled metric i) metric (last (present_at i peers))
                 else metric).
    assert (aligned next ∧ length (Values next) = length (Values metric) ∧
            (∀ j, j ≠ i → sample next j = sample metric j) ∧
            sample next i = match IsAbsent metric !! i, last (present_at i peers) with
                            | Some true, Some v => (Some false, Some v)
                            | _, _ => sample metric i
                            end) as (Hnal & Hnlen & Hnother & Hni).
    { unfold next. rewrite Ha.
      destruct a; [|done].
      destruct (last (present_at i peers)) as [v|]; [|done]. cbn.
      split_and!.
      - unfold aligned, filled in *. cbn. by rewrite !length_insert.
      - unfold filled. cbn. by rewrite length_insert.
      - intros j Hj. by apply sample_filled_ne.
      - by apply sample_filled_eq. }
    assert (mergeLoop (i :: idx) peers metric false s = mergeLoop idx peers next false s)
      as Hstep.
    { cbn [mergeLoop]. rewrite bind_run, (index_run _ _ _ _ Ha), orb_false_r.
      unfold next. destruct a; cbn [negb]; [|done].
      by rewrite bind_run, scanPeers_equal_length. }
    cbn [mergeLoop] in Hstep. rewrite bind_run, (index_run _ _ _ _ Ha), orb_false_r in Hstep.
    rewrite Hstep.
    destruct (IH next Hnd) as (merged & Hrun & Hmal & Hmlen & Hmother & Hmidx);
      [|done| |].
    { intros j Hj. rewrite Hnlen. apply Hidx. by right. }
    { eapply Forall_impl; [exact Hpeers|]. intros m [? ?]. split; [congruence|done]. }
    exists merged. split_and!; [done|done|congruence| |].
    + intros j Hj. apply not_elem_of_cons in Hj as [? ?].
      rewrite Hmother by done. by apply Hnother.
    + intros j [->|Hj]%elem_of_cons.
      * by rewrite Hmother.
      * assert (j ≠ i) as Hne by (by intros ->).
        rewrite Hmidx by done.
        pose proof (Hnother j Hne) as Hsame. unfold sample in *.
        injection Hsame as Hflag Hvalue. by rewrite Hflag, Hvalue.
Qed.

Lemma mergeValues_equal_length metric decoded s :
  aligned metric →
  Forall (λ m, length (Values m) = length (Values metric) ∧ aligned m) (drop 1 decoded) →
  ∃ merged,
    mergeValues metric decoded s = (Some merged, s) ∧
    length (Values merged) = length (Values metric) ∧
    ∀ i, sample merged i =
         match IsAbsent metric !! i, last (present_at i (drop 1 decoded)) with
         | Some true, Some v => (Some false, Some v)
         | _, _ => sample metric i
         end.
Proof.
  intros Hal Hpeers.
  destruct (mergeLoop_equal_length (seq 0 (length (Values metric))) (drop 1 decoded)
              metric s) as (merged & Hrun & _ & Hlen & Hother & Hidx);
    [apply NoDup_seq| |done..|].
  { intros i Hi. apply elem_of_seq in Hi. lia. }
  exists merged. unfold mergeValues. rewrite bind_run, Hrun. split_and!; [done..|].
  intros i. destruct (decide (i < length (Values metric))) as [Hi|Hi].
  - apply Hidx, elem_of_seq. lia.
  - rewrite Hother by (rewrite elem_of_seq; lia).
    unfold aligned in Hal.
    by rewrite (lookup_ge_None_2 (IsAbsent metric) i) by lia.
Qed.

(** With a single peer the last peer that has the sample is the first. *)
Lemma present_at_single i (m : FetchResponse) :
  last (present_at i [m]) = head (present_at i [m]).
Proof. unfold present_at. cbn. by destruct (IsAbsent m !! i) as [[|]|], (Values m !! i). Qed.

(** The two scenarios of a merge of two responses of length 4. *)
Example mergeValues_gap_fill :
  mergeValues Sample.base4 [Sample.base4; Sample.peer4] Sample.s0 =
    (Some (Sample.series 60 [1; 2; 3; 9]%float [false; false; false; false]),
     Sample.s0).
Proof. reflexivity. Qed.

Example mergeValues_one_peer_too_long :
  mergeValues Sample.base4 [Sample.base4; Sample.peer5] Sample.s0 =
    (Some Sample.base4, with_metrics (RenderErrors_Add 1) Sample.s0).
Proof. reflexivity. Qed.

(** *** The merge at a peer of another length *)

(** C3.  Let some peer have another number of values than the base, and
    let the base mark some sample absent.  With [i0] the first absent index
    of the base and [j] the first such peer, the scan at [i0] goes through
    the peers before [j] and stops at [j].  The merged response is the
    base with the fill made at [i0] before the mismatch was seen: the
    sample at [i0] is present with the value of the last peer before [j]
    that has a sample there (the scan goes on after a fill), and it is
    the base's absent sample when no peer before [j] has one; every other
    sample is the base's, so no later index is filled, from any peer; and
    the render-error counter has been incremented once. *)
Theorem mergeValues_length_mismatch
    (metric : FetchResponse) (decoded : list FetchResponse) (s : State) :
  aligned metric → Forall aligned (drop 1 decoded) →
  true ∈ IsAbsent metric →
  Exists (λ m, length (Values m) ≠ length (Values metric)) (drop 1 decoded) →
  ∃ (i0 j : nat) (merged : FetchResponse),
    IsAbsent metric !! i0 = Some true ∧
    (∀ i, i < i0 → IsAbsent metric !! i = Some false) ∧
    (∃ m, drop 1 decoded !! j = Some m ∧
          length (Values m) ≠ length (Values metric)) ∧
    Forall (λ m, length (Values m) = length (Values metric))
           (take j (drop 1 decoded)) ∧
    merged = from_option (filled metric i0) metric
               (last (present_at i0 (take j (drop 1 decoded)))) ∧
    sample merged i0 =
      match last (present_at i0 (take j (drop 1 decoded))) with
      | Some v => (Some false, Some v)
      | None => sample metric i0
      end ∧
    (∀ i, i ≠ i0 → sample merged i = sample metric i) ∧
    mergeValues metric decoded s =
      (Some merged, with_metrics (RenderErrors_Add 1) s).
Proof.
  intros Hal Hpeers Habsent Hmis.
  destruct (Exists_first (λ a, a = true) (IsAbsent metric)) as (i0 & a & Hi0 & -> & Hbefore).
  { apply Exists_exists. by exists true. }
  destruct (Exists_first _ _ Hmis) as (j & mbad & Hj & Hbad & Hpre).
  assert (i0 < length (Values metric)) as Hi0lt.
  { apply lookup_lt_Some in Hi0. unfold aligned in Hal. lia. }
  assert (∀ i, i < i0 → IsAbsent metric !! i = Some false) as Hpresent.
  { intros i Hi.
    destruct (lookup_lt_is_Some_2 (IsAbsent metric) i) as [a Ha].
    { apply lookup_lt_Some in Hi0. lia. }
    rewrite Forall_lookup in Hbefore.
    destruct a; [|done]. exfalso. apply (Hbefore i true); [|done].
    rewrite lookup_take_lt by done. done. }
  assert (Forall (λ m, length (Values m) = length (Values metric) ∧ aligned m)
                 (take j (drop 1 decoded))) as Hpre'.
  { apply Forall_and. split.
    - eapply Forall_impl; [exact Hpre|]. intros m Hm. cbn in Hm. lia.
    - by apply Forall_take. }
  destruct (scanPeers_until_mismatch i0 (take j (drop 1 decoded)) mbad
              (drop (S j) (drop 1 decoded)) metric s Hi0lt Hal Hpre' Hbad)
    as (merged & Hfill & Hscan).
  rewrite take_drop_middle in Hscan by done.
  rewrite (scanPeers_equal_length i0 _ metric s Hi0lt Hal Hpre') in Hfill.
  injection Hfill as Hmerged.
  exists i0, j, merged. split_and!; try done.
  - by exists mbad.
  - eapply Forall_impl; [exact Hpre'|]. by intros m [? _].
  - rewrite <- Hmerged.
    destruct (last (present_at i0 (take j (drop 1 decoded)))) as [v|]; cbn; [|done].
    by apply sample_filled_eq.
  - intros i Hi. rewrite <- Hmerged.
    destruct (last (present_at i0 (take j (drop 1 decoded)))) as [v|]; cbn; [|done].
    by apply sample_filled_ne.
  - unfold mergeValues. rewrite bind_run.
    rewrite (seq_split_at _ _ Hi0lt), mergeLoop_app.
    rewrite mergeLoop_skip.
    2:{ intros i Hi. apply elem_of_seq in Hi. exists false.
        split; [apply Hpresent; lia|done]. }
    cbn [fst snd mergeLoop]. rewrite bind_run, (index_run _ _ _ _ Hi0).
    cbn [negb orb]. rewrite bind_run, Hscan. cbn [fst snd].
    rewrite mergeLoop_skip; [done|].
    intros i Hi. apply elem_of_seq in Hi.
    destruct (lookup_lt_is_Some_2 (IsAbsent merged) i) as [a Ha].
    { rewrite <- Hmerged.
      destruct (last (present_at i0 (take j (drop 1 decoded)))) as [v|]; cbn;
        rewrite ?length_insert; unfold aligned in Hal; lia. }
    exists a. split; [done|]. by rewrite orb_true_r.
Qed.

Lemma mergeValues_length_mismatch_witness :
  ∃ (i0 j : nat) (merged : FetchResponse),
    IsAbsent Sample.base4 !! i0 = Some true ∧
    (∀ i, i < i0 → IsAbsent Sample.base4 !! i = Some false) ∧
    (∃ m, drop 1 [Sample.base4; Sample.peer4; Sample.peer5] !! j = Some m ∧
          length (Values m) ≠ length (Values Sample.base4)) ∧
    Forall (λ m, length (Values m) = length (Values Sample.base4))
           (take j (drop 1 [Sample.base4; Sample.peer4; Sample.peer5])) ∧
    merged = from_option (filled Sample.base4 i0) Sample.base4
               (last (present_at i0
                        (take j (drop 1 [Sample.base4; Sample.peer4; Sample.peer5])))) ∧
    sample merged i0 =
      match last (present_at i0
                    (take j (drop 1 [Sample.base4; Sample.peer4; Sample.peer5]))) with
      | Some v => (Some false, Some v)
      | None => sample Sample.base4 i0
      end ∧
    (∀ i, i ≠ i0 → sample merged i = sample Sample.base4 i) ∧
    mergeValues Sample.base4 [Sample.base4; Sample.peer4; Sample.peer5] Sample.s0 =
      (Some merged, with_metrics (RenderErrors_Add 1) Sample.s0).
Proof.
  apply (mergeValues_length_mismatch Sample.base4
           [Sample.base4; Sample.peer4; Sample.peer5] Sample.s0).
  - reflexivity.
  - repeat constructor.
  - apply (bool_decide_unpack _). reflexivity.
  - apply (bool_decide_unpack _). reflexivity.
Defined.

(** ** The scatter *)

Lemma singleGet_server uri srv x : server (singleGet uri srv x) = srv.
Proof.
  destruct x as [| |code [b|]]; cbn; try done; repeat case_decide; done.
Qed.

Lemma list_find_snoc {A} (P : A → Prop) `{!∀ x, Decision (P x)} (l : list A) (x : A) :
  list_find P (l ++ [x]) =
  match list_find P l with
  | Some r => Some r
  | None => if decide (P x) then Some (length l, x) else None
  end.
Proof.
  destruct (list_find P l) as [[i y]|] eqn:Hl.
  - by apply list_find_app_l.
  - rewrite list_find_app_r by done. cbn. by case_decide.
Qed.

Lemma gather_inv_init cfg servers ch t0 :
  gather_inv cfg servers ch t0
    (mkGather [] true (t0 + Duration_of_ms (TimeoutMs cfg)) 0 [] []).
Proof.
  unfold gather_inv. cbn. split_and!; try done; try lia; try apply NoDup_nil_2; try constructor.
Qed.

(** The loop keeps its invariant, leaves the cache and the goroutine log
    alone, and ends either after [len(servers)] reports, with the timeout
    counter untouched, or at an instant from which the timer is ready,
    with the timeout counter incremented. *)
Lemma GATHER_inv cfg servers ch t0 sched g s :
  gather_inv cfg servers ch t0 g → (t0 ≤ now s)%Z →
  ∃ g' s',
    GATHER cfg servers ch sched g s = (Some g', s') ∧
    gather_inv cfg servers ch t0 g' ∧
    metricPaths s' = metricPaths s ∧ spawned s' = spawned s ∧
    (now s ≤ now s')%Z ∧
    ((g_i g' = length servers ∧ metrics s' = metrics s) ∨
     (g_i g' < length servers ∧ (g_timeout g' ≤ now s')%Z ∧
      metrics s' = Timeouts_Add 1 (metrics s))).
Proof.
  revert g s.
  induction sched as [|e sched IH]; intros g s Hinv Ht0.
  - exists g. cbn [GATHER]. case_decide as Hi.
    + eexists. split; [reflexivity|]. cbn. split_and!; try done; [lia|].
      right. split_and!; [done | lia | done].
    + eexists. split; [reflexivity|]. split_and!; try done.
      left. split; [|done]. destruct Hinv as (_ & ? & _). lia.
  - cbn [GATHER]. case_decide as Hi.
    2:{ exists g, s. split_and!; try done.
        left. split; [|done]. destruct Hinv as (_ & ? & _). lia. }
    destruct e as [dt k | dt].
    + rewrite bind_run. cbn [sleep modify].
      set (s1 := with_now _ s).
      assert (now s ≤ now s1)%Z as Hnow by (cbn; lia).
      assert (∀ g1, gather_inv cfg servers ch t0 g1 →
                ∃ g' s', GATHER cfg servers ch sched g1 s1 = (Some g', s') ∧
                  gather_inv cfg servers ch t0 g' ∧
                  metricPaths s' = metricPaths s ∧ spawned s' = spawned s ∧
                  (now s ≤ now s')%Z ∧
                  ((g_i g' = length servers ∧ metrics s' = metrics s) ∨
                   (g_i g' < length servers ∧ (g_timeout g' ≤ now s')%Z ∧
                    metrics s' = Timeouts_Add 1 (metrics s)))) as IH'.
      { intros g1 Hg1.
        destruct (IH g1 s1 Hg1) as (g' & s' & ? & ? & ? & ? & ? & ?); [lia|].
        exists g', s'. split_and!; try done. lia. }
      destruct (ch !! k) as [r|] eqn:Hk; [|by apply IH'].
      case_decide as Hrep; [by apply IH'|].
      rewrite bind_run. cbn [gets].
      destruct Hinv as (Hlen & Hle & Hnd & Hfrom & Hresp & Hafter & Htimer).
      destruct (response r) as [b|] eqn:Hr.
      * rewrite bind_run.
        assert (∀ t', (if g_isFirstResponse g
                       then time_After (Duration_of_ms (TimeoutMsAfterFirstSeen cfg))
                       else mret (g_timeout g)) s1 = (Some t', s1) →
                gather_inv cfg servers ch t0
                  (mkGather (g_response g ++ [r]) false t' (S (g_i g))
                            (g_reported g ++ [k]) (g_received g ++ [(now s1, r)])))
          as Hstep.
        { intros t' Ht'. unfold gather_inv. cbn.
          rewrite length_app, fmap_app, filter_app, list_find_snoc. cbn.
          split_and!; try done; try lia.
          - apply NoDup_app. split_and!; [done| |apply NoDup_singleton].
            intros x Hx ->%list_elem_of_singleton. done.
          - apply Forall2_app; [done|]. by repeat constructor.
          - rewrite Hresp. f_equal. rewrite decide_True; [done|].
            unfold present. by rewrite Hr.
          - apply Forall_app. split; [done|]. repeat constructor. cbn. lia.
          - destruct (list_find _ (g_received g)) as [[n [t1 r1]]|].
            + destruct Htimer as [Hf Ht]. rewrite Hf in Ht'.
              injection Ht' as <-. done.
            + destruct Htimer as [Hf Ht]. rewrite Hf in Ht'.
              rewrite decide_True by (unfold present; by rewrite Hr).
              injection Ht' as <-. done. }
        destruct (g_isFirstResponse g); cbn [time_After gets]; rewrite ?ret_run;
          apply IH'; by apply Hstep.
      * apply IH'. unfold gather_inv. cbn.
        rewrite length_app, fmap_app, filter_app, list_find_snoc. cbn.
        split_and!; try done; try lia.
        -- apply NoDup_app. split_and!; [done| |apply NoDup_singleton].
           intros x Hx ->%list_elem_of_singleton. done.
        -- apply Forall2_app; [done|]. by repeat constructor.
        -- rewrite Hresp, decide_False, app_nil_r; [done|].
           unfold present. rewrite Hr. by intros [? ?].
        -- apply Forall_app. split; [done|]. repeat constructor. cbn. lia.
        -- destruct (list_find _ (g_received g)) as [[n [t1 r1]]|]; [done|].
           rewrite decide_False; [done|]. unfold present. rewrite Hr. by intros [? ?].
    + rewrite bind_run. cbn [sleep modify].
      set (s1 := with_now _ s).
      assert (now s ≤ now s1)%Z as Hnow by (cbn; lia).
      rewrite bind_run. cbn [gets]. case_decide as Hfire.
      * rewrite bind_run. cbn [modify]. rewrite ret_run.
        eexists _, _. split; [reflexivity|]. split_and!; try done.
        right. split_and!; done.
      * destruct (IH g s1 Hinv) as (g' & s' & ? & ? & ? & ? & ? & ?); [lia|].
        exists g', s'. split_and!; try done. lia.
Qed.

Lemma multiGet_gather_inv cfg servers uri world sched s :
  ∃ g s',
    multiGet_gather cfg servers uri world sched s = (Some g, s') ∧
    gather_inv cfg servers (imap (λ k srv, singleGet uri srv (world k)) servers)
               (now s) g ∧
    metricPaths s' = metricPaths s ∧
    spawned s' = spawned s ++ ((λ srv, (srv, uri)) <$> servers) ∧
    ((g_i g = length servers ∧ metrics s' = metrics s) ∨
     (g_i g < length servers ∧ (g_timeout g ≤ now s')%Z ∧
      metrics s' = Timeouts_Add 1 (metrics s))).
Proof.
  unfold multiGet_gather. rewrite bind_run. cbn [modify].
  rewrite bind_run. cbn [time_After gets].
  set (s1 := with_spawned _ s).
  destruct (GATHER_inv cfg servers (imap (λ k srv, singleGet uri srv (world k)) servers)
              (now s1) sched _ s1 (gather_inv_init _ _ _ _))
    as (g & s' & Hrun & Hinv & ? & ? & ? & ?); [done|].
  exists g, s'. by split_and!.
Qed.

Lemma multiGet_run cfg servers uri world sched s g s' :
  multiGet_gather cfg servers uri world sched s = (Some g, s') →
  multiGet cfg servers uri world sched s = (Some (g_response g), s').
Proof. intros H. unfold multiGet. by rewrite bind_run, H. Qed.

(** Reports of distinct workers carry distinct tags when the backend list
    names no backend twice. *)
Lemma distinct_workers_distinct_tags (servers : list string) (reported : list nat)
    (received : list (Z * serverResponse)) :
  NoDup servers → NoDup reported →
  Forall2 (λ k tr, servers !! k = Some (server tr.2)) reported received →
  NoDup (server <$> received.*2).
Proof.
  intros Hservers Hnd Hfrom.
  induction Hfrom as [|k tr reported received Hk Hfrom IH]; [constructor|].
  apply NoDup_cons in Hnd as [Hfresh Hnd]. cbn.
  apply NoDup_cons. split; [|by apply IH].
  intros Hin. apply list_elem_of_fmap in Hin as (r & Heq & Hin).
  apply list_elem_of_fmap in Hin as (tr' & -> & Hin).
  apply list_elem_of_lookup in Hin as [n Hn].
  destruct (Forall2_lookup_r _ _ _ _ _ Hfrom Hn) as (k' & Hk' & Hsrv).
  rewrite <- Heq in Hsrv.
  assert (k = k') as -> by exact (NoDup_lookup _ _ _ _ Hservers Hk Hsrv).
  apply Hfresh. by eapply list_elem_of_lookup_2.
Qed.

(** *** The scatter on a schedule of deliveries *)

Lemma GATHER_done cfg servers ch sched g s :
  ¬ g_i g < length servers →
  GATHER cfg servers ch sched g s = (Some g, s).
Proof. intros Hi. destruct sched; cbn [GATHER]; by rewrite decide_False. Qed.

Lemma elapsed_nonneg (dks : list (N * nat)) : (0 ≤ elapsed dks)%Z.
Proof.
  induction dks as [|[dt k] dks IH]; [done|].
  unfold elapsed in *. cbn [foldr fst]. lia.
Qed.

(** The gather loop takes the reports of a schedule of deliveries, of
    workers not yet received and no more than iterations are left, one
    per iteration: every report counts, the reports with a body are
    appended, and the first of them, if the loop saw none before, re-arms
    the timer at its receipt. *)
Lemma GATHER_deliveries cfg servers uri world (dks : list (N * nat)) rest g s :
  let ch := imap (λ k srv, singleGet uri srv (world k)) servers in
  NoDup dks.*2 →
  (∀ k, k ∈ dks.*2 → k < length servers ∧ k ∉ g_reported g) →
  g_i g + length dks ≤ length servers →
  ∃ g' s1,
    GATHER cfg servers ch (deliveries dks ++ rest) g s =
      GATHER cfg servers ch rest g' s1 ∧
    now s1 = (now s + elapsed dks)%Z ∧ metrics s1 = metrics s ∧
    g_i g' = g_i g + length dks ∧
    g_response g' =
      g_response g ++ filter present (receipts servers uri world (now s) dks).*2 ∧
    g_timeout g' =
      (if g_isFirstResponse g
       then match list_find (λ tr, present tr.2)
                            (receipts servers uri world (now s) dks) with
            | None => g_timeout g
            | Some (_, (t, _)) =>
              (t + Duration_of_ms (TimeoutMsAfterFirstSeen cfg))%Z
            end
       else g_timeout g).
Proof.
  intros ch. revert g s.
  induction dks as [|[dt k] dks IH]; intros g s Hnd Hks Hleft.
  - exists g, s. cbn. rewrite app_nil_r, Z.add_0_r, Nat.add_0_r.
    split_and!; try done. by destruct (g_isFirstResponse g).
  - cbn in Hnd. apply NoDup_cons in Hnd as [Hfresh Hnd].
    destruct (Hks k) as [Hk Hnew]; [left|].
    destruct (lookup_lt_is_Some_2 servers k Hk) as [srv Hsrv].
    assert (ch !! k = Some (singleGet uri srv (world k))) as Hr.
    { unfold ch. by rewrite list_lookup_imap, Hsrv. }
    cbn [deliveries fmap list_fmap app GATHER fst snd].
    fold (deliveries dks).
    rewrite decide_True by (cbn in Hleft; lia).
    rewrite bind_run. cbn [sleep modify]. set (s1 := with_now _ s).
    rewrite Hr, decide_False by done. rewrite bind_run. cbn [gets].
    cbn [receipts fst snd]. unfold report at 1 2. rewrite Hsrv. cbn [fmap option_fmap option_map].
    change (now s + Z.of_N dt)%Z with (now s1).
    set (r := singleGet uri srv (world k)) in *.
    assert (∀ g1, g_reported g1 = g_reported g ++ [k] → g_i g1 = S (g_i g) →
              ∃ g' s2,
                GATHER cfg servers ch (deliveries dks ++ rest) g1 s1 =
                  GATHER cfg servers ch rest g' s2 ∧
                now s2 = (now s + elapsed ((dt, k) :: dks))%Z ∧
                metrics s2 = metrics s ∧
                g_i g' = g_i g + length ((dt, k) :: dks) ∧
                g_response g' =
                  g_response g1 ++
                  filter present (receipts servers uri world (now s1) dks).*2 ∧
                g_timeout g' =
                  (if g_isFirstResponse g1
                   then match list_find (λ tr, present tr.2)
                                        (receipts servers uri world (now s1) dks) with
                        | None => g_timeout g1
                        | Some (_, (t, _)) =>
                          (t + Duration_of_ms (TimeoutMsAfterFirstSeen cfg))%Z
                        end
                   else g_timeout g1)) as IH'.
    { intros g1 Hrep Hi.
      destruct (IH g1 s1) as (g' & s2 & Hrun & Hnow & Hmet & Hcount & Hresp & Htimer);
        [done| |cbn in Hleft; lia|].
      { intros k' Hk'. destruct (Hks k') as [? ?]; [by right|]. split; [done|].
        rewrite Hrep, elem_of_app, list_elem_of_singleton.
        intros [?| ->]; done. }
      exists g', s2. split_and!; try done.
      - rewrite Hnow. unfold elapsed. cbn [foldr fst]. subst s1. cbn. lia.
      - rewrite Hcount, Hi. cbn. lia. }
    destruct (response r) as [b|] eqn:Hb.
    + assert (present r) as Hp by (unfold present; by rewrite Hb).
      rewrite bind_run. cbn [fmap list_fmap snd].
      rewrite filter_cons_True by done.
      cbn [list_find snd]. rewrite decide_True by done.
      destruct (g_isFirstResponse g) eqn:Hfirst; cbn [time_After gets]; rewrite ?ret_run;
        (edestruct IH' as (g' & s2 & Hrun & Hnow & Hmet & Hcount & Hresp & Htimer);
         [ | | rewrite Hrun]; [done|done|]);
        exists g', s2; cbn in Hresp, Htimer; rewrite Hresp, Htimer;
        split_and!; try done; by rewrite <- app_assoc.
    + assert (¬ present r) as Hp by (unfold present; rewrite Hb; by intros [? ?]).
      cbn [fmap list_fmap snd].
      rewrite filter_cons_False by done.
      cbn [list_find snd]. rewrite decide_False by done.
      edestruct IH' as (g' & s2 & Hrun & Hnow & Hmet & Hcount & Hresp & Htimer);
        [| |rewrite Hrun]; [done|done|].
      exists g', s2. cbn in Hresp, Htimer. rewrite Hresp, Htimer.
      split_and!; try done.
      destruct (g_isFirstResponse g); [|done].
      change (now s1) with (now s + Z.of_N dt)%Z.
      by destruct (list_find _ (receipts servers uri world (now s + Z.of_N dt) dks))
        as [[n [t r']]|].
Qed.

(** [multiGet] on a schedule that starts with deliveries of distinct
    workers, no more than there are workers. *)
Lemma multiGet_deliveries cfg servers uri world (dks : list (N * nat)) rest s :
  NoDup dks.*2 → (∀ k, k ∈ dks.*2 → k < length servers) →
  length dks ≤ length servers →
  ∃ g s0 s1,
    multiGet cfg servers uri world (deliveries dks ++ rest) s =
      (g0 ← GATHER cfg servers (imap (λ k srv, singleGet uri srv (world k)) servers)
                   rest g; mret (g_response g0)) s1 ∧
    now s0 = now s ∧ metrics s0 = metrics s ∧
    now s1 = (now s + elapsed dks)%Z ∧ metrics s1 = metrics s ∧
    g_i g = length dks ∧
    g_response g = filter present (receipts servers uri world (now s) dks).*2 ∧
    g_timeout g = deadline cfg (now s) (receipts servers uri world (now s) dks).
Proof.
  intros Hnd Hks Hlen. unfold multiGet, multiGet_gather.
  rewrite bind_run, bind_run. cbn [modify]. rewrite bind_run. cbn [time_After gets].
  set (s0 := with_spawned _ s).
  destruct (GATHER_deliveries cfg servers uri world dks rest
              (mkGather [] true (now s0 + Duration_of_ms (TimeoutMs cfg)) 0 [] []) s0)
    as (g & s1 & Hrun & Hnow & Hmet & Hcount & Hresp & Htimer); [done| |done|].
  { intros k Hk. split; [by apply Hks|]. cbn. apply not_elem_of_nil. }
  exists g, s0, s1. rewrite Hrun, bind_run. split_and!; try done.
Qed.

(** C5 (as amended).  For every backend list and URI, whatever the
    schedule, [multiGet] returns the reports that carry a body, in order
    of receipt, out of at most [len(servers)] reports received; every
    report received is the report of a worker of its own, tagged with that
    worker's entry of [servers]; so every tag is a backend of [servers],
    and the tags are pairwise distinct when [servers] names no backend
    twice.

    A report without a body is one iteration of the loop and is not in
    the list.  On the schedule itself: once the coordinator has taken the
    report of every worker, with or without a body, each once and in any
    order, the loop is over at the instant of the last receipt, whatever
    the schedule offers afterwards; no timeout is counted and the result
    is the reports with a body.  After the reports of fewer workers than
    there are, and nothing more, the loop is not over: it ends on the
    timer, with a timeout counted. *)
Theorem multiGet_reports_of_distinct_workers
    (cfg : Config) (servers : list string) (uri : string)
    (world : nat → exchange) (s : State) :
  (∀ sched : list event, ∃ g s',
    multiGet_gather cfg servers uri world sched s = (Some g, s') ∧
    multiGet cfg servers uri world sched s = (Some (g_response g), s') ∧
    g_i g = length (g_received g) ∧
    g_i g ≤ length servers ∧
    g_response g = filter present (g_received g).*2 ∧
    length (g_response g) ≤ length servers ∧
    NoDup (g_reported g) ∧
    Forall2 (λ k tr, servers !! k = Some (server tr.2))
            (g_reported g) (g_received g) ∧
    Forall (λ r, server r ∈ servers) (g_response g) ∧
    (NoDup servers → NoDup (server <$> g_response g)) ∧
    ((g_i g = length servers ∧ metrics s' = metrics s) ∨
     (g_i g < length servers ∧ metrics s' = Timeouts_Add 1 (metrics s)))) ∧
  (∀ (dks : list (N * nat)) (rest : list event),
    dks.*2 ≡ₚ seq 0 (length servers) →
    ∃ s',
      multiGet cfg servers uri world (deliveries dks ++ rest) s =
        (Some (filter present (receipts servers uri world (now s) dks).*2), s') ∧
      length (receipts servers uri world (now s) dks) = length servers ∧
      metrics s' = metrics s ∧
      now s' = (now s + elapsed dks)%Z) ∧
  (∀ dks : list (N * nat),
    NoDup dks.*2 → (∀ k, k ∈ dks.*2 → k < length servers) →
    length dks < length servers →
    ∃ s',
      multiGet cfg servers uri world (deliveries dks) s =
        (Some (filter present (receipts servers uri world (now s) dks).*2), s') ∧
      length (receipts servers uri world (now s) dks) = length dks ∧
      metrics s' = Timeouts_Add 1 (metrics s)).
Proof.
  assert (Hcount : ∀ (dks : list (N * nat)) t,
            (∀ k, k ∈ dks.*2 → k < length servers) →
            length (receipts servers uri world t dks) = length dks).
  { induction dks as [|[dt k] dks IH]; intros t Hks; [done|].
    cbn [receipts fst snd]. unfold report.
    destruct (lookup_lt_is_Some_2 servers k) as [srv ->]; [apply Hks; left|].
    cbn. f_equal. apply IH. intros k' Hk'. apply Hks. by right. }
  split_and!.
  - intros sched.
    destruct (multiGet_gather_inv cfg servers uri world sched s)
      as (g & s' & Hrun & Hinv & _ & _ & Hend).
    destruct Hinv as (Hlen & Hle & Hnd & Hfrom & Hresp & _).
    assert (Forall2 (λ k tr, servers !! k = Some (server tr.2))
                    (g_reported g) (g_received g)) as Hfrom'.
    { eapply Forall2_impl; [exact Hfrom|]. intros k [t r] Hk. cbn in *.
      rewrite list_lookup_imap in Hk.
      destruct (servers !! k) as [srv|]; [|done].
      injection Hk as <-. by rewrite singleGet_server. }
    exists g, s'. split_and!; try done.
    + by apply multiGet_run.
    + rewrite Hresp. etrans; [apply length_filter|].
      rewrite length_fmap. lia.
    + rewrite Hresp. apply Forall_forall. intros r Hr.
      apply list_elem_of_filter in Hr as [_ Hr].
      apply list_elem_of_fmap in Hr as ([t r'] & -> & Hr).
      apply list_elem_of_lookup in Hr as [n Hn].
      destruct (Forall2_lookup_r _ _ _ _ _ Hfrom' Hn) as (k & _ & Hk).
      by eapply list_elem_of_lookup_2.
    + intros Hservers. rewrite Hresp.
      eapply sublist_NoDup;
        [exact (distinct_workers_distinct_tags _ _ _ Hservers Hnd Hfrom')|].
      apply fmap_sublist, sublist_filter.
    + destruct Hend as [?|(? & _ & ?)]; [by left|by right].
  - intros dks rest Hperm.
    assert (length dks = length servers) as Hlen.
    { apply Permutation_length in Hperm.
      by rewrite length_fmap, length_seq in Hperm. }
    assert (∀ k, k ∈ dks.*2 → k < length servers) as Hks.
    { intros k Hk. rewrite Hperm in Hk. apply elem_of_seq in Hk. lia. }
    destruct (multiGet_deliveries cfg servers uri world dks rest s)
      as (g & s0 & s1 & Hrun & _ & _ & Hnow & Hmet & Hi & Hresp & _);
      [rewrite Hperm; apply NoDup_seq|done|lia|].
    exists s1. rewrite Hrun, bind_run, GATHER_done by lia.
    rewrite ret_run, Hresp, Hcount by done. done.
  - intros dks Hnd Hks Hlen.
    destruct (multiGet_deliveries cfg servers uri world dks [] s)
      as (g & s0 & s1 & Hrun & _ & _ & Hnow & Hmet & Hi & Hresp & _);
      [done|done|lia|].
    rewrite app_nil_r in Hrun. rewrite Hrun, bind_run. cbn [GATHER].
    rewrite decide_True by lia. eexists.
    split_and!; [rewrite <- Hresp; reflexivity | by apply Hcount |].
    cbn. by rewrite Hmet.
Qed.

Lemma multiGet_reports_of_distinct_workers_witness :
  (∃ g s',
    multiGet Sample.cfg ["A"; "B"] "/render/?target=x.y" Sample.world12 Sample.both
             Sample.s0 = (Some (g_response g), s') ∧
    length (g_response g) ≤ 2 ∧
    NoDup (server <$> g_response g)) ∧
  (∃ s',
    multiGet Sample.cfg ["A"; "B"] "/render/?target=x.y" Sample.world404
             (deliveries [(10%N, 1); (10%N, 0)] ++ [Expire 5; Deliver 1 0]) Sample.s0 =
      (Some [mkServerResponse "B" (Some [x02])], s') ∧
    metrics s' = metrics Sample.s0 ∧ now s' = 20%Z) ∧
  (∃ s',
    multiGet Sample.cfg ["A"; "B"] "/render/?target=x.y" Sample.world404
             (deliveries [(10%N, 0)]) Sample.s0 = (Some [], s') ∧
    metrics s' = Timeouts_Add 1 (metrics Sample.s0)).
Proof.
  destruct (multiGet_reports_of_distinct_workers Sample.cfg ["A"; "B"]
              "/render/?target=x.y" Sample.world12 Sample.s0)
    as (Hany & _ & _).
  destruct (multiGet_reports_of_distinct_workers Sample.cfg ["A"; "B"]
              "/render/?target=x.y" Sample.world404 Sample.s0)
    as (_ & Hall & Hfew).
  split_and!.
  - destruct (Hany Sample.both)
      as (g & s' & _ & Hrun & _ & _ & _ & Hlen & _ & _ & _ & Hnd & _).
    exists g, s'. split_and!; [exact Hrun | exact Hlen |].
    apply Hnd. apply (bool_decide_unpack _). reflexivity.
  - destruct (Hall [(10%N, 1); (10%N, 0)] [Expire 5; Deliver 1 0])
      as (s' & Hrun & _ & Hmet & Hnow); [apply perm_swap|].
    exists s'. split_and!; [exact Hrun | exact Hmet | exact Hnow].
  - destruct (Hfew [(10%N, 0)]) as (s' & Hrun & _ & Hmet).
    + apply (bool_decide_unpack _). reflexivity.
    + intros k Hk. apply list_elem_of_singleton in Hk as ->. cbn. lia.
    + cbn. lia.
    + exists s'. split; [exact Hrun | exact Hmet].
Defined.

(** C6.  The deadline of the gather loop.  Whatever the schedule, at the
    end of the loop the timer is the one armed at dispatch for
    [TimeoutMs] as long as no report with a body has been received
    (whatever reports without a body were received), and from then on the
    one armed at the receipt of the first report with a body, for
    [TimeoutMsAfterFirstSeen] from that instant; later reports do not
    re-arm it.

    On the schedule itself: when the coordinator has taken the reports of
    some of the workers, and is then offered the timer [dt] later and
    nothing else, it returns the reports with a body, counts one timeout,
    and returns at the later of that instant and the deadline, where the
    deadline is [TimeoutMs] after the dispatch if none of the reports
    taken carries a body, and [TimeoutMsAfterFirstSeen] after the receipt
    of the first report that carries one otherwise: the timer cannot be
    taken before the deadline, and is not waited for beyond it. *)
Theorem multiGet_deadline
    (cfg : Config) (servers : list string) (uri : string)
    (world : nat → exchange) (s : State) :
  (∀ sched : list event, ∃ g s',
    multiGet_gather cfg servers uri world sched s = (Some g, s') ∧
    match list_find (λ tr, present tr.2) (g_received g) with
    | None =>
      g_isFirstResponse g = true ∧
      g_timeout g = (now s + Duration_of_ms (TimeoutMs cfg))%Z
    | Some (_, (t, _)) =>
      g_isFirstResponse g = false ∧
      g_timeout g = (t + Duration_of_ms (TimeoutMsAfterFirstSeen cfg))%Z
    end ∧
    Forall (λ tr, (now s ≤ tr.1)%Z) (g_received g) ∧
    (g_i g = length servers ∨ (g_timeout g ≤ now s')%Z)) ∧
  (∀ (dks : list (N * nat)) (dt : N),
    NoDup dks.*2 → (∀ k, k ∈ dks.*2 → k < length servers) →
    length dks < length servers →
    ∃ s',
      multiGet cfg servers uri world (deliveries dks ++ [Expire dt]) s =
        (Some (filter present (receipts servers uri world (now s) dks).*2), s') ∧
      now s' = Z.max (now s + elapsed dks + Z.of_N dt)
                     (deadline cfg (now s) (receipts servers uri world (now s) dks)) ∧
      metrics s' = Timeouts_Add 1 (metrics s)).
Proof.
  split.
  - intros sched.
    destruct (multiGet_gather_inv cfg servers uri world sched s)
      as (g & s' & Hrun & Hinv & _ & _ & Hend).
    destruct Hinv as (_ & _ & _ & _ & _ & Hafter & Htimer).
    exists g, s'. split_and!; try done.
    destruct Hend as [[? _]|(_ & ? & _)]; [by left|by right].
  - intros dks dt Hnd Hks Hlen.
    destruct (multiGet_deliveries cfg servers uri world dks [Expire dt] s)
      as (g & s0 & s1 & Hrun & _ & _ & Hnow & Hmet & Hi & Hresp & Htimer);
      [done|done|lia|].
    rewrite Hrun, bind_run. cbn [GATHER].
    rewrite decide_True by lia. rewrite bind_run. cbn [sleep modify].
    rewrite bind_run. cbn [gets].
    case_decide as Hready.
    + eexists. split_and!; [rewrite <- Hresp; reflexivity | |].
      * cbn. rewrite <- Htimer, Hnow in *. cbn in Hready. lia.
      * cbn. by rewrite Hmet.
    + cbn [GATHER]. rewrite decide_True by lia. eexists.
      split_and!; [rewrite <- Hresp; reflexivity | |].
      * cbn. rewrite <- Htimer, Hnow in *. cbn in Hready. lia.
      * cbn. by rewrite Hmet.
Qed.

Lemma multiGet_deadline_witness :
  ∃ s',
    multiGet Sample.cfg ["A"; "B"; "C"] "/render/?target=x.y" Sample.world404
             (deliveries [(50000000%N, 0); (50000000%N, 1)] ++ [Expire 100000000]) Sample.s0 =
      (Some [mkServerResponse "B" (Some [x02])], s') ∧
    now s' = 600000000%Z ∧
    metrics s' = Timeouts_Add 1 (metrics Sample.s0).
Proof.
  destruct (multiGet_deadline Sample.cfg ["A"; "B"; "C"] "/render/?target=x.y"
              Sample.world404 Sample.s0) as [_ Hdeadline].
  destruct (Hdeadline [(50000000%N, 0); (50000000%N, 1)] 100000000%N)
    as (s' & Hrun & Hnow & Hmet).
  - apply (bool_decide_unpack _). reflexivity.
  - intros k Hk. apply elem_of_cons in Hk as [->|Hk]; [cbn; lia|].
    apply list_elem_of_singleton in Hk as ->. cbn. lia.
  - cbn. lia.
  - exists s'. split_and!; [exact Hrun | exact Hnow | exact Hmet].
Defined.

(** The durations are the configured milliseconds as long as they fit an
    int64 count of nanoseconds. *)
Lemma Duration_of_ms_exact (ms : Z) :
  (- 9223372036854 ≤ ms ≤ 9223372036854)%Z →
  Duration_of_ms ms = (ms * 1000000)%Z.
Proof.
  intros Hms. unfold Duration_of_ms, wrap64, Millisecond.
  rewrite Z.mod_small; lia.
Qed.

(** Three backends, 2000 ms overall and 500 ms after the first answer: one
    answers after 100 ms and the others never do.  The coordinator
    returns at 600 ms with the one response and counts one timeout. *)
Example multiGet_slow_majority :
  ∃ g s',
    multiGet_gather Sample.cfg ["A"; "B"; "C"] "/render/?target=x.y" Sample.world12
                    [Deliver 100000000 0] Sample.s0 = (Some g, s') ∧
    server <$> g_response g = ["A"] ∧
    g_timeout g = 600000000%Z ∧ now s' = 600000000%Z ∧
    Timeouts (metrics s') = 1%Z.
Proof. eexists _, _. split; [vm_compute; reflexivity|]. by split_and!. Qed.

(** A 404 and a 200: both reports end an iteration, so the loop is over
    after two reports without any timeout, and only the 200 is returned. *)
Example multiGet_absent_report_counts :
  ∃ g s',
    multiGet_gather Sample.cfg ["A"; "B"] "/render/?target=x.y" Sample.world404
                    Sample.both Sample.s0 = (Some g, s') ∧
    g_i g = 2 ∧ server <$> g_response g = ["B"] ∧
    Timeouts (metrics s') = 0%Z.
Proof. eexists _, _. split; [vm_compute; reflexivity|]. by split_and!. Qed.

(** No backend answers: the find is a 500 after the overall deadline. *)
Example findHandler_dark_cluster :
  ∃ resp s',
    findHandler Sample.cfg Sample.Unmarshal_Glob Sample.rewrite generated_tags
                Sample.find_json Sample.world12 [] Sample.s0 = (Some resp, s') ∧
    Status resp = StatusInternalServerError ∧
    now s' = 2000000000%Z ∧ Timeouts (metrics s') = 1%Z.
Proof. eexists _, _. split; [vm_compute; reflexivity|]. by split_and!. Qed.

(** ** Computations that touch the counters only *)

Lemma only_metrics_ret {A} (a : A) : only_metrics (mret a).
Proof. by intros s. Qed.

Lemma only_metrics_panic {A} : only_metrics (@panic A).
Proof. by intros s. Qed.

Lemma only_metrics_bind {A B} (m : go A) (k : A → go B) :
  only_metrics m → (∀ a, only_metrics (k a)) → only_metrics (m ≫= k).
Proof.
  intros Hm Hk s. rewrite bind_run. specialize (Hm s).
  destruct (m s) as [[a|] s1]; cbn in *; [|done].
  destruct (Hk a s1) as (-> & -> & ->). done.
Qed.

Lemma only_metrics_modify (f : Metrics → Metrics) :
  only_metrics (modify (with_metrics f)).
Proof. by intros s. Qed.

Lemma only_metrics_index {A} (l : list A) (i : nat) : only_metrics (index l i).
Proof. intros s. unfold index. by destruct (l !! i). Qed.

Lemma only_metrics_assign {A} (l : list A) (i : nat) (x : A) :
  only_metrics (assign l i x).
Proof. intros s. unfold assign. by case_decide. Qed.

Create HintDb frame discriminated.
#[local] Hint Resolve only_metrics_ret only_metrics_panic only_metrics_modify
  only_metrics_index only_metrics_assign : frame.

Ltac frame :=
  repeat first
    [ progress intros
    | apply only_metrics_bind
    | case_decide
    | case_match
    | solve [eauto with frame] ].

Lemma only_metrics_scanPeers i peers metric : only_metrics (scanPeers i peers metric).
Proof.
  revert metric. induction peers as [|m rest IH]; intros metric; cbn [scanPeers]; frame.
Qed.

Lemma only_metrics_mergeLoop idx peers metric b :
  only_metrics (mergeLoop idx peers metric b).
Proof.
  revert metric b.
  induction idx as [|i idx IH]; intros metric b; cbn [mergeLoop]; frame.
  apply only_metrics_scanPeers.
Qed.

Lemma only_metrics_mergeValues metric decoded : only_metrics (mergeValues metric decoded).
Proof. unfold mergeValues. frame. apply only_metrics_mergeLoop. Qed.

Lemma only_metrics_pvaluesLoop i vs metric missing pvalues :
  only_metrics (pvaluesLoop i vs metric missing pvalues).
Proof.
  revert i pvalues.
  induction vs as [|v vs IH]; intros i pvalues; cbn [pvaluesLoop]; frame.
Qed.

Lemma only_metrics_returnRender tags format metric :
  only_metrics (returnRender tags format metric).
Proof.
  unfold returnRender, createRenderResponse. frame;
    apply only_metrics_pvaluesLoop.
Qed.

Lemma only_metrics_decodeLoop U responses decoded :
  only_metrics (decodeLoop U responses decoded).
Proof.
  revert decoded.
  induction responses as [|r rest IH]; intros decoded; cbn [decodeLoop]; frame.
Qed.

Lemma only_metrics_highestLoop ids decoded highest :
  only_metrics (highestLoop ids decoded highest).
Proof.
  revert highest.
  induction ids as [|[i d] ids IH]; intros highest; cbn [highestLoop]; frame.
Qed.

Lemma only_metrics_renderDecoded tags req format decoded :
  only_metrics (renderDecoded tags req format decoded).
Proof.
  unfold renderDecoded, swapBase.
  frame; first [ apply only_metrics_returnRender
               | apply only_metrics_highestLoop
               | apply only_metrics_mergeLoop ].
Qed.

Lemma only_metrics_handleRenderPB U tags req format responses :
  only_metrics (handleRenderPB U tags req format responses).
Proof.
  unfold handleRenderPB. frame;
    [apply only_metrics_decodeLoop | apply only_metrics_renderDecoded].
Qed.

Lemma only_metrics_findLoop U responses acc : only_metrics (findLoop U responses acc).
Proof.
  revert acc.
  induction responses as [|r rest IH]; intros acc; cbn [findLoop]; frame.
Qed.

(** C8.  A render request with a target reads the routing cache once and
    starts one worker per backend of the list it chose, and no other
    worker: the configured backends when the cache has no entry for the
    target or an entry without a backend (nil or empty), and exactly the
    backends of the entry, in its order, when the entry names some. *)
Theorem renderHandler_fan_out
    (cfg : Config) (Unmarshal_Fetch : list byte → option FetchResponse)
    (rewrite : string → string) (tags : GlobMatchTags)
    (req : Request) (world : nat → exchange) (sched : list event) (s : State) :
  FormValue req "target" ≠ "" →
  ((metricPaths s !! FormValue req "target" = None ∨
    metricPaths s !! FormValue req "target" = Some []) →
   spawned (renderHandler cfg Unmarshal_Fetch rewrite tags req world sched s).2 =
     spawned s ++ ((λ srv, (srv, rewrite (RequestURI req))) <$> Backends cfg)) ∧
  (∀ serverList,
     metricPaths s !! FormValue req "target" = Some serverList →
     serverList ≠ [] →
     spawned (renderHandler cfg Unmarshal_Fetch rewrite tags req world sched s).2 =
       spawned s ++ ((λ srv, (srv, rewrite (RequestURI req))) <$> serverList)).
Proof.
  intros Htarget.
  assert (∀ l,
    lookupServers cfg (FormValue req "target") (with_metrics (RenderRequests_Add 1) s)
      = (Some l, with_metrics (RenderRequests_Add 1) s) →
    spawned (renderHandler cfg Unmarshal_Fetch rewrite tags req world sched s).2 =
      spawned s ++ ((λ srv, (srv, rewrite (RequestURI req))) <$> l)) as Hrun.
  { intros l Hl. unfold renderHandler. rewrite bind_run. cbn [modify].
    rewrite decide_False by done. rewrite bind_run, Hl, bind_run.
    destruct (multiGet_gather_inv cfg l (rewrite (RequestURI req)) world sched
                (with_metrics (RenderRequests_Add 1) s))
      as (g & s1 & Hg & _ & _ & Hspawned & _).
    rewrite (multiGet_run _ _ _ _ _ _ _ _ Hg).
    case_decide.
    - rewrite bind_run. cbn. done.
    - destruct (only_metrics_handleRenderPB Unmarshal_Fetch tags req
                  (FormValue req "format") (g_response g) s1) as (_ & -> & _).
      done. }
  split.
  - intros Hmiss. apply Hrun. unfold lookupServers. rewrite bind_run. cbn [gets].
    cbn [with_metrics metricPaths].
    destruct Hmiss as [-> | ->]; [done|]. by rewrite decide_True.
  - intros serverList Hhit Hne. apply Hrun. unfold lookupServers.
    rewrite bind_run. cbn [gets]. cbn [with_metrics metricPaths].
    rewrite Hhit. by rewrite decide_False.
Qed.

(** ** The find aggregator *)

Section Find.
Variable Unmarshal_Glob : list byte → option GlobResponse.

Lemma foldl_addMatch srv acc ms :
  foldl (addMatch srv) acc ms = foldl addOccurrence acc (pair srv <$> ms).
Proof. revert acc. induction ms as [|m ms IH]; intros acc; [done|]. apply IH. Qed.

(** The two loops of [findHandlerPB] are one pass over the occurrences;
    a response that does not decode costs one find-error. *)
Lemma findLoop_run responses acc s :
  ∃ s',
    findLoop Unmarshal_Glob responses acc s =
      (Some (foldl addOccurrence acc (occurrences Unmarshal_Glob responses)), s') ∧
    metricPaths s' = metricPaths s ∧ spawned s' = spawned s ∧ now s' = now s.
Proof.
  revert acc s.
  induction responses as [|r rest IH]; intros acc s.
  - by exists s.
  - cbn [findLoop]. unfold occurrences. cbn [mbind list_bind].
    fold (occurrences Unmarshal_Glob rest).
    destruct (Unmarshal_Glob (default [] (response r))) as [metric|].
    + rewrite foldl_app, <- foldl_addMatch. apply IH.
    + rewrite bind_run. cbn [modify app].
      destruct (IH acc (with_metrics (FindErrors_Add 1) s))
        as (s' & -> & ? & ? & ?).
      by exists s'.
Qed.

(** The returned list: the first record of each path. *)
Lemma foldl_addMatch_metrics occ acc seen :
  (∀ p, p ∈ seen ↔ is_Some (acc.2 !! p)) →
  (foldl addOccurrence acc occ).1 = acc.1 ++ firstByPath seen occ.*2.
Proof.
  revert acc seen.
  induction occ as [|[srv m] occ IH]; intros acc seen Hseen.
  - cbn. by rewrite app_nil_r.
  - cbn [foldl fmap list_fmap firstByPath fst snd].
    change (addOccurrence acc (srv, m)) with (addMatch srv acc m).
    destruct (acc.2 !! Path m) as [p|] eqn:Hp.
    + rewrite decide_True by (apply Hseen; by rewrite Hp).
      rewrite (IH _ seen).
      * unfold addMatch. by rewrite Hp.
      * intros q. unfold addMatch. cbn [snd]. rewrite Hseen.
        destruct (decide (q = Path m)) as [->|Hne].
        -- rewrite lookup_insert_eq, Hp. split; eauto.
        -- by rewrite lookup_insert_ne.
    + rewrite decide_False.
      2:{ rewrite Hseen, Hp. by intros [? ?]. }
      rewrite (IH _ (Path m :: seen)).
      * unfold addMatch. rewrite Hp. cbn [fst]. by rewrite <- app_assoc.
      * intros q. unfold addMatch. cbn [snd]. rewrite elem_of_cons, Hseen.
        destruct (decide (q = Path m)) as [->|Hne].
        -- rewrite lookup_insert_eq. split; eauto.
        -- rewrite lookup_insert_ne by done. split; [|by right].
           by intros [?|?].
Qed.

(** The routing entries: every occurrence appends its backend. *)
Lemma foldl_addMatch_paths occ acc p :
  (foldl addOccurrence acc occ).2 !! p = extended (acc.2 !! p) (contributors p occ).
Proof.
  revert acc.
  induction occ as [|[srv m] occ IH]; intros acc; [done|].
  cbn [foldl]. rewrite IH. unfold addOccurrence, addMatch, contributors. cbn [fst snd].
  destruct (decide (Path m = p)) as [Heq|Hne].
  - subst p. rewrite lookup_insert_eq. rewrite filter_cons_True by done. cbn.
    destruct (filter _ occ).*1; cbn; by rewrite <- ?app_assoc.
  - rewrite lookup_insert_ne by done. by rewrite filter_cons_False.
Qed.

Lemma findHandlerPB_run responses s :
  ∃ paths s',
    findHandlerPB Unmarshal_Glob responses s =
      (Some (firstByPath [] (occurrences Unmarshal_Glob responses).*2, paths), s') ∧
    (∀ p, paths !! p =
          extended None (contributors p (occurrences Unmarshal_Glob responses))) ∧
    metricPaths s' = metricPaths s ∧ spawned s' = spawned s ∧ now s' = now s.
Proof.
  unfold findHandlerPB.
  destruct (findLoop_run responses ([], ∅) s) as (s' & Hrun & ? & ? & ?).
  exists (foldl addOccurrence ([], ∅) (occurrences Unmarshal_Glob responses)).2, s'.
  split_and!; try done.
  - rewrite Hrun. do 2 f_equal.
    rewrite (surjective_pairing (foldl _ _ _)) at 1. f_equal.
    rewrite (foldl_addMatch_metrics _ ([], ∅) []); [done|].
    intros p. cbn [snd]. rewrite lookup_empty.
    split; [by intros ?%elem_of_nil|by intros [? ?]].
  - intros p. rewrite foldl_addMatch_paths. cbn [snd]. by rewrite lookup_empty.
Qed.
End Find.

(** Writing every learned entry into the cache overwrites the entries of
    the learned paths and keeps the others. *)
Lemma updateCache_lookup (paths cache : gmap string (list string)) (p : string) :
  updateCache paths cache !! p =
  match paths !! p with
  | Some l => Some l
  | None => cache !! p
  end.
Proof.
  unfold updateCache.
  apply (map_fold_weak_ind (λ r m, r !! p = match m !! p with
                                           | Some l => Some l
                                           | None => cache !! p
                                           end)).
  - by rewrite lookup_empty.
  - intros k l m r Hk IH.
    destruct (decide (k = p)) as [->|Hne].
    + by rewrite !lookup_insert_eq.
    + by rewrite !lookup_insert_ne.
Qed.

Lemma findHandler_run cfg Unmarshal_Glob rewrite tags req world sched s responses s1 :
  multiGet cfg (Backends cfg) (rewrite (RequestURI req)) world sched
           (with_metrics (FindRequests_Add 1) s) = (Some responses, s1) →
  responses ≠ [] →
  ∃ paths s2,
    findHandlerPB Unmarshal_Glob responses s1 =
      (Some (firstByPath [] (occurrences Unmarshal_Glob responses).*2, paths), s2) ∧
    (∀ p, paths !! p =
          extended None (contributors p (occurrences Unmarshal_Glob responses))) ∧
    metricPaths s2 = metricPaths s ∧
    findHandler cfg Unmarshal_Glob rewrite tags req world sched s =
      (Some (findEncode tags req (FormValue req "format")
               (firstByPath [] (occurrences Unmarshal_Glob responses).*2)),
       with_metricPaths (updateCache paths) s2).
Proof.
  intros Hget Hne.
  destruct (findHandlerPB_run Unmarshal_Glob responses s1)
    as (paths & s2 & Hpb & Hpaths & Hcache & _).
  exists paths, s2. split_and!; try done.
  - rewrite Hcache.
    destruct (multiGet_gather_inv cfg (Backends cfg) (rewrite (RequestURI req)) world
                sched (with_metrics (FindRequests_Add 1) s))
      as (g & s1' & Hg & _ & Hmp & _).
    rewrite (multiGet_run _ _ _ _ _ _ _ _ Hg) in Hget.
    injection Hget as _ <-. done.
  - unfold findHandler. rewrite bind_run. cbn [modify].
    rewrite bind_run, Hget, decide_False by done.
    rewrite bind_run, Hpb. cbn [fst snd]. by rewrite bind_run.
Qed.

(** C7.  When the scatter of a find request returns responses, the
    aggregator goes through the matches of the responses that decode, in
    shard-response order then match order: the returned list is the first
    record of each path (a later record of a path already seen adds
    nothing to it); the routing entry of a path lists the backend of every
    occurrence of the path, first and later ones, in order; and after the
    request the routing cache holds, for every path observed, exactly that
    list, whatever it held before, and is unchanged at every other path. *)
Theorem findHandler_union_by_path
    (cfg : Config) (Unmarshal_Glob : list byte → option GlobResponse)
    (rewrite : string → string) (tags : GlobMatchTags)
    (req : Request) (world : nat → exchange) (sched : list event)
    (s : State) (responses : list serverResponse) (s1 : State) :
  multiGet cfg (Backends cfg) (rewrite (RequestURI req)) world sched
           (with_metrics (FindRequests_Add 1) s) = (Some responses, s1) →
  responses ≠ [] →
  ∃ paths s2 s',
    findHandlerPB Unmarshal_Glob responses s1 =
      (Some (firstByPath [] (occurrences Unmarshal_Glob responses).*2, paths), s2) ∧
    (∀ p, paths !! p =
          match contributors p (occurrences Unmarshal_Glob responses) with
          | [] => None
          | srv :: more => Some (srv :: more)
          end) ∧
    findHandler cfg Unmarshal_Glob rewrite tags req world sched s =
      (Some (findEncode tags req (FormValue req "format")
               (firstByPath [] (occurrences Unmarshal_Glob responses).*2)), s') ∧
    (∀ p, metricPaths s' !! p =
          match contributors p (occurrences Unmarshal_Glob responses) with
          | [] => metricPaths s !! p
          | srv :: more => Some (srv :: more)
          end).
Proof.
  intros Hget Hne.
  destruct (findHandler_run cfg Unmarshal_Glob rewrite tags req world sched s
              responses s1 Hget Hne) as (paths & s2 & Hpb & Hpaths & Hcache & Hrun).
  exists paths, s2, (with_metricPaths (updateCache paths) s2).
  split_and!; try done.
  - intros p. rewrite Hpaths. by destruct (contributors _ _).
  - intros p. cbn [with_metricPaths metricPaths].
    rewrite updateCache_lookup, Hpaths, Hcache.
    by destruct (contributors _ _).
Qed.

(** C2, as the code has it.  When the scatter of a find request returns
    responses and none of them decodes, [findHandler] does not answer 500:
    it counts one find-error per response, leaves the routing cache as it
    was and encodes the empty list of matches with status 200. *)
Theorem findHandler_nothing_decoded_status_200
    (cfg : Config) (Unmarshal_Glob : list byte → option GlobResponse)
    (rewrite : string → string) (tags : GlobMatchTags)
    (req : Request) (world : nat → exchange) (sched : list event)
    (s : State) (responses : list serverResponse) (s1 : State) :
  multiGet cfg (Backends cfg) (rewrite (RequestURI req)) world sched
           (with_metrics (FindRequests_Add 1) s) = (Some responses, s1) →
  responses ≠ [] →
  Forall (λ r, Unmarshal_Glob (default [] (response r)) = None) responses →
  ∃ resp s',
    findHandler cfg Unmarshal_Glob rewrite tags req world sched s = (Some resp, s') ∧
    resp = findEncode tags req (FormValue req "format") [] ∧
    Status resp = 200%Z ∧
    Status resp ≠ StatusInternalServerError ∧
    metricPaths s' = metricPaths s.
Proof.
  intros Hget Hne Hfail.
  destruct (findHandler_run cfg Unmarshal_Glob rewrite tags req world sched s
              responses s1 Hget Hne) as (paths & s2 & Hpb & Hpaths & Hcache & Hrun).
  assert (occurrences Unmarshal_Glob responses = []) as Hocc.
  { clear -Hfail. induction Hfail as [|r rest Hr _ IH]; [done|].
    unfold occurrences in *. cbn [mbind list_bind]. by rewrite Hr, IH. }
  rewrite Hocc in Hrun, Hpaths. cbn in Hrun.
  eexists _, _. split; [exact Hrun|].
  assert (Status (findEncode tags req (FormValue req "format") []) = 200%Z) as Hstatus.
  { unfold findEncode. repeat case_decide; done. }
  split_and!; [done|done|by rewrite Hstatus|].
  cbn [with_metricPaths metricPaths]. rewrite <- Hcache.
  apply map_eq. intros p. by rewrite updateCache_lookup, Hpaths.
Qed.

(** ** Base selection and the render response *)

Lemma scanPeers_total i peers metric s :
  i < length (Values metric) → aligned metric → Forall aligned peers →
  ∃ r s', scanPeers i peers metric s = (Some r, s') ∧ aligned r.1.
Proof.
  revert metric s.
  induction peers as [|m rest IH]; intros metric s Hi Hal Hpeers.
  - by exists (metric, false), s.
  - apply Forall_cons in Hpeers as [Hm Hrest]. cbn [scanPeers].
    case_decide as Hlen.
    { rewrite bind_run. cbn [modify]. by eexists _, _. }
    unfold aligned in *.
    destruct (lookup_lt_is_Some_2 (IsAbsent m) i) as [a Ha]; [lia|].
    rewrite bind_run, (index_run _ _ _ _ Ha).
    destruct a; cbn [negb]; [by apply IH|].
    destruct (lookup_lt_is_Some_2 (Values m) i) as [v Hv]; [lia|].
    rewrite bind_run, assign_run by lia.
    rewrite bind_run, (index_run _ _ _ _ Hv).
    rewrite bind_run, assign_run by lia.
    apply IH; cbn; rewrite ?length_insert; done.
Qed.

Lemma mergeLoop_total idx peers metric b s :
  (∀ i, i ∈ idx → i < length (Values metric)) →
  aligned metric → Forall aligned peers →
  ∃ r s', mergeLoop idx peers metric b s = (Some r, s') ∧
    aligned r.1 ∧
    Name r.1 = Name metric ∧ StartTime r.1 = StartTime metric ∧
    StopTime r.1 = StopTime metric ∧ StepTime r.1 = StepTime metric.
Proof.
  revert metric b s.
  induction idx as [|i idx IH]; intros metric b s Hidx Hal Hpeers.
  - by exists (metric, b), s.
  - cbn [mergeLoop].
    assert (i < length (Values metric)) as Hi by (apply Hidx; left).
    destruct (lookup_lt_is_Some_2 (IsAbsent metric) i) as [a Ha].
    { unfold aligned in Hal. lia. }
    rewrite bind_run, (index_run _ _ _ _ Ha).
    destruct (negb a || b).
    { apply IH; [|done..]. intros k Hk. apply Hidx. by right. }
    destruct (scanPeers_total i peers metric s Hi Hal Hpeers) as (r & s1 & Hscan & Hr).
    rewrite bind_run, Hscan.
    pose proof (scanPeers_frame _ _ _ _ _ _ Hscan) as (Hlen & _ & _ & Hn & Hs & He & Hst).
    destruct (IH r.1 r.2 s1) as (r' & s' & Hrun & ? & Hn' & Hs' & He' & Hst');
      [|done..|].
    { intros k Hk. rewrite Hlen. apply Hidx. by right. }
    exists r', s'. split_and!; [done|done|congruence..].
Qed.

(** Under the invariant of the data model the merger does not panic, and
    it returns the metadata of the response it was given. *)
Lemma mergeValues_total metric decoded s :
  aligned metric → Forall aligned (drop 1 decoded) →
  ∃ merged s', mergeValues metric decoded s = (Some merged, s') ∧
    aligned merged ∧
    Name merged = Name metric ∧ StartTime merged = StartTime metric ∧
    StopTime merged = StopTime metric ∧ StepTime merged = StepTime metric.
Proof.
  intros Hal Hpeers. unfold mergeValues.
  destruct (mergeLoop_total (seq 0 (length (Values metric))) (drop 1 decoded)
              metric false s) as (r & s' & Hrun & ?); [|done..|].
  { intros i Hi. apply elem_of_seq in Hi. lia. }
  exists r.1, s'. by rewrite bind_run, Hrun.
Qed.

(** The selection loop from index [k] on, with [highest] the first
    smallest step among the responses before [k]. *)
Lemma highestLoop_run decoded suffix k highest s :
  drop k decoded = suffix →
  highest < length decoded →
  (∀ j d b, j < k → decoded !! j = Some d → decoded !! highest = Some b →
            (StepTime b ≤ StepTime d)%Z) →
  (∀ j d b, j < highest → j < k → decoded !! j = Some d →
            decoded !! highest = Some b → (StepTime b < StepTime d)%Z) →
  (highest < k ∨ highest = 0) →
  ∃ h base,
    highestLoop (imap (λ i d, (k + i, d)) suffix) decoded highest s = (Some h, s) ∧
    first_smallest_step decoded h base.
Proof.
  revert k highest.
  induction suffix as [|d suffix IH]; intros k highest Hdrop Hlt Hmin Hfirst Hpos.
  - destruct (lookup_lt_is_Some_2 decoded highest Hlt) as [b Hb].
    assert (length decoded ≤ k) as Hk.
    { apply (f_equal length) in Hdrop. rewrite length_drop in Hdrop. cbn in Hdrop. lia. }
    exists highest, b. split; [done|]. split_and!; [done| |].
    + intros j x Hj. eapply Hmin; [|done..]. apply lookup_lt_Some in Hj. lia.
    + intros j x Hjh Hj. eapply Hfirst; [done| |done..]. apply lookup_lt_Some in Hj. lia.
  - assert (decoded !! k = Some d) as Hkd.
    { pose proof (lookup_drop decoded k 0) as Hk.
      by rewrite Hdrop, Nat.add_0_r in Hk. }
    assert (drop (S k) decoded = suffix) as Hdrop'.
    { by rewrite (drop_S _ _ _ Hkd) in Hdrop; injection Hdrop. }
    destruct (lookup_lt_is_Some_2 decoded highest Hlt) as [b Hb].
    cbn [imap highestLoop]. rewrite bind_run, (index_run _ _ _ _ Hb).
    rewrite (imap_ext _ (λ i x, (S k + i, x))).
    2:{ intros i x _. cbn. f_equal. lia. }
    unfold GetStepTime. rewrite Nat.add_0_r. case_decide as Hless.
    + apply (IH (S k) k); [done|by eapply lookup_lt_Some| | |lia].
      * intros j x b' Hj Hx Hb'. rewrite Hkd in Hb'. injection Hb' as <-.
        destruct (decide (j = k)) as [->|Hne].
        -- rewrite Hkd in Hx. injection Hx as <-. lia.
        -- assert (StepTime b ≤ StepTime x)%Z by (eapply Hmin; [|done..]; lia). lia.
      * intros j x b' Hj _ Hx Hb'. rewrite Hkd in Hb'. injection Hb' as <-.
        assert (StepTime b ≤ StepTime x)%Z by (eapply Hmin; done). lia.
    + apply (IH (S k) highest); [done|done| | |lia].
      * intros j x b' Hj Hx Hb'. rewrite Hb in Hb'. injection Hb' as <-.
        destruct (decide (j = k)) as [->|Hne].
        -- rewrite Hkd in Hx. injection Hx as <-. lia.
        -- eapply Hmin; [|done..]. lia.
      * intros j x b' Hj Hjk Hx Hb'.
        destruct Hpos as [Hpos| ->]; [|lia].
        eapply Hfirst; [done| |done..]. lia.
Qed.

Lemma swapBase_run decoded highest base d0 s :
  decoded !! highest = Some base → decoded !! 0 = Some d0 →
  swapBase decoded highest s = (Some (<[highest:=d0]> (<[0:=base]> decoded)), s) ∧
  <[highest:=d0]> (<[0:=base]> decoded) !! 0 = Some base.
Proof.
  intros Hh H0. unfold swapBase.
  pose proof (lookup_lt_Some _ _ _ Hh). pose proof (lookup_lt_Some _ _ _ H0).
  rewrite bind_run, (index_run _ _ _ _ Hh), bind_run, (index_run _ _ _ _ H0).
  rewrite bind_run, assign_run by done.
  rewrite assign_run by (by rewrite length_insert).
  split; [done|].
  destruct highest as [|h].
  - rewrite list_lookup_insert_eq by (by rewrite length_insert). congruence.
  - rewrite list_lookup_insert_ne by done. by rewrite list_lookup_insert_eq.
Qed.

(** The sibling of C2 on the render path: no decoded response is a 500. *)
Lemma renderDecoded_nothing_decoded tags req format s :
  ∃ resp,
    renderDecoded tags req format [] s =
      (Some resp, with_metrics (RenderErrors_Add 1) s) ∧
    Status resp = StatusInternalServerError.
Proof. by eexists. Qed.

(** ** The JSON bodies *)

Lemma mapM_json_Marshal_AGlobMatch tags (metrics : list GlobMatch) :
  mapM (json_Marshal tags) (AGlobMatch <$> metrics) = Some (glob_json tags <$> metrics).
Proof.
  induction metrics as [|m metrics IH]; [done|].
  cbn [fmap list_fmap mapM]. by rewrite IH.
Qed.

Lemma findEncode_json tags req (metrics : list GlobMatch) :
  findEncode tags req "json" metrics =
    mkHTTPResponse 200 "application/json"
      (JSON (json_slice (glob_json tags <$> metrics))).
Proof.
  unfold findEncode. rewrite decide_False, decide_True by done.
  f_equal. unfold json_Encode, appended.
  destruct metrics as [|m metrics]; [done|].
  cbn [fmap list_fmap json_Marshal].
  change (AGlobMatch m :: (AGlobMatch <$> metrics))
    with (AGlobMatch <$> m :: metrics).
  by rewrite mapM_json_Marshal_AGlobMatch.
Qed.

Lemma json_Marshal_AMap tags (m : gmap string any) :
  map_Forall (λ _ x, is_Some (json_Marshal tags x)) m →
  json_Marshal tags (AMap m) = Some (JObject (omap (json_Marshal tags) m)).
Proof.
  cbn [json_Marshal].
  apply (map_fold_weak_ind (λ r m,
    map_Forall (λ _ x, is_Some (json_Marshal tags x)) m →
    JObject <$> r = Some (JObject (omap (json_Marshal tags) m)))).
  - intros _. by rewrite omap_empty.
  - intros k x m' r Hk IH Hall.
    apply map_Forall_insert in Hall as [[j Hj] Hall]; [|done].
    specialize (IH Hall). destruct r as [members|]; [|done].
    injection IH as ->. rewrite Hj. cbn.
    by rewrite (omap_insert_Some _ _ _ _ j).
Qed.

(** The loop of [createRenderResponse] from index [i] on. *)
Lemma pvaluesLoop_run i vs metric missing pvalues s :
  length vs ≤ length (drop i (IsAbsent metric)) →
  pvaluesLoop i vs metric missing pvalues s =
    (Some (pvalues ++ zip_with (λ v (a : bool), if a then missing else AFloat64 v)
                               vs (drop i (IsAbsent metric))), s).
Proof.
  revert i pvalues.
  induction vs as [|v vs IH]; intros i pvalues Hlen.
  - cbn. by rewrite app_nil_r.
  - cbn [pvaluesLoop].
    destruct (IsAbsent metric !! i) as [a|] eqn:Ha.
    2:{ apply lookup_ge_None in Ha. rewrite length_drop in Hlen. cbn in Hlen. lia. }
    rewrite bind_run, (index_run _ _ _ _ Ha), (drop_S _ _ _ Ha).
    rewrite IH.
    + cbn. by rewrite <- app_assoc.
    + rewrite (drop_S _ _ _ Ha) in Hlen. cbn in Hlen. lia.
Qed.

Lemma mapM_json_Marshal_samples tags (vs : list float) (flags : list bool) :
  (∀ i v, vs !! i = Some v → flags !! i = Some false → finite v) →
  mapM (json_Marshal tags)
       (zip_with (λ v (a : bool), if a then ANil else AFloat64 v) vs flags) =
  Some (zip_with (λ v (a : bool), if a then JNull else JNumber v) vs flags).
Proof.
  revert flags.
  induction vs as [|v vs IH]; intros flags Hfin; [done|].
  destruct flags as [|a flags]; [done|].
  cbn [zip_with mapM]. rewrite IH by (intros i; apply (Hfin (S i))).
  destruct a; [done|]. cbn [json_Marshal].
  specialize (Hfin 0 v eq_refl eq_refl). unfold finite in Hfin. by rewrite Hfin.
Qed.

Lemma json_Marshal_appended tags (l : list any) (js : list json) :
  mapM (json_Marshal tags) l = Some js →
  json_Marshal tags (appended l) = Some (json_slice js).
Proof.
  destruct l as [|x l]; cbn [appended json_Marshal].
  - by intros [= <-].
  - intros HM. rewrite HM. cbn.
    destruct js as [|j js]; [exfalso|done].
    cbn [mapM] in HM.
    destruct (json_Marshal tags x); [|done]. cbn in HM.
    by destruct (mapM (json_Marshal tags) l).
Qed.

Lemma returnRender_json tags metric s :
  aligned metric →
  (∀ i v, Values metric !! i = Some v → IsAbsent metric !! i = Some false → finite v) →
  returnRender tags "json" metric s =
    (Some (mkHTTPResponse 200 "application/json" (JSON (render_json metric))), s).
Proof.
  intros Hal Hfin. unfold returnRender, createRenderResponse.
  rewrite decide_False, decide_True by done.
  rewrite !bind_run.
  rewrite pvaluesLoop_run; [|unfold aligned in Hal; rewrite drop_0; lia].
  rewrite ret_run, drop_0. cbn [app]. do 3 f_equal.
  assert (json_Marshal tags
            (appended (zip_with (λ v (a : bool), if a then ANil else AFloat64 v)
                                (Values metric) (IsAbsent metric)))
          = Some (json_slice (json_samples metric))) as Hvalues.
  { apply json_Marshal_appended. by apply mapM_json_Marshal_samples. }
  unfold json_Encode, render_json. rewrite json_Marshal_AMap.
  - rewrite (omap_insert_Some _ _ _ _ (JInt (StartTime metric))) by done.
    rewrite (omap_insert_Some _ _ _ _ (JInt (StepTime metric))) by done.
    rewrite (omap_insert_Some _ _ _ _ (JInt (StopTime metric))) by done.
    rewrite (omap_insert_Some _ _ _ _ (JString (Name metric))) by done.
    rewrite (omap_insert_Some _ _ _ _ _ Hvalues).
    by rewrite omap_empty.
  - repeat (apply map_Forall_insert_2; [by eauto|]).
    apply map_Forall_empty.
Qed.

(** A present sample that is not a number: the encoder fails and the
    handler, which drops the error, has written no body. *)
Example returnRender_json_nan :
  returnRender generated_tags "json" (Sample.series 60 [nan] [false]) Sample.s0 =
    (Some (mkHTTPResponse 200 "application/json" NoBody), Sample.s0).
Proof. vm_compute. reflexivity. Qed.

(** Whatever the declared names are, a JSON find has a member
    [metric_path] only if the declaration names a field so. *)
Lemma glob_json_members tags (m : GlobMatch) :
  ∃ members,
    glob_json tags m = JObject members ∧
    dom members = {[json_Path tags; json_IsLeaf tags]} ∧
    (json_Path tags ≠ "metric_path" → json_IsLeaf tags ≠ "metric_path" →
     members !! "metric_path" = None).
Proof.
  eexists. split; [reflexivity|]. split.
  - rewrite !dom_insert_L, dom_empty_L. apply set_eq. intros x.
    rewrite !elem_of_union, !elem_of_singleton, elem_of_empty. tauto.
  - intros Hp Hl. by rewrite !lookup_insert_ne.
Qed.

(** C9 (as amended).  With format=json: a find that reaches the encoder
    writes the JSON encoding of the match records themselves, null when
    there is none and else an array with one object per record, whose
    member names are the names the declaration of [pb.GlobMatch] gives
    its two fields (the objects with [metric_path] and [isLeaf] are built
    for pickle); a render of a response with one flag per sample and
    finite present samples writes one object with exactly the members
    [name], [start], [step], [end] and [values], where [values] is null
    when there is no sample and else the array of the samples, null at
    the absent ones. *)
Theorem json_bodies
    (tags : GlobMatchTags) (req : Request) (metrics : list GlobMatch)
    (metric : FetchResponse) (s : State) :
  aligned metric →
  (∀ i v, Values metric !! i = Some v → IsAbsent metric !! i = Some false → finite v) →
  findEncode tags req "json" metrics =
    mkHTTPResponse 200 "application/json"
      (JSON (json_slice (glob_json tags <$> metrics))) ∧
  findEncode tags req "pickle" metrics =
    mkHTTPResponse 200 "application/pickle"
      (Pickle (appended ((λ m, AMap (<["isLeaf" := ABool (IsLeaf m)]>
                                     (<["metric_path" := AString (Path m)]> ∅)))
                         <$> metrics))) ∧
  returnRender tags "json" metric s =
    (Some (mkHTTPResponse 200 "application/json" (JSON (render_json metric))), s) ∧
  (∀ members, render_json metric = JObject members →
     dom members = {["name"; "start"; "step"; "end"; "values"]} ∧
     members !! "values" = Some (json_slice (json_samples metric))) ∧
  (∀ i, json_samples metric !! i =
        a ← IsAbsent metric !! i; v ← Values metric !! i;
        Some (if a : bool then JNull else JNumber v)).
Proof.
  intros Hal Hfin. split_and!.
  - apply findEncode_json.
  - unfold findEncode. rewrite !decide_False by done.
    by rewrite decide_True by (by right).
  - by apply returnRender_json.
  - intros members [= <-]. split; [|done].
    rewrite !dom_insert_L, dom_empty_L. set_solver.
  - intros i. unfold json_samples. rewrite lookup_zip_with.
    destruct (Values metric !! i) as [v|] eqn:Hv, (IsAbsent metric !! i) as [a|] eqn:Ha;
      try done.
Qed.

Lemma json_bodies_witness :
  findEncode generated_tags Sample.find_json "json" [mkGlobMatch "x.y" true] =
    mkHTTPResponse 200 "application/json"
      (JSON (json_slice (glob_json generated_tags <$> [mkGlobMatch "x.y" true]))) ∧
  returnRender generated_tags "json" Sample.base4 Sample.s0 =
    (Some (mkHTTPResponse 200 "application/json" (JSON (render_json Sample.base4))),
     Sample.s0).
Proof.
  destruct (json_bodies generated_tags Sample.find_json [mkGlobMatch "x.y" true]
              Sample.base4 Sample.s0) as (Hfind & _ & Hrender & _).
  - reflexivity.
  - intros [|[|[|[|i]]]] v; cbn; intros [= <-]; intros [=]; reflexivity.
  - split; [exact Hfind | exact Hrender].
Defined.

(** C9 as stated fails on a find: with the declaration the generator
    writes, the objects of a JSON find have the members [path] and
    [isLeaf], and no member [metric_path]. *)
Lemma find_json_has_no_metric_path :
  ∃ resp s' bar baz,
    findHandler Sample.cfgA Sample.Unmarshal_Glob Sample.rewrite generated_tags
                Sample.find_foo_json Sample.world3 Sample.only0 Sample.s0
      = (Some resp, s') ∧
    FormValue Sample.find_foo_json "format" = "json" ∧
    Body resp = JSON (JArray [JObject bar; JObject baz]) ∧
    bar !! "metric_path" = None ∧ bar !! "path" = Some (JString "foo.bar") ∧
    baz !! "metric_path" = None ∧ baz !! "path" = Some (JString "foo.baz").
Proof.
  eexists _, _, _, _. split; [vm_compute; reflexivity|].
  split; [reflexivity|]. split; [reflexivity|].
  split_and!; vm_compute; reflexivity.
Qed.

(** C5 as stated fails on a list that names a backend twice (a routing
    entry does when a backend reported the path twice): both workers
    report, and the two responses carry the same tag. *)
Lemma multiGet_same_backend_twice :
  ∃ resp s',
    ["A"; "A"] ≠ @nil string ∧
    multiGet Sample.cfg ["A"; "A"] "/render/?target=x.y" Sample.world12 Sample.both
             Sample.s0 = (Some resp, s') ∧
    length resp ≤ 2 ∧
    server <$> resp = ["A"; "A"] ∧
    ¬ NoDup (server <$> resp).
Proof.
  eexists _, _. split; [done|]. split; [vm_compute; reflexivity|].
  split; [cbn; lia|]. split; [reflexivity|].
  cbn. intros Hnd. apply NoDup_cons in Hnd as [Hin _]. apply Hin. left.
Qed.

Lemma findHandler_union_by_path_witness :
  ∃ paths s2 s',
    findHandlerPB Sample.Unmarshal_Glob (default [] Sample.find12.1) Sample.find12.2 =
      (Some ([mkGlobMatch "x.y" true; mkGlobMatch "x.z" true], paths), s2) ∧
    paths !! "x.y" = Some ["A"; "B"] ∧ paths !! "x.z" = Some ["B"] ∧
    findHandler Sample.cfg Sample.Unmarshal_Glob Sample.rewrite generated_tags
                Sample.find_json Sample.world12 Sample.both Sample.s0 =
      (Some (findEncode generated_tags Sample.find_json "json"
               [mkGlobMatch "x.y" true; mkGlobMatch "x.z" true]), s') ∧
    metricPaths s' !! "x.y" = Some ["A"; "B"] ∧
    metricPaths s' !! "x.z" = Some ["B"] ∧
    metricPaths s' !! "x.w" = None.
Proof.
  destruct (findHandler_union_by_path Sample.cfg Sample.Unmarshal_Glob Sample.rewrite
              generated_tags Sample.find_json Sample.world12 Sample.both Sample.s0
              (default [] Sample.find12.1) Sample.find12.2)
    as (paths & s2 & s' & Hpb & Hpaths & Hrun & Hcache).
  - vm_compute. reflexivity.
  - vm_compute. discriminate.
  - exists paths, s2, s'. split_and!.
    + exact Hpb.
    + exact (Hpaths "x.y").
    + exact (Hpaths "x.z").
    + exact Hrun.
    + exact (Hcache "x.y").
    + exact (Hcache "x.z").
    + exact (Hcache "x.w").
Defined.

Lemma findHandler_nothing_decoded_status_200_witness :
  ∃ resp s',
    findHandler Sample.cfgA Sample.Unmarshal_Glob Sample.rewrite generated_tags
                Sample.find_json Sample.worldBad Sample.only0 Sample.s0
      = (Some resp, s') ∧
    resp = findEncode generated_tags Sample.find_json
             (FormValue Sample.find_json "format") [] ∧
    Status resp = 200%Z ∧
    Status resp ≠ StatusInternalServerError ∧
    metricPaths s' = metricPaths Sample.s0.
Proof.
  apply (findHandler_nothing_decoded_status_200 Sample.cfgA Sample.Unmarshal_Glob
           Sample.rewrite generated_tags Sample.find_json Sample.worldBad
           Sample.only0 Sample.s0 (default [] Sample.findBad.1) Sample.findBad.2).
  - vm_compute. reflexivity.
  - vm_compute. discriminate.
  - repeat constructor.
Defined.

Lemma renderHandler_fan_out_witness :
  spawned (renderHandler Sample.cfg Sample.Unmarshal_Fetch Sample.rewrite
             generated_tags Sample.render_xz Sample.world12 Sample.only0
             Sample.routed).2 =
    spawned Sample.routed ++
      ((λ srv, (srv, Sample.rewrite (RequestURI Sample.render_xz))) <$> ["B"]).
Proof.
  apply (proj2 (renderHandler_fan_out Sample.cfg Sample.Unmarshal_Fetch Sample.rewrite
                  generated_tags Sample.render_xz Sample.world12 Sample.only0
                  Sample.routed ltac:(vm_compute; discriminate)) ["B"]).
  - vm_compute. reflexivity.
  - discriminate.
Defined.

(** * Further properties *)

(** ** The merger on arbitrary peers *)

(** A scan at index [i]: the sample at [i] is left as found or replaced by
    a present sample of a peer of the base's length; the mismatch flag
    goes up together with one render-error, and nothing else moves. *)
Lemma scanPeers_general i peers metric s :
  i < length (Values metric) → aligned metric → Forall aligned peers →
  ∃ r s',
    scanPeers i peers metric s = (Some r, s') ∧
    (sample r.1 i = sample metric i ∨
     IsAbsent r.1 !! i = Some false ∧
     ∃ m, m ∈ peers ∧ length (Values m) = length (Values metric) ∧
          IsAbsent m !! i = Some false ∧ Values m !! i = Values r.1 !! i) ∧
    (r.2 = false ∧ s' = s ∨
     r.2 = true ∧ s' = with_metrics (RenderErrors_Add 1) s).
Proof.
  revert metric.
  induction peers as [|m peers IH]; intros metric Hi Hal Hpeers.
  - exists (metric, false), s. split_and!; [done|by left|by left].
  - apply Forall_cons in Hpeers as [Hm Hpeers]. cbn [scanPeers].
    case_decide as Hlen.
    { rewrite bind_run. cbn [modify]. eexists (metric, true), _.
      split_and!; [done|by left|by right]. }
    assert (length (Values m) = length (Values metric)) as Hlen' by lia.
    unfold aligned in *.
    destruct (lookup_lt_is_Some_2 (IsAbsent m) i) as [a Ha]; [lia|].
    destruct (lookup_lt_is_Some_2 (Values m) i) as [v Hv]; [lia|].
    rewrite bind_run, (index_run _ _ _ _ Ha).
    destruct a; cbn [negb].
    + destruct (IH metric) as (r & s' & Hrun & Hsample & Hflag); [done..|].
      exists r, s'. split_and!; [done| |done].
      destruct Hsample as [?|(? & m' & ? & ?)]; [by left|right].
      split; [done|]. exists m'. split; [by right|done].
    + rewrite bind_run, assign_run by lia.
      rewrite bind_run, (index_run _ _ _ _ Hv).
      rewrite bind_run, assign_run by lia.
      fold (filled metric i v).
      destruct (IH (filled metric i v)) as (r & s' & Hrun & Hsample & Hflag);
        [by cbn; rewrite length_insert..|by cbn; rewrite !length_insert|done|].
      exists r, s'. split_and!; [done| |done]. right.
      destruct Hsample as [Hsame|(? & m' & ? & Hlen'' & ?)].
      * rewrite sample_filled_eq in Hsame by done.
        injection Hsame as Hflag' Hvalue. split; [done|].
        exists m. split_and!; [left|done|done|congruence].
      * split; [done|]. exists m'. split; [by right|].
        cbn in Hlen''. rewrite length_insert in Hlen''. done.
Qed.

Lemma mergeLoop_general idx peers metric b s :
  (∀ i, i ∈ idx → i < length (Values metric)) →
  aligned metric → Forall aligned peers →
  ∃ r s',
    mergeLoop idx peers metric b s = (Some r, s') ∧
    length (Values r.1) = length (Values metric) ∧
    length (IsAbsent r.1) = length (IsAbsent metric) ∧
    (∀ i, sample r.1 i = sample metric i ∨
          IsAbsent metric !! i = Some true ∧ IsAbsent r.1 !! i = Some false ∧
          ∃ m, m ∈ peers ∧ length (Values m) = length (Values metric) ∧
               IsAbsent m !! i = Some false ∧ Values m !! i = Values r.1 !! i) ∧
    (r.2 = b ∧ s' = s ∨
     b = false ∧ r.2 = true ∧ s' = with_metrics (RenderErrors_Add 1) s).
Proof.
  revert metric b s.
  induction idx as [|i idx IH]; intros metric b s Hidx Hal Hpeers.
  - exists (metric, b), s. split_and!; try done; [by left|by left].
  - assert (i < length (Values metric)) as Hi by (apply Hidx; left).
    destruct (lookup_lt_is_Some_2 (IsAbsent metric) i) as [a Ha].
    { unfold aligned in Hal. lia. }
    cbn [mergeLoop]. rewrite bind_run, (index_run _ _ _ _ Ha).
    destruct (negb a || b) eqn:Hskip.
    { apply IH; [|done..]. intros k Hk. apply Hidx. by right. }
    apply orb_false_iff in Hskip as [Hneg ->]. destruct a; [|done].
    destruct (scanPeers_general i peers metric s Hi Hal Hpeers)
      as (r1 & s1 & Hscan & Hsample & Hflag).
    rewrite bind_run, Hscan.
    pose proof (scanPeers_frame _ _ _ _ _ _ Hscan) as (Hlv & Hla & Hother & _).
    destruct (IH r1.1 r1.2 s1) as (r & s' & Hrun & Hlv' & Hla' & Hall & Hstate).
    { intros k Hk. rewrite Hlv. apply Hidx. by right. }
    { unfold aligned in *. congruence. }
    { done. }
    exists r, s'. split_and!; [done|congruence|congruence| |].
    + intros j. destruct (decide (j = i)) as [->|Hne].
      * destruct (Hall i) as [Hsame|(Habs & ? & m & ? & ? & ? & ?)].
        -- rewrite Hsame.
           destruct Hsample as [?|(Hfalse & m & ? & ? & ? & Hv)]; [by left|right].
           unfold sample in Hsame. injection Hsame as Hf Hv'.
           split_and!; [done|congruence|].
           exists m. split_and!; try done. congruence.
        -- destruct Hsample as [Hsame|(Hfalse & _)].
           ++ right. split_and!; [done|done|]. exists m. split_and!; try done. congruence.
           ++ congruence.
      * destruct (Hother j Hne) as [Hv Hf].
        destruct (Hall j) as [Hsame|(Habs & ? & m & ? & ? & ? & ?)].
        -- left. rewrite Hsame. unfold sample. by rewrite Hv, Hf.
        -- right. split_and!; [congruence|done|].
           exists m. split_and!; try done. congruence.
    + destruct Hflag as [[Hf ->]|[Hf ->]], Hstate as [[? ->]|(? & ? & ->)];
        try congruence; [left|right|right]; split_and!; congruence.
Qed.

(** *** Responses with spare flags *)

(** With at least one flag per value in the base and in the peers, a scan
    does not panic. *)
Lemma scanPeers_flagged i peers metric s :
  i < length (Values metric) → flagged metric → Forall flagged peers →
  ∃ r s', scanPeers i peers metric s = (Some r, s').
Proof.
  revert metric s.
  induction peers as [|m peers IH]; intros metric s Hi Hfl Hpeers.
  - by eexists _, _.
  - apply Forall_cons in Hpeers as [Hm Hpeers]. cbn [scanPeers].
    case_decide as Hlen.
    { rewrite bind_run. cbn [modify]. by eexists _, _. }
    unfold flagged in *.
    destruct (lookup_lt_is_Some_2 (IsAbsent m) i) as [a Ha]; [lia|].
    destruct (lookup_lt_is_Some_2 (Values m) i) as [v Hv]; [lia|].
    rewrite bind_run, (index_run _ _ _ _ Ha).
    destruct a; cbn [negb]; [by apply IH|].
    rewrite bind_run, assign_run by lia.
    rewrite bind_run, (index_run _ _ _ _ Hv).
    rewrite bind_run, assign_run by lia.
    apply IH; cbn; rewrite ?length_insert; done.
Qed.

Lemma mergeLoop_flagged idx peers metric b s :
  (∀ i, i ∈ idx → i < length (Values metric)) →
  flagged metric → Forall flagged peers →
  ∃ r s',
    mergeLoop idx peers metric b s = (Some r, s') ∧
    length (Values r.1) = length (Values metric) ∧
    length (IsAbsent r.1) = length (IsAbsent metric) ∧
    ∀ i, IsAbsent metric !! i = Some false → sample r.1 i = sample metric i.
Proof.
  revert metric b s.
  induction idx as [|i idx IH]; intros metric b s Hidx Hfl Hpeers.
  - by exists (metric, b), s.
  - assert (i < length (Values metric)) as Hi by (apply Hidx; left).
    destruct (lookup_lt_is_Some_2 (IsAbsent metric) i) as [a Ha].
    { unfold flagged in Hfl. lia. }
    cbn [mergeLoop]. rewrite bind_run, (index_run _ _ _ _ Ha).
    destruct (negb a || b) eqn:Hskip.
    { apply IH; [|done..]. intros k Hk. apply Hidx. by right. }
    apply orb_false_iff in Hskip as [Hneg ->]. destruct a; [|done].
    destruct (scanPeers_flagged i peers metric s Hi Hfl Hpeers)
      as (r1 & s1 & Hscan).
    rewrite bind_run, Hscan.
    pose proof (scanPeers_frame _ _ _ _ _ _ Hscan) as (Hlv & Hla & Hother & _).
    destruct (IH r1.1 r1.2 s1) as (r & s' & Hrun & Hlv' & Hla' & Hall).
    { intros k Hk. rewrite Hlv. apply Hidx. by right. }
    { unfold flagged in *. lia. }
    { done. }
    exists r, s'. split_and!; [done|congruence|congruence|].
    intros j Hj.
    assert (j ≠ i) as Hne by (intros ->; congruence).
    destruct (Hother j Hne) as [Hv Hf].
    rewrite Hall by congruence. unfold sample. by rewrite Hv, Hf.
Qed.

(** X1.  Whatever the peers are (of the base's length or not), a merge of
    responses with at least one flag per value does not panic, keeps the
    number of values and of flags, and leaves every sample the base has
    as it is: only samples the base marks absent can change. *)
Theorem mergeValues_keeps_present_samples
    (metric : FetchResponse) (decoded : list FetchResponse) (s : State) :
  flagged metric → Forall flagged (drop 1 decoded) →
  ∃ merged s',
    mergeValues metric decoded s = (Some merged, s') ∧
    length (Values merged) = length (Values metric) ∧
    length (IsAbsent merged) = length (IsAbsent metric) ∧
    ∀ i, IsAbsent metric !! i = Some false → sample merged i = sample metric i.
Proof.
  intros Hfl Hpeers. unfold mergeValues.
  destruct (mergeLoop_flagged (seq 0 (length (Values metric))) (drop 1 decoded)
              metric false s) as (r & s' & Hrun & ? & ? & Hall); [|done..|].
  { intros i Hi. apply elem_of_seq in Hi. lia. }
  exists r.1, s'. rewrite bind_run, Hrun. by split_and!.
Qed.

Lemma mergeValues_keeps_present_samples_witness :
  ∃ merged s',
    mergeValues (Sample.series 60 [1; 0; 3]%float [false; true; false; true])
                [Sample.base4; Sample.series 60 [9; 2; 9]%float [true; false; false; false];
                 Sample.peer5] Sample.s0
      = (Some merged, s') ∧
    length (Values merged) =
      length (Values (Sample.series 60 [1; 0; 3]%float [false; true; false; true])) ∧
    length (IsAbsent merged) =
      length (IsAbsent (Sample.series 60 [1; 0; 3]%float [false; true; false; true])) ∧
    ∀ i, IsAbsent (Sample.series 60 [1; 0; 3]%float [false; true; false; true]) !! i
           = Some false →
         sample merged i =
           sample (Sample.series 60 [1; 0; 3]%float [false; true; false; true]) i.
Proof.
  apply (mergeValues_keeps_present_samples
           (Sample.series 60 [1; 0; 3]%float [false; true; false; true])
           [Sample.base4; Sample.series 60 [9; 2; 9]%float [true; false; false; false];
            Sample.peer5] Sample.s0).
  - unfold flagged. cbn. lia.
  - repeat constructor; unfold flagged; cbn; lia.
Defined.

(** X2.  A sample that a merge changes was absent in the base, is present
    afterwards, and carries the value that some peer of the base's length
    has, and marks present, at the same index: the merger never invents a
    value and never takes one from another index or from a peer of
    another length. *)
Theorem mergeValues_fills_from_peers
    (metric : FetchResponse) (decoded : list FetchResponse) (s : State)
    (merged : FetchResponse) (s' : State) (i : nat) :
  aligned metric → Forall aligned (drop 1 decoded) →
  mergeValues metric decoded s = (Some merged, s') →
  sample merged i ≠ sample metric i →
  IsAbsent metric !! i = Some true ∧ IsAbsent merged !! i = Some false ∧
  ∃ m, m ∈ drop 1 decoded ∧ length (Values m) = length (Values metric) ∧
       IsAbsent m !! i = Some false ∧ Values m !! i = Values merged !! i.
Proof.
  intros Hal Hpeers Hmerge Hchanged. unfold mergeValues in Hmerge.
  destruct (mergeLoop_general (seq 0 (length (Values metric))) (drop 1 decoded)
              metric false s) as (r & s1 & Hrun & _ & _ & Hall & _); [|done..|].
  { intros k Hk. apply elem_of_seq in Hk. lia. }
  rewrite bind_run, Hrun in Hmerge. injection Hmerge as <- <-.
  by destruct (Hall i) as [?|?].
Qed.

Lemma mergeValues_fills_from_peers_witness :
  IsAbsent Sample.base4 !! 1 = Some true ∧
  IsAbsent (Sample.series 60 [1; 2; 3; 9]%float [false; false; false; false]) !! 1
    = Some false ∧
  ∃ m, m ∈ drop 1 [Sample.base4; Sample.peer4] ∧
       length (Values m) = length (Values Sample.base4) ∧
       IsAbsent m !! 1 = Some false ∧
       Values m !! 1 =
         Values (Sample.series 60 [1; 2; 3; 9]%float [false; false; false; false]) !! 1.
Proof.
  apply (mergeValues_fills_from_peers Sample.base4 [Sample.base4; Sample.peer4]
           Sample.s0 _ Sample.s0 1).
  - reflexivity.
  - repeat constructor.
  - reflexivity.
  - cbn. by intros [= ?].
Defined.

(** X3.  A merge moves nothing in the process state but the render-error
    counter, and moves that counter by one at most, however many peers
    have another length than the base and however many samples are
    absent. *)
Theorem mergeValues_counts_one_error_at_most
    (metric : FetchResponse) (decoded : list FetchResponse) (s : State) :
  aligned metric → Forall aligned (drop 1 decoded) →
  ∃ merged s',
    mergeValues metric decoded s = (Some merged, s') ∧
    (s' = s ∨ s' = with_metrics (RenderErrors_Add 1) s).
Proof.
  intros Hal Hpeers. unfold mergeValues.
  destruct (mergeLoop_general (seq 0 (length (Values metric))) (drop 1 decoded)
              metric false s) as (r & s' & Hrun & _ & _ & _ & Hstate); [|done..|].
  { intros i Hi. apply elem_of_seq in Hi. lia. }
  exists r.1, s'. rewrite bind_run, Hrun. split; [done|].
  destruct Hstate as [[_ ->]|(_ & _ & ->)]; [by left|by right].
Qed.

Lemma mergeValues_counts_one_error_at_most_witness :
  ∃ merged s',
    mergeValues Sample.base4 [Sample.base4; Sample.peer5; Sample.peer5] Sample.s0
      = (Some merged, s') ∧
    (s' = Sample.s0 ∨ s' = with_metrics (RenderErrors_Add 1) Sample.s0).
Proof.
  apply (mergeValues_counts_one_error_at_most Sample.base4
           [Sample.base4; Sample.peer5; Sample.peer5] Sample.s0).
  - reflexivity.
  - repeat constructor.
Defined.

(** X4.  A merge of two responses of the same length (the base and one
    peer): each sample is the base's when the base has it, the peer's
    when only the peer has it, and absent when neither has it; no error
    is counted. *)
Theorem mergeValues_one_peer
    (metric first peer : FetchResponse) (s : State) :
  aligned metric → aligned peer →
  length (Values peer) = length (Values metric) →
  ∃ merged,
    mergeValues metric [first; peer] s = (Some merged, s) ∧
    ∀ i, sample merged i =
         match IsAbsent metric !! i, IsAbsent peer !! i with
         | Some true, Some false => (Some false, Values peer !! i)
         | _, _ => sample metric i
         end.
Proof.
  intros Hal Hpeer Hlen.
  destruct (mergeValues_equal_length metric [first; peer] s Hal)
    as (merged & Hrun & Hlen' & Hall).
  { by repeat constructor. }
  exists merged. split; [done|]. intros i. rewrite Hall.
  cbn [drop]. rewrite present_at_single. unfold present_at. cbn.
  destruct (IsAbsent metric !! i) as [[|]|] eqn:Hm; try done.
  destruct (IsAbsent peer !! i) as [[|]|] eqn:Hp; try done.
  assert (i < length (Values peer)) as Hi.
  { apply lookup_lt_Some in Hp. unfold aligned in Hpeer. lia. }
  destruct (lookup_lt_is_Some_2 (Values peer) i Hi) as [v Hv]. by rewrite Hv.
Qed.

Lemma mergeValues_one_peer_witness :
  ∃ merged,
    mergeValues Sample.base4 [Sample.base4; Sample.peer4] Sample.s0
      = (Some merged, Sample.s0) ∧
    ∀ i, sample merged i =
         match IsAbsent Sample.base4 !! i, IsAbsent Sample.peer4 !! i with
         | Some true, Some false => (Some false, Values Sample.peer4 !! i)
         | _, _ => sample Sample.base4 i
         end.
Proof.
  apply (mergeValues_one_peer Sample.base4 Sample.base4 Sample.peer4 Sample.s0);
    reflexivity.
Defined.

Lemma mergeLoop_short_flags idx peers metric b s :
  (∃ i, i ∈ idx ∧ length (IsAbsent metric) ≤ i) →
  ∃ s', mergeLoop idx peers metric b s = (None, s').
Proof.
  revert metric b s.
  induction idx as [|i idx IH]; intros metric b s (k & Hk & Hshort).
  - by apply elem_of_nil in Hk.
  - cbn [mergeLoop]. rewrite bind_run. unfold index at 1.
    destruct (IsAbsent metric !! i) as [a|] eqn:Ha; [|by eexists].
    rewrite ret_run.
    assert (k ∈ idx) as Hk'.
    { apply elem_of_cons in Hk as [->|?]; [|done].
      apply lookup_lt_Some in Ha. lia. }
    destruct (negb a || b); [by apply IH; exists k|].
    rewrite bind_run.
    destruct (scanPeers i peers metric s) as [[r|] s1] eqn:Hscan; [|by eexists].
    apply IH. exists k. split; [done|].
    pose proof (scanPeers_frame _ _ _ _ _ _ Hscan) as (_ & -> & _). done.
Qed.

(** X5.  A base with fewer flags than values makes the merger panic (an
    index out of range), whatever the peers are and wherever the first
    absent sample is. *)
Theorem mergeValues_short_flags_panic
    (metric : FetchResponse) (decoded : list FetchResponse) (s : State) :
  length (IsAbsent metric) < length (Values metric) →
  ∃ s', mergeValues metric decoded s = (None, s').
Proof.
  intros Hshort. unfold mergeValues.
  destruct (mergeLoop_short_flags (seq 0 (length (Values metric))) (drop 1 decoded)
              metric false s) as (s' & Hrun).
  { exists (length (IsAbsent metric)). split; [|done]. apply elem_of_seq. lia. }
  exists s'. by rewrite bind_run, Hrun.
Qed.

Lemma mergeValues_short_flags_panic_witness :
  ∃ s', mergeValues (Sample.series 60 [1; 2]%float [false])
                    [Sample.series 60 [1; 2]%float [false]; Sample.full2] Sample.s0
        = (None, s').
Proof.
  apply (mergeValues_short_flags_panic (Sample.series 60 [1; 2]%float [false])).
  cbn. lia.
Defined.

(** ** The render path: decoding, errors and encodings *)

Lemma render_errors_succ n s :
  render_errors n (with_metrics (RenderErrors_Add 1) s) = render_errors (S n) s.
Proof. unfold render_errors. by rewrite Nat.iter_succ_r. Qed.

Lemma length_decoded_bodies {A} (U : list byte → option A) responses :
  length (decoded_bodies U responses) ≤ length responses.
Proof.
  induction responses as [|r rest IH]; [done|].
  unfold decoded_bodies in *. cbn.
  destruct (U (default [] (response r))); cbn; lia.
Qed.

Lemma decodeLoop_run U responses decoded s :
  decodeLoop U responses decoded s =
    (Some (decoded ++ decoded_bodies U responses),
     render_errors (length responses - length (decoded_bodies U responses)) s).
Proof.
  revert decoded s.
  induction responses as [|r rest IH]; intros decoded s.
  - cbn. by rewrite app_nil_r.
  - pose proof (length_decoded_bodies U rest) as Hle.
    cbn [decodeLoop]. unfold decoded_bodies in *. cbn [omap list_omap].
    destruct (U (default [] (response r))) as [d|]; cbn [length].
    + rewrite IH, <- app_assoc. done.
    + rewrite bind_run. cbn [modify]. rewrite IH, render_errors_succ.
      do 2 f_equal. lia.
Qed.

(** X6.  When none of the [n] responses decodes, the render request is
    answered 500 with the message that names the request, and the
    render-error counter has been incremented [n + 1] times: once per
    response and once for the request. *)
Theorem handleRenderPB_nothing_decoded
    (Unmarshal_Fetch : list byte → option FetchResponse) (tags : GlobMatchTags)
    (req : Request) (format : string) (responses : list serverResponse) (s : State) :
  Forall (λ r, Unmarshal_Fetch (default [] (response r)) = None) responses →
  handleRenderPB Unmarshal_Fetch tags req format responses s =
    (Some (http_Error ("no decoded responses to merge for req: " +:+ RequestURI req)
                      StatusInternalServerError),
     render_errors (S (length responses)) s).
Proof.
  intros Hfail. unfold handleRenderPB. rewrite bind_run, decodeLoop_run.
  assert (decoded_bodies Unmarshal_Fetch responses = []) as ->.
  { induction Hfail as [|r rest Hr _ IH]; [done|].
    unfold decoded_bodies in *. cbn. by rewrite Hr. }
  cbn [app renderDecoded length]. rewrite bind_run. cbn [modify].
  rewrite Nat.sub_0_r. done.
Qed.

Lemma handleRenderPB_nothing_decoded_witness :
  handleRenderPB Sample.Unmarshal_Fetch generated_tags Sample.render_xz "json"
                 [mkServerResponse "A" (Some [xff]); mkServerResponse "B" (Some [])]
                 Sample.s0 =
    (Some (http_Error ("no decoded responses to merge for req: "
                       +:+ RequestURI Sample.render_xz) StatusInternalServerError),
     render_errors 3 Sample.s0).
Proof.
  apply (handleRenderPB_nothing_decoded Sample.Unmarshal_Fetch generated_tags
           Sample.render_xz "json"
           [mkServerResponse "A" (Some [xff]); mkServerResponse "B" (Some [])] Sample.s0).
  repeat constructor.
Defined.

Lemma pvaluesLoop_panic i vs metric missing pvalues s :
  length (drop i (IsAbsent metric)) < length vs →
  pvaluesLoop i vs metric missing pvalues s = (None, s).
Proof.
  revert i pvalues.
  induction vs as [|v vs IH]; intros i pvalues Hshort; [cbn in Hshort; lia|].
  cbn [pvaluesLoop]. rewrite bind_run. unfold index.
  destruct (IsAbsent metric !! i) as [a|] eqn:Ha; [|done].
  rewrite ret_run. apply IH.
  rewrite (drop_S _ _ _ Ha) in Hshort. cbn in Hshort. lia.
Qed.

Lemma createRenderResponse_run metric missing s :
  createRenderResponse metric missing s =
    if decide (length (IsAbsent metric) < length (Values metric))
    then (None, s) else (Some (render_map metric missing), s).
Proof.
  unfold createRenderResponse. rewrite bind_run. case_decide as Hlen.
  - by rewrite pvaluesLoop_panic by (rewrite drop_0; lia).
  - rewrite pvaluesLoop_run by (rewrite drop_0; lia). by rewrite drop_0.
Qed.

(** X7.  Encoding a render response panics exactly when the format is
    json, pickle or empty and the response has fewer flags than values;
    flags beyond the values are ignored, and the protobuf format and an
    unknown format never look at the flags. *)
Theorem returnRender_panics_iff
    (tags : GlobMatchTags) (format : string) (metric : FetchResponse) (s : State) :
  (returnRender tags format metric s).1 = None ↔
  (format = "json" ∨ format = "" ∨ format = "pickle") ∧
  length (IsAbsent metric) < length (Values metric).
Proof.
  unfold returnRender.
  destruct (decide (format = "protobuf")) as [->|Hp].
  { cbn. split; [done|]. intros [[?|[?|?]] _]; done. }
  destruct (decide (format = "json")) as [->|Hj].
  { rewrite bind_run, createRenderResponse_run. case_decide; cbn.
    - split; [|done]. intros _. split; [by left|done].
    - split; [done|]. intros [_ ?]. lia. }
  destruct (decide (format = "" ∨ format = "pickle")) as [Hk|Hk].
  { rewrite bind_run, createRenderResponse_run. case_decide; cbn.
    - split; [|done]. intros _. split; [right; tauto|done].
    - split; [done|]. intros [_ ?]. lia. }
  cbn. split; [done|]. intros [[?|[?|?]] _]; tauto.
Qed.

(** X8.  For pickle (the format asked for by name or by an empty format)
    a response with at least one flag per sample is written as a sequence
    of one map with the members [name], [start], [step], [end] and
    [values]; [values] lists the samples in order, with the pickle None
    at the absent ones and whatever float the backend sent at the others
    (nothing is refused, unlike for json). *)
Theorem returnRender_pickle
    (tags : GlobMatchTags) (format : string) (metric : FetchResponse) (s : State) :
  format = "" ∨ format = "pickle" →
  length (Values metric) ≤ length (IsAbsent metric) →
  returnRender tags format metric s =
    (Some (mkHTTPResponse 200 "application/pickle"
             (Pickle (ASlice (Some [render_map metric APickleNone])))), s).
Proof.
  intros Hformat Hlen. unfold returnRender.
  rewrite decide_False by (intros ->; by destruct Hformat).
  rewrite decide_False by (intros ->; by destruct Hformat).
  rewrite decide_True by done.
  rewrite bind_run, createRenderResponse_run, decide_False by lia. done.
Qed.

Lemma returnRender_pickle_witness :
  returnRender generated_tags "" (Sample.series 60 [nan; 2]%float [false; true])
               Sample.s0 =
    (Some (mkHTTPResponse 200 "application/pickle"
             (Pickle (ASlice (Some [render_map
                                      (Sample.series 60 [nan; 2]%float [false; true])
                                      APickleNone])))), Sample.s0).
Proof.
  apply (returnRender_pickle generated_tags ""
           (Sample.series 60 [nan; 2]%float [false; true]) Sample.s0).
  - by left.
  - cbn. lia.
Defined.

(** X9.  A format the handlers do not know is not an error: a find and a
    render that got responses answer 200 with no content type and no
    body, and the render does not even look at the flags. *)
Theorem unknown_format_empty_200
    (tags : GlobMatchTags) (req : Request) (format : string)
    (metrics : list GlobMatch) (metric : FetchResponse) (s : State) :
  ¬ known_format format →
  findEncode tags req format metrics = mkHTTPResponse 200 "" NoBody ∧
  returnRender tags format metric s = (Some (mkHTTPResponse 200 "" NoBody), s).
Proof.
  intros Hunknown. unfold known_format in Hunknown.
  unfold findEncode, returnRender.
  rewrite !decide_False; [done|tauto..].
Qed.

Lemma unknown_format_empty_200_witness :
  findEncode generated_tags Sample.find_json "xml" [mkGlobMatch "x.y" true]
    = mkHTTPResponse 200 "" NoBody ∧
  returnRender generated_tags "xml" (Sample.series 60 [1; 2]%float [false]) Sample.s0
    = (Some (mkHTTPResponse 200 "" NoBody), Sample.s0).
Proof.
  apply (unknown_format_empty_200 generated_tags Sample.find_json "xml").
  unfold known_format. intros [?|[?|[?|?]]]; discriminate.
Defined.

(** ** The scatter: which backends count *)

(** X10.  A worker reports a body exactly when the backend answered 200
    and the body could be read, and the report carries that body
    unchanged; a URL that does not parse, a transport error, a 404, any
    other status and a body that cannot be read are all reported as
    absent.  The report is always tagged with the worker's backend. *)
Theorem singleGet_body_iff (uri srv : string) (x : exchange) (b : list byte) :
  (response (singleGet uri srv x) = Some b ↔ x = Reply 200 (Some b)) ∧
  server (singleGet uri srv x) = srv.
Proof.
  split; [|apply singleGet_server].
  destruct x as [| |code [body|]]; cbn; [done..| |];
    repeat case_decide;
    (split; intros Heq; simplify_eq/=; try done; try lia; try (f_equal; lia)).
Qed.

Lemma singleGet_absent uri srv x : ¬ answers x → response (singleGet uri srv x) = None.
Proof.
  intros Hno. destruct x as [| |code [body|]]; cbn; [done..| |];
    repeat case_decide; try done.
  exfalso. apply Hno. exists body. f_equal. lia.
Qed.

Lemma filter_present_nil (l : list serverResponse) :
  Forall (λ r, response r = None) l → filter present l = [].
Proof.
  induction 1 as [|r l Hr _ IH]; [done|].
  rewrite filter_cons_False; [done|]. unfold present. rewrite Hr. by intros [? ?].
Qed.

Lemma multiGet_effects cfg servers uri world sched s :
  ∃ responses s',
    multiGet cfg servers uri world sched s = (Some responses, s') ∧
    metricPaths s' = metricPaths s ∧
    spawned s' = spawned s ++ ((λ srv, (srv, uri)) <$> servers) ∧
    (metrics s' = metrics s ∨ metrics s' = Timeouts_Add 1 (metrics s)) ∧
    (now s ≤ now s')%Z ∧
    ((∀ k, ¬ answers (world k)) → responses = []).
Proof.
  assert (∃ g s', multiGet_gather cfg servers uri world sched s = (Some g, s') ∧
            gather_inv cfg servers
              (imap (λ k srv, singleGet uri srv (world k)) servers) (now s) g ∧
            metricPaths s' = metricPaths s ∧
            spawned s' = spawned s ++ ((λ srv, (srv, uri)) <$> servers) ∧
            (now s ≤ now s')%Z ∧
            (metrics s' = metrics s ∨ metrics s' = Timeouts_Add 1 (metrics s)))
    as (g & s' & Hrun & Hinv & Hcache & Hspawned & Hnow & Hend).
  { unfold multiGet_gather. rewrite bind_run. cbn [modify].
    rewrite bind_run. cbn [time_After gets].
    set (s1 := with_spawned _ s).
    destruct (GATHER_inv cfg servers
                (imap (λ k srv, singleGet uri srv (world k)) servers)
                (now s1) sched _ s1 (gather_inv_init _ _ _ _))
      as (g & s' & Hrun & Hinv & ? & ? & ? & Hend); [done|].
    exists g, s'. split_and!; try done.
    destruct Hend as [[_ ?]|(_ & _ & ?)]; [by left|by right]. }
  exists (g_response g), s'. split_and!; try done.
  - by apply multiGet_run.
  - intros Hdark. destruct Hinv as (_ & _ & _ & Hfrom & -> & _).
    apply filter_present_nil.
    apply Forall_fmap, Forall_forall. intros [t r] Hr. cbn.
    apply list_elem_of_lookup in Hr as [n Hn].
    destruct (Forall2_lookup_r _ _ _ _ _ Hfrom Hn) as (k & _ & Hk). cbn in Hk.
    rewrite list_lookup_imap in Hk.
    destruct (servers !! k) as [srv|]; [|done]. injection Hk as <-.
    by apply singleGet_absent.
Qed.

(** X11.  Whatever the backends do and however the scheduler runs, a
    scatter returns (it never panics); it starts exactly one worker per
    entry of [servers], in order; it leaves the routing cache and every
    counter but the timeout counter alone, and counts one timeout at
    most; the clock does not run backwards; and it returns nothing when
    no backend answers 200 with a readable body. *)
Theorem multiGet_frame
    (cfg : Config) (servers : list string) (uri : string)
    (world : nat → exchange) (sched : list event) (s : State) :
  ∃ responses s',
    multiGet cfg servers uri world sched s = (Some responses, s') ∧
    metricPaths s' = metricPaths s ∧
    spawned s' = spawned s ++ ((λ srv, (srv, uri)) <$> servers) ∧
    (metrics s' = metrics s ∨ metrics s' = Timeouts_Add 1 (metrics s)) ∧
    (now s ≤ now s')%Z ∧
    ((∀ k, ¬ answers (world k)) → responses = []).
Proof. apply multiGet_effects. Qed.

(** X12.  With an empty backend list the scatter returns at once: no
    worker, no response, no timeout counted and no time spent, whatever
    the scheduler offers. *)
Theorem multiGet_no_backend
    (cfg : Config) (uri : string) (world : nat → exchange) (sched : list event)
    (s : State) :
  ∃ s',
    multiGet cfg [] uri world sched s = (Some [], s') ∧
    metricPaths s' = metricPaths s ∧ metrics s' = metrics s ∧
    spawned s' = spawned s ∧ now s' = now s.
Proof.
  unfold multiGet, multiGet_gather.
  rewrite !bind_run. cbn [modify time_After gets].
  eexists. split; [by destruct sched|]. cbn. by rewrite app_nil_r.
Qed.

(** The gather loop on a schedule that only delivers reports, of workers
    not yet received and as many as iterations are left. *)
Lemma GATHER_all_delivered cfg servers ch (dks : list (N * nat)) g s :
  NoDup dks.*2 →
  (∀ k, k ∈ dks.*2 → k < length ch ∧ k ∉ g_reported g) →
  g_i g + length dks = length servers →
  ∃ g' s',
    GATHER cfg servers ch ((λ dk, Deliver dk.1 dk.2) <$> dks) g s = (Some g', s') ∧
    g_response g' = g_response g ++ filter present (omap (λ k, ch !! k) dks.*2) ∧
    g_i g' = length servers ∧ metrics s' = metrics s.
Proof.
  revert g s.
  induction dks as [|[dt k] dks IH]; intros g s Hnd Hks Hleft.
  - exists g, s. cbn [fmap list_fmap GATHER].
    rewrite decide_False by (cbn in Hleft; lia).
    cbn. rewrite app_nil_r. split_and!; try done. cbn in Hleft. lia.
  - cbn in Hnd. apply NoDup_cons in Hnd as [Hfresh Hnd].
    destruct (Hks k) as [Hk Hnew]; [left|].
    destruct (lookup_lt_is_Some_2 ch k Hk) as [r Hr].
    cbn [fmap list_fmap GATHER fst snd].
    rewrite decide_True by (cbn in Hleft; lia).
    rewrite bind_run. cbn [sleep modify]. set (s1 := with_now _ s).
    rewrite Hr, decide_False by done. rewrite bind_run. cbn [gets].
    cbn [omap list_omap]. rewrite Hr.
    assert (∀ g1, g_reported g1 = g_reported g ++ [k] → g_i g1 = S (g_i g) →
              ∃ g' s',
                GATHER cfg servers ch ((λ dk, Deliver dk.1 dk.2) <$> dks) g1 s1
                  = (Some g', s') ∧
                g_response g' =
                  g_response g1 ++ filter present (omap (λ k, ch !! k) dks.*2) ∧
                g_i g' = length servers ∧ metrics s' = metrics s) as IH'.
    { intros g1 Hrep Hi.
      destruct (IH g1 s1) as (g' & s' & ? & ? & ? & ?);
        [done| |cbn in Hleft; lia|by exists g', s'].
      intros k' Hk'. destruct (Hks k') as [? ?]; [by right|]. split; [done|].
      rewrite Hrep, elem_of_app, list_elem_of_singleton.
      intros [?| ->]; done. }
    destruct (response r) as [b|] eqn:Hb.
    + rewrite bind_run.
      rewrite filter_cons_True by (unfold present; by rewrite Hb).
      destruct (g_isFirstResponse g); cbn [time_After gets]; rewrite ?ret_run;
        (edestruct IH' as (g' & s' & Hrun & Hresp & ? & ?); [ | | rewrite Hrun];
         [done|done|]);
        exists g', s'; rewrite Hresp; cbn; by rewrite <- app_assoc.
    + rewrite filter_cons_False by (unfold present; rewrite Hb; by intros [? ?]).
      edestruct IH' as (g' & s' & Hrun & Hresp & ? & ?); [| |rewrite Hrun];
        [done|done|].
      by exists g', s'.
Qed.

(** X13.  When the scheduler takes the report of every worker, each
    once, in any order and at any time, the scatter returns the reports
    that carry a body, in the order they were taken, and counts no
    timeout: a backend is missing from the result only because it did
    not answer 200 with a readable body. *)
Theorem multiGet_all_reported
    (cfg : Config) (servers : list string) (uri : string)
    (world : nat → exchange) (dks : list (N * nat)) (s : State) :
  dks.*2 ≡ₚ seq 0 (length servers) →
  ∃ s',
    multiGet cfg servers uri world ((λ dk, Deliver dk.1 dk.2) <$> dks) s =
      (Some (filter present
               (omap (λ k, (λ srv, singleGet uri srv (world k)) <$> servers !! k)
                     dks.*2)), s') ∧
    metrics s' = metrics s.
Proof.
  intros Hperm. unfold multiGet, multiGet_gather.
  rewrite bind_run, bind_run. cbn [modify]. rewrite bind_run. cbn [time_After gets].
  set (s1 := with_spawned _ s).
  edestruct (GATHER_all_delivered cfg servers
               (imap (λ k srv, singleGet uri srv (world k)) servers) dks)
    as (g & s' & -> & Hresp & _ & Hmetrics).
  - rewrite Hperm. apply NoDup_seq.
  - intros k Hk. rewrite Hperm in Hk. apply elem_of_seq in Hk.
    rewrite length_imap. split; [lia|]. cbn. apply not_elem_of_nil.
  - apply Permutation_length in Hperm.
    rewrite length_fmap, length_seq in Hperm. cbn. lia.
  - exists s'. rewrite ret_run, Hresp. cbn [g_response app]. split; [|done].
    do 3 f_equal. apply list_omap_ext, Forall2_same_length_lookup_2; [done|].
    intros n k k' Hk Hk'. rewrite Hk in Hk'. injection Hk' as <-.
    apply list_lookup_imap.
Qed.

Lemma multiGet_all_reported_witness :
  ∃ s',
    multiGet Sample.cfg ["A"; "B"] "/render/?target=x.y" Sample.world404
             ((λ dk, Deliver dk.1 dk.2) <$> [(10%N, 1); (10%N, 0)]) Sample.s0 =
      (Some (filter present
               (omap (λ k, (λ srv, singleGet "/render/?target=x.y" srv
                                             (Sample.world404 k))
                           <$> ["A"; "B"] !! k)
                     [(10%N, 1); (10%N, 0)].*2)), s') ∧
    metrics s' = metrics Sample.s0.
Proof.
  apply (multiGet_all_reported Sample.cfg ["A"; "B"] "/render/?target=x.y"
           Sample.world404 [(10%N, 1); (10%N, 0)] Sample.s0).
  cbn. apply perm_swap.
Defined.

(** ** The handlers: errors, counters and the routing cache *)

Lemma lookupServers_run cfg target s :
  ∃ serverList, lookupServers cfg target s = (Some serverList, s).
Proof.
  unfold lookupServers. rewrite bind_run. cbn [gets].
  destruct (metricPaths s !! target) as [l|]; [case_decide|]; by eexists.
Qed.

(** X14.  A render request without a target is answered 400 before
    anything else happens: no worker is started, the cache is not read,
    and only the render-request counter moves. *)
Theorem renderHandler_empty_target
    (cfg : Config) (Unmarshal_Fetch : list byte → option FetchResponse)
    (rewrite : string → string) (tags : GlobMatchTags)
    (req : Request) (world : nat → exchange) (sched : list event) (s : State) :
  FormValue req "target" = "" →
  renderHandler cfg Unmarshal_Fetch rewrite tags req world sched s =
    (Some (http_Error "empty target" StatusBadRequest),
     with_metrics (RenderRequests_Add 1) s).
Proof.
  intros Htarget. unfold renderHandler. rewrite bind_run. cbn [modify].
  by rewrite decide_True.
Qed.

Lemma renderHandler_empty_target_witness :
  renderHandler Sample.cfg Sample.Unmarshal_Fetch Sample.rewrite generated_tags
                Sample.find_json Sample.world12 Sample.both Sample.s0 =
    (Some (http_Error "empty target" StatusBadRequest),
     with_metrics (RenderRequests_Add 1) Sample.s0).
Proof.
  apply (renderHandler_empty_target Sample.cfg Sample.Unmarshal_Fetch Sample.rewrite
           generated_tags Sample.find_json Sample.world12 Sample.both Sample.s0).
  reflexivity.
Defined.

(** X15.  When no backend answers 200 with a readable body (every one is
    down, answers 404 or another status), a render request with a target
    is answered 500, whatever the scheduler does; it counts one render
    request and one render-error and leaves the routing cache as it
    was. *)
Theorem renderHandler_no_answer
    (cfg : Config) (Unmarshal_Fetch : list byte → option FetchResponse)
    (rewrite : string → string) (tags : GlobMatchTags)
    (req : Request) (world : nat → exchange) (sched : list event) (s : State) :
  FormValue req "target" ≠ "" →
  (∀ k, ¬ answers (world k)) →
  ∃ s',
    renderHandler cfg Unmarshal_Fetch rewrite tags req world sched s =
      (Some (http_Error "render: error querying backends" StatusInternalServerError),
       s') ∧
    RenderRequests (metrics s') = expvar.Add (RenderRequests (metrics s)) 1 ∧
    RenderErrors (metrics s') = expvar.Add (RenderErrors (metrics s)) 1 ∧
    metricPaths s' = metricPaths s.
Proof.
  intros Htarget Hdark. unfold renderHandler. rewrite bind_run. cbn [modify].
  rewrite decide_False by done.
  destruct (lookupServers_run cfg (FormValue req "target")
              (with_metrics (RenderRequests_Add 1) s)) as [l Hl].
  rewrite bind_run, Hl, bind_run.
  destruct (multiGet_effects cfg l (rewrite (RequestURI req)) world sched
              (with_metrics (RenderRequests_Add 1) s))
    as (responses & s1 & -> & Hcache & _ & Hmetrics & _ & Hnone).
  rewrite (Hnone Hdark), decide_True by done.
  rewrite bind_run. cbn [modify]. eexists. split; [done|].
  cbn. rewrite Hcache. by destruct Hmetrics as [-> | ->].
Qed.

Lemma renderHandler_no_answer_witness :
  ∃ s',
    renderHandler Sample.cfg Sample.Unmarshal_Fetch Sample.rewrite generated_tags
                  Sample.render_xz (λ _, Reply 404 (Some [])) Sample.both Sample.s0 =
      (Some (http_Error "render: error querying backends" StatusInternalServerError),
       s') ∧
    RenderRequests (metrics s') = expvar.Add (RenderRequests (metrics Sample.s0)) 1 ∧
    RenderErrors (metrics s') = expvar.Add (RenderErrors (metrics Sample.s0)) 1 ∧
    metricPaths s' = metricPaths Sample.s0.
Proof.
  apply (renderHandler_no_answer Sample.cfg Sample.Unmarshal_Fetch Sample.rewrite
           generated_tags Sample.render_xz (λ _, Reply 404 (Some [])) Sample.both
           Sample.s0).
  - vm_compute. discriminate.
  - intros k [b Hb]. discriminate.
Defined.

(** X16.  When no backend answers 200 with a readable body, a find
    request is answered 500, whatever the scheduler does; it counts the
    find request but no find-error (unlike the render path, which counts
    a render-error), and leaves the routing cache as it was. *)
Theorem findHandler_no_answer
    (cfg : Config) (Unmarshal_Glob : list byte → option GlobResponse)
    (rewrite : string → string) (tags : GlobMatchTags)
    (req : Request) (world : nat → exchange) (sched : list event) (s : State) :
  (∀ k, ¬ answers (world k)) →
  ∃ s',
    findHandler cfg Unmarshal_Glob rewrite tags req world sched s =
      (Some (http_Error "find: error querying backends" StatusInternalServerError),
       s') ∧
    FindRequests (metrics s') = expvar.Add (FindRequests (metrics s)) 1 ∧
    FindErrors (metrics s') = FindErrors (metrics s) ∧
    metricPaths s' = metricPaths s.
Proof.
  intros Hdark. unfold findHandler. rewrite bind_run. cbn [modify].
  rewrite bind_run.
  destruct (multiGet_effects cfg (Backends cfg) (rewrite (RequestURI req)) world sched
              (with_metrics (FindRequests_Add 1) s))
    as (responses & s1 & -> & Hcache & _ & Hmetrics & _ & Hnone).
  rewrite (Hnone Hdark), decide_True by done.
  eexists. split; [done|]. rewrite Hcache.
  by destruct Hmetrics as [-> | ->].
Qed.

Lemma findHandler_no_answer_witness :
  ∃ s',
    findHandler Sample.cfg Sample.Unmarshal_Glob Sample.rewrite generated_tags
                Sample.find_json (λ _, DoError) Sample.both Sample.s0 =
      (Some (http_Error "find: error querying backends" StatusInternalServerError),
       s') ∧
    FindRequests (metrics s') = expvar.Add (FindRequests (metrics Sample.s0)) 1 ∧
    FindErrors (metrics s') = FindErrors (metrics Sample.s0) ∧
    metricPaths s' = metricPaths Sample.s0.
Proof.
  apply (findHandler_no_answer Sample.cfg Sample.Unmarshal_Glob Sample.rewrite
           generated_tags Sample.find_json (λ _, DoError) Sample.both Sample.s0).
  intros k [b Hb]. discriminate.
Defined.

(** X17.  A render request never writes the routing cache: whatever the
    request, the backends and the scheduler, and even when the merge
    panics, the cache afterwards is the cache before. *)
Theorem renderHandler_keeps_cache
    (cfg : Config) (Unmarshal_Fetch : list byte → option FetchResponse)
    (rewrite : string → string) (tags : GlobMatchTags)
    (req : Request) (world : nat → exchange) (sched : list event) (s : State) :
  metricPaths (renderHandler cfg Unmarshal_Fetch rewrite tags req world sched s).2 =
    metricPaths s.
Proof.
  unfold renderHandler. rewrite bind_run. cbn [modify].
  case_decide; [done|].
  destruct (lookupServers_run cfg (FormValue req "target")
              (with_metrics (RenderRequests_Add 1) s)) as [l Hl].
  rewrite bind_run, Hl, bind_run.
  destruct (multiGet_effects cfg l (rewrite (RequestURI req)) world sched
              (with_metrics (RenderRequests_Add 1) s))
    as (responses & s1 & -> & Hcache & _).
  case_decide.
  - rewrite bind_run. cbn. done.
  - destruct (only_metrics_handleRenderPB Unmarshal_Fetch tags req
                (FormValue req "format") responses s1) as (-> & _). done.
Qed.

(** X18.  A find request never panics and never removes a routing entry:
    every path that had an entry before the request has one after it,
    whatever the backends answer. *)
Theorem findHandler_keeps_entries
    (cfg : Config) (Unmarshal_Glob : list byte → option GlobResponse)
    (rewrite : string → string) (tags : GlobMatchTags)
    (req : Request) (world : nat → exchange) (sched : list event) (s : State) :
  is_Some (findHandler cfg Unmarshal_Glob rewrite tags req world sched s).1 ∧
  ∀ p, is_Some (metricPaths s !! p) →
       is_Some (metricPaths
                  (findHandler cfg Unmarshal_Glob rewrite tags req world sched s).2 !! p).
Proof.
  destruct (multiGet_effects cfg (Backends cfg) (rewrite (RequestURI req)) world sched
              (with_metrics (FindRequests_Add 1) s))
    as (responses & s1 & Hget & Hcache & _).
  destruct (decide (responses = [])) as [->|Hne].
  - unfold findHandler. rewrite bind_run. cbn [modify].
    rewrite bind_run, Hget, decide_True by done. cbn. by rewrite Hcache.
  - destruct (findHandler_run cfg Unmarshal_Glob rewrite tags req world sched s
                responses s1 Hget Hne) as (paths & s2 & _ & _ & Hcache2 & ->).
    cbn. split; [done|]. intros p Hp.
    rewrite updateCache_lookup, Hcache2. by destruct (paths !! p).
Qed.

(** ** The find aggregator: what the list and the index hold *)

Lemma find_errors_succ n s :
  find_errors n (with_metrics (FindErrors_Add 1) s) = find_errors (S n) s.
Proof. unfold find_errors. by rewrite Nat.iter_succ_r. Qed.

Lemma findLoop_counts U responses acc s :
  findLoop U responses acc s =
    (Some (foldl addOccurrence acc (occurrences U responses)),
     find_errors (length responses - length (decoded_bodies U responses)) s).
Proof.
  revert acc s.
  induction responses as [|r rest IH]; intros acc s; [done|].
  pose proof (length_decoded_bodies U rest) as Hle.
  cbn [findLoop]. unfold occurrences, decoded_bodies in *.
  cbn [mbind list_bind omap list_omap].
  destruct (U (default [] (response r))) as [metric|]; cbn [length].
  - rewrite foldl_app, <- foldl_addMatch. apply IH.
  - rewrite bind_run. cbn [modify app]. rewrite IH, find_errors_succ.
    do 2 f_equal. lia.
Qed.

Lemma firstByPath_paths seen ms p :
  p ∈ Path <$> firstByPath seen ms ↔ p ∈ Path <$> ms ∧ p ∉ seen.
Proof.
  revert seen.
  induction ms as [|m ms IH]; intros seen.
  - cbn. split; [by intros ?%elem_of_nil|by intros [?%elem_of_nil _]].
  - cbn [firstByPath]. case_decide as Hseen.
    + rewrite IH. cbn. rewrite elem_of_cons. split; [tauto|].
      intros [[->|?] ?]; [done|tauto].
    + cbn. rewrite !elem_of_cons, IH, elem_of_cons. split.
      * intros [->|(? & ?)]; [tauto|]. split; [tauto|]. tauto.
      * intros [[->|?] ?]; [tauto|].
        destruct (decide (p = Path m)); [tauto|]. right. tauto.
Qed.

Lemma firstByPath_NoDup seen ms : NoDup (Path <$> firstByPath seen ms).
Proof.
  revert seen.
  induction ms as [|m ms IH]; intros seen; [constructor|].
  cbn [firstByPath]. case_decide; [apply IH|].
  cbn. apply NoDup_cons. split; [|apply IH].
  rewrite firstByPath_paths, elem_of_cons. tauto.
Qed.

Lemma firstByPath_first seen ms m :
  m ∈ firstByPath seen ms →
  ∃ n, list_find (λ m', Path m' = Path m) ms = Some (n, m).
Proof.
  revert seen.
  induction ms as [|m0 ms IH]; intros seen Hm; [by apply elem_of_nil in Hm|].
  cbn [firstByPath] in Hm. cbn [list_find].
  case_decide as Hseen.
  - assert (Path m ∉ seen) as Hnot.
    { apply (list_elem_of_fmap_2 Path) in Hm. by apply firstByPath_paths in Hm as [_ ?]. }
    destruct (IH _ Hm) as [n Hn].
    rewrite decide_False by congruence. rewrite Hn. by exists (S n).
  - apply elem_of_cons in Hm as [->|Hm].
    + rewrite decide_True by done. by exists 0.
    + assert (Path m ∉ Path m0 :: seen) as Hnot.
      { apply (list_elem_of_fmap_2 Path) in Hm. by apply firstByPath_paths in Hm as [_ ?]. }
      destruct (IH _ Hm) as [n Hn].
      rewrite decide_False by (intros Heq; apply Hnot; rewrite <- Heq; left).
      rewrite Hn. by exists (S n).
Qed.

Lemma contributors_nil p occ : contributors p occ = [] ↔ p ∉ Path <$> occ.*2.
Proof.
  unfold contributors.
  induction occ as [|[srv m] occ IH].
  - split; [intros _; apply not_elem_of_nil|done].
  - rewrite filter_cons, !fmap_cons, not_elem_of_cons. cbn [fst snd].
    case_decide as Hp.
    + rewrite fmap_cons. split; [done|]. intros [? _]. done.
    + rewrite IH. split; [|tauto]. intros ?. split; [congruence|done].
Qed.

Lemma contributors_servers U responses p srv :
  srv ∈ contributors p (occurrences U responses) → srv ∈ server <$> responses.
Proof.
  unfold contributors. intros Hsrv.
  apply list_elem_of_fmap in Hsrv as ([srv' m] & -> & Hin).
  apply list_elem_of_filter in Hin as [_ Hin]. cbn.
  unfold occurrences in Hin. apply list_elem_of_bind in Hin as (r & Hin & Hr).
  destruct (U (default [] (response r))); [|by apply elem_of_nil in Hin].
  apply list_elem_of_fmap in Hin as (m' & [= -> ->] & _).
  by apply list_elem_of_fmap_2.
Qed.

Lemma findHandlerPB_counts U responses s :
  ∃ paths,
    findHandlerPB U responses s =
      (Some (firstByPath [] (occurrences U responses).*2, paths),
       find_errors (length responses - length (decoded_bodies U responses)) s) ∧
    ∀ p, paths !! p = extended None (contributors p (occurrences U responses)).
Proof.
  destruct (findHandlerPB_run U responses s) as (paths & s' & Hrun & Hpaths & _).
  exists paths. split; [|done].
  unfold findHandlerPB in *. rewrite findLoop_counts in Hrun.
  injection Hrun as Hfold _. by rewrite findLoop_counts, Hfold.
Qed.

(** X19.  The aggregator never fails; it counts one find-error per
    response that does not decode.  The list it returns has no two
    records of the same path, and the index it returns has an entry
    exactly for the paths of that list; every entry names at least one
    backend, and only backends whose response was aggregated. *)
Theorem findHandlerPB_index
    (Unmarshal_Glob : list byte → option GlobResponse)
    (responses : list serverResponse) (s : State) :
  ∃ metrics paths,
    findHandlerPB Unmarshal_Glob responses s =
      (Some (metrics, paths),
       find_errors (length responses
                    - length (decoded_bodies Unmarshal_Glob responses)) s) ∧
    NoDup (Path <$> metrics) ∧
    (∀ p, p ∈ Path <$> metrics ↔ is_Some (paths !! p)) ∧
    (∀ p l, paths !! p = Some l →
            l ≠ [] ∧ ∀ srv, srv ∈ l → srv ∈ server <$> responses).
Proof.
  destruct (findHandlerPB_counts Unmarshal_Glob responses s) as (paths & Hrun & Hpaths).
  eexists _, paths. split; [exact Hrun|]. split_and!.
  - apply firstByPath_NoDup.
  - intros p. rewrite firstByPath_paths, Hpaths.
    pose proof (contributors_nil p (occurrences Unmarshal_Glob responses)) as Hnil.
    destruct (contributors p _) as [|srv more]; cbn.
    + split; [intros [? _]; tauto|]. by intros [? ?].
    + split; [by eexists|]. intros _. split; [|apply not_elem_of_nil].
      destruct (decide (p ∈ Path <$> (occurrences Unmarshal_Glob responses).*2));
        [done|]. by apply Hnil in n.
  - intros p l Hl. rewrite Hpaths in Hl.
    pose proof (contributors_servers Unmarshal_Glob responses p) as Hsrv.
    destruct (contributors p _) as [|srv more]; [done|].
    cbn in Hl. injection Hl as <-. done.
Qed.

(** X20.  When backends report the same path with different [isLeaf]
    flags, the record returned for the path is the first one in
    shard-response order then match order; later records of the path are
    not merged into it. *)
Theorem findHandlerPB_first_record_wins
    (Unmarshal_Glob : list byte → option GlobResponse)
    (responses : list serverResponse) (s : State) :
  ∃ metrics paths s',
    findHandlerPB Unmarshal_Glob responses s = (Some (metrics, paths), s') ∧
    ∀ m, m ∈ metrics →
         ∃ n, list_find (λ m', Path m' = Path m)
                        (occurrences Unmarshal_Glob responses).*2 = Some (n, m).
Proof.
  destruct (findHandlerPB_counts Unmarshal_Glob responses s) as (paths & Hrun & _).
  eexists _, paths, _. split; [exact Hrun|].
  intros m Hm. by eapply firstByPath_first.
Qed.

(** ** A find, then a render *)

Lemma renderHandler_spawned cfg Unmarshal_Fetch rewrite tags req world sched s l :
  FormValue req "target" ≠ "" →
  lookupServers cfg (FormValue req "target") (with_metrics (RenderRequests_Add 1) s)
    = (Some l, with_metrics (RenderRequests_Add 1) s) →
  spawned (renderHandler cfg Unmarshal_Fetch rewrite tags req world sched s).2 =
    spawned s ++ ((λ srv, (srv, rewrite (RequestURI req))) <$> l).
Proof.
  intros Htarget Hl. unfold renderHandler. rewrite bind_run. cbn [modify].
  rewrite decide_False by done. rewrite bind_run, Hl, bind_run.
  destruct (multiGet_effects cfg l (rewrite (RequestURI req)) world sched
              (with_metrics (RenderRequests_Add 1) s))
    as (responses & s1 & -> & _ & Hspawned & _).
  case_decide.
  - rewrite bind_run. cbn. done.
  - destruct (only_metrics_handleRenderPB Unmarshal_Fetch tags req
                (FormValue req "format") responses s1) as (_ & -> & _).
    done.
Qed.

(** X21.  After a find whose decoded responses report a path, a render of
    that path starts workers for exactly the backends that reported it in
    that find (once per report, in the order of the reports) and for no
    other backend, whatever the cache held before. *)
Theorem find_then_render
    (cfg : Config) (Unmarshal_Glob : list byte → option GlobResponse)
    (Unmarshal_Fetch : list byte → option FetchResponse)
    (rewrite : string → string) (tags : GlobMatchTags)
    (req : Request) (world : nat → exchange) (sched : list event) (s : State)
    (responses : list serverResponse) (s1 : State)
    (req' : Request) (world' : nat → exchange) (sched' : list event)
    (srv : string) (more : list string) :
  multiGet cfg (Backends cfg) (rewrite (RequestURI req)) world sched
           (with_metrics (FindRequests_Add 1) s) = (Some responses, s1) →
  responses ≠ [] →
  FormValue req' "target" ≠ "" →
  contributors (FormValue req' "target") (occurrences Unmarshal_Glob responses)
    = srv :: more →
  spawned (renderHandler cfg Unmarshal_Fetch rewrite tags req' world' sched'
             (findHandler cfg Unmarshal_Glob rewrite tags req world sched s).2).2 =
    spawned (findHandler cfg Unmarshal_Glob rewrite tags req world sched s).2 ++
      ((λ b, (b, rewrite (RequestURI req'))) <$> srv :: more).
Proof.
  intros Hget Hne Htarget Hcontrib.
  destruct (findHandler_run cfg Unmarshal_Glob rewrite tags req world sched s
              responses s1 Hget Hne) as (paths & s2 & _ & Hpaths & _ & ->).
  cbn [snd]. apply renderHandler_spawned; [done|].
  unfold lookupServers. rewrite bind_run. cbn [gets].
  cbn [with_metrics with_metricPaths metricPaths].
  rewrite updateCache_lookup, Hpaths, Hcontrib. cbn.
  by rewrite decide_False.
Qed.

Lemma find_then_render_witness :
  spawned (renderHandler Sample.cfg Sample.Unmarshal_Fetch Sample.rewrite generated_tags
             Sample.render_xz Sample.world12 Sample.only0
             (findHandler Sample.cfg Sample.Unmarshal_Glob Sample.rewrite generated_tags
                          Sample.find_json Sample.world12 Sample.both Sample.s0).2).2 =
    spawned (findHandler Sample.cfg Sample.Unmarshal_Glob Sample.rewrite generated_tags
                         Sample.find_json Sample.world12 Sample.both Sample.s0).2 ++
      ((λ b, (b, Sample.rewrite (RequestURI Sample.render_xz))) <$> ["B"]).
Proof.
  apply (find_then_render Sample.cfg Sample.Unmarshal_Glob Sample.Unmarshal_Fetch
           Sample.rewrite generated_tags Sample.find_json Sample.world12 Sample.both
           Sample.s0 (default [] Sample.find12.1) Sample.find12.2
           Sample.render_xz Sample.world12 Sample.only0 "B" []).
  - vm_compute. reflexivity.
  - vm_compute. discriminate.
  - vm_compute. discriminate.
  - vm_compute. reflexivity.
Defined.

(** ** The configuration header *)

Lemma Byte_eqb_eq (x y : byte) : Byte.eqb x y = true ↔ x = y.
Proof. split; [apply Byte.byte_dec_bl | apply Byte.byte_dec_lb]. Qed.

Lemma Byte_eqb_ne (x y : byte) : Byte.eqb x y = false ↔ x ≠ y.
Proof.
  rewrite <- Byte_eqb_eq. destruct (Byte.eqb x y); split; congruence.
Qed.

Lemma bytes_IndexByte_None (b : list byte) (c : byte) :
  bytes_IndexByte b c = None ↔ c ∉ b.
Proof.
  induction b as [|x b IH]; cbn.
  - split; [intros _; apply not_elem_of_nil | done].
  - rewrite not_elem_of_cons. destruct (Byte.eqb x c) eqn:E.
    + apply Byte_eqb_eq in E. split; [done | intros [? _]; congruence].
    + apply Byte_eqb_ne in E. rewrite fmap_None, IH. split; [|tauto].
      intros ?; split; [congruence | done].
Qed.

Lemma bytes_IndexByte_Some (b : list byte) (c : byte) (idx : nat) :
  bytes_IndexByte b c = Some idx ↔
  ∃ pre post, b = pre ++ c :: post ∧ (c ∉ pre) ∧ length pre = idx.
Proof.
  revert idx. induction b as [|x b IH]; intros idx; cbn.
  - split; [done | intros ([|??] & ? & ? & _); discriminate].
  - destruct (Byte.eqb x c) eqn:E.
    + apply Byte_eqb_eq in E. subst x. split.
      * intros [= <-]. exists [], b. split_and!; [done | apply not_elem_of_nil | done].
      * intros ([|y pre] & post & Heq & Hnot & <-); [done|].
        injection Heq as -> _. exfalso. apply Hnot. left.
    + apply Byte_eqb_ne in E. rewrite fmap_Some. split.
      * intros (i & Hi & ->). apply IH in Hi as (pre & post & -> & Hnot & <-).
        exists (x :: pre), post. split_and!; [done | | done].
        rewrite not_elem_of_cons. split; [congruence | done].
      * intros ([|y pre] & post & Heq & Hnot & <-).
        { injection Heq as -> _. done. }
        injection Heq as -> ->. apply not_elem_of_cons in Hnot as [_ Hnot].
        exists (length pre). split; [|done]. apply IH. by exists pre, post.
Qed.

Lemma stripCommentHeader_cons (c : byte) (rest : list byte) :
  stripCommentHeader (c :: rest) =
    if Byte.eqb c hash then
      match bytes_IndexByte (c :: rest) linefeed with
      | None => StripNil
      | Some idx =>
        if decide (idx + 1 = length (c :: rest)) then StripNil
        else stripCommentHeader (drop (idx + 1) (c :: rest))
      end
    else Stripped (c :: rest).
Proof.
  simp stripCommentHeader.
  destruct (Byte.eqb c hash) eqn:E; cbn; [|done].
  destruct (Byte.eqb c linefeed) eqn:E'; cbn.
  - by destruct (decide (0 + 1 = S (length rest))).
  - destruct (bytes_IndexByte rest linefeed) as [i|]; cbn; [|done].
    by destruct (decide (S i + 1 = S (length rest))).
Qed.

(** One comment line at the head of the file. *)
Lemma stripCommentHeader_line (text rest : list byte) :
  linefeed ∉ text →
  stripCommentHeader ((hash :: text ++ [linefeed]) ++ rest) =
    match rest with
    | [] => StripNil
    | _ :: _ => stripCommentHeader rest
    end.
Proof.
  intros Hnot.
  assert (Hidx : bytes_IndexByte ((hash :: text ++ [linefeed]) ++ rest) linefeed
                 = Some (S (length text))).
  { apply bytes_IndexByte_Some. exists (hash :: text), rest. split_and!.
    - cbn. by rewrite <- app_assoc.
    - rewrite not_elem_of_cons. split; [discriminate | done].
    - done. }
  cbn [app] in *. rewrite stripCommentHeader_cons, Hidx.
  change (Byte.eqb hash hash) with true. cbn match.
  assert (Hdrop : drop (S (length text) + 1) (hash :: (text ++ [linefeed]) ++ rest) = rest).
  { replace (S (length text) + 1) with (length (hash :: text ++ [linefeed]))
      by (cbn; rewrite length_app; cbn; lia).
    change (hash :: (text ++ [linefeed]) ++ rest)
      with ((hash :: text ++ [linefeed]) ++ rest).
    apply drop_app_length. }
  destruct rest as [|r rest].
  - rewrite decide_True; [done|]. cbn. rewrite app_nil_r, length_app. cbn. lia.
  - rewrite decide_False, Hdrop; [done|]. cbn. rewrite !length_app. cbn. lia.
Qed.

(** The first step of the loop on a file that starts with a hash. *)
Lemma stripCommentHeader_hash (rest : list byte) :
  ((linefeed ∉ rest) ∧ stripCommentHeader (hash :: rest) = StripNil) ∨
  (∃ text rest', (linefeed ∉ text) ∧
     hash :: rest = (hash :: text ++ [linefeed]) ++ rest').
Proof.
  destruct (bytes_IndexByte (hash :: rest) linefeed) as [idx|] eqn:Hidx.
  - right. apply bytes_IndexByte_Some in Hidx as (pre & post & Heq & Hnot & _).
    destruct pre as [|p pre]; [discriminate|]. injection Heq as <- ->.
    apply not_elem_of_cons in Hnot as [_ Hnot].
    exists pre, post. split; [done|]. cbn. by rewrite <- app_assoc.
  - left. rewrite stripCommentHeader_cons, Hidx.
    apply bytes_IndexByte_None, not_elem_of_cons in Hidx as [_ Hidx]. done.
Qed.

Lemma stripCommentHeader_other (c : byte) (rest : list byte) :
  c ≠ hash → stripCommentHeader (c :: rest) = Stripped (c :: rest).
Proof.
  intros Hc. apply Byte_eqb_ne in Hc. by rewrite stripCommentHeader_cons, Hc.
Qed.

Lemma stripCommentHeader_lines (lines : list (list byte)) (rest : list byte) :
  Forall comment_line lines → rest ≠ [] →
  stripCommentHeader (concat lines ++ rest) = stripCommentHeader rest.
Proof.
  intros Hlines Hrest. induction Hlines as [|l lines (text & -> & Hnot) _ IH]; [done|].
  cbn [concat]. rewrite <- app_assoc, stripCommentHeader_line by done.
  destruct (concat lines ++ rest) eqn:E; [|done].
  by apply app_eq_nil in E as [_ ?].
Qed.

Lemma comment_line_length (l : list byte) : comment_line l → l ≠ [].
Proof. by intros (text & -> & _). Qed.

(** X22.  [stripCommentHeader] returns a non-nil slice [r] exactly when the
    file is a block of comment lines (each a hash, a text without linefeed
    and a linefeed) followed by [r], and [r] is not empty and does not
    start with a hash; [r] is then returned untouched, later hashes and
    all. *)
Theorem stripCommentHeader_returns (cfg r : list byte) :
  stripCommentHeader cfg = Stripped r ↔
  ∃ lines, Forall comment_line lines ∧ cfg = concat lines ++ r ∧
           r ≠ [] ∧ head r ≠ Some hash.
Proof.
  split.
  - remember (length cfg) as n eqn:Hn. revert cfg r Hn.
    induction n as [n IH] using lt_wf_ind. intros [|c rest] r Hn Hrun.
    { by simp stripCommentHeader in Hrun. }
    destruct (Byte.eqb c hash) eqn:Hc.
    + apply Byte_eqb_eq in Hc. subst c.
      destruct (stripCommentHeader_hash rest)
        as [[_ Hnil]|(text & rest' & Hnot & Heq)]; [congruence|].
      rewrite Heq, stripCommentHeader_line in Hrun by done.
      destruct rest' as [|r' rest']; [done|].
      apply IH with (m := length (r' :: rest')) in Hrun
        as (lines & Hlines & Hcfg & Hr & Hhead); [| |done].
      * exists ((hash :: text ++ [linefeed]) :: lines). split_and!; [|  |done|done].
        -- constructor; [by exists text | done].
        -- rewrite Heq. cbn [concat]. by rewrite <- app_assoc, Hcfg.
      * subst n. rewrite Heq, length_app. cbn. lia.
    + apply Byte_eqb_ne in Hc. rewrite stripCommentHeader_other in Hrun by done.
      injection Hrun as <-. exists []. split_and!; [done|done|done|].
      cbn. congruence.
  - intros (lines & Hlines & -> & Hr & Hhead).
    rewrite stripCommentHeader_lines by done.
    destruct r as [|c r]; [done|]. apply stripCommentHeader_other.
    cbn in Hhead. congruence.
Qed.

(** X23.  [stripCommentHeader] returns nil, which [main] takes for an
    error in the header, exactly when the file is a block of comment lines
    and nothing else, or a block of comment lines (possibly none) followed
    by a hash line that no linefeed ends: a file that is only comment, not
    a malformed one. *)
Theorem stripCommentHeader_nil (cfg : list byte) :
  stripCommentHeader cfg = StripNil ↔
  ∃ lines last, Forall comment_line lines ∧ cfg = concat lines ++ last ∧
    ((last = [] ∧ lines ≠ []) ∨ (∃ text, last = hash :: text ∧ linefeed ∉ text)).
Proof.
  split.
  - remember (length cfg) as n eqn:Hn. revert cfg Hn.
    induction n as [n IH] using lt_wf_ind. intros [|c rest] Hn Hrun.
    { by simp stripCommentHeader in Hrun. }
    destruct (Byte.eqb c hash) eqn:Hc.
    + apply Byte_eqb_eq in Hc. subst c.
      destruct (stripCommentHeader_hash rest)
        as [[Hnot _]|(text & rest' & Hnot & Heq)].
      { exists [], (hash :: rest). split_and!; [done|done|]. right. by exists rest. }
      rewrite Heq, stripCommentHeader_line in Hrun by done.
      destruct rest' as [|r' rest'].
      * exists [hash :: text ++ [linefeed]], []. split_and!.
        -- constructor; [by exists text | done].
        -- rewrite Heq. cbn. by rewrite !app_nil_r.
        -- by left.
      * apply IH with (m := length (r' :: rest')) in Hrun
          as (lines & last & Hlines & Hcfg & Hlast); [| |done].
        -- exists ((hash :: text ++ [linefeed]) :: lines), last. split_and!.
           ++ constructor; [by exists text | done].
           ++ rewrite Heq. cbn [concat]. by rewrite <- app_assoc, Hcfg.
           ++ destruct Hlast as [[-> _]|?]; [by left | by right].
        -- subst n. rewrite Heq, length_app. cbn. lia.
    + apply Byte_eqb_ne in Hc. by rewrite stripCommentHeader_other in Hrun.
  - intros (lines & last & Hlines & -> & Hlast).
    induction Hlines as [|l lines (text & -> & Hnot) Hlines IH].
    + destruct Hlast as [[_ ?]|(text & -> & Hnot)]; [done|].
      destruct (stripCommentHeader_hash text)
        as [[_ Hnil]|(text' & rest' & _ & Heq)]; [done|].
      exfalso. apply Hnot. injection Heq as ->.
      rewrite <- app_assoc. apply elem_of_app. right. left.
    + cbn [concat]. rewrite <- app_assoc, stripCommentHeader_line by done.
      destruct (concat lines ++ last) eqn:E; [done|]. apply IH.
      destruct Hlast as [[-> _]|?]; [|by right].
      left. split; [done|]. intros ->. discriminate.
Qed.

(** X24.  [stripCommentHeader] panics on the empty file and on no other:
    the loop never reaches an empty remainder. *)
Theorem stripCommentHeader_panics (cfg : list byte) :
  stripCommentHeader cfg = StripPanic ↔ cfg = [].
Proof.
  split; [|intros ->; by simp stripCommentHeader].
  remember (length cfg) as n eqn:Hn. revert cfg Hn.
  induction n as [n IH] using lt_wf_ind. intros [|c rest] Hn Hrun; [done|].
  exfalso. destruct (Byte.eqb c hash) eqn:Hc.
  - apply Byte_eqb_eq in Hc. subst c.
    destruct (stripCommentHeader_hash rest)
      as [[_ Hnil]|(text & rest' & Hnot & Heq)]; [congruence|].
    rewrite Heq, stripCommentHeader_line in Hrun by done.
    destruct rest' as [|r' rest']; [done|].
    apply IH with (m := length (r' :: rest')) in Hrun; [done| |done].
    subst n. rewrite Heq, length_app. cbn. lia.
  - apply Byte_eqb_ne in Hc. by rewrite stripCommentHeader_other in Hrun.
Qed.

(** ** The latency histogram *)

Lemma bucket_index (t : Z) :
  (0 ≤ t → (t ÷ Millisecond) ÷ 100 = t / 100000000)%Z.
Proof.
  intros Ht. unfold Millisecond.
  rewrite (Z.quot_div_nonneg t) by lia.
  rewrite Z.quot_div_nonneg by (try apply Z.div_pos; lia).
  rewrite Z.div_div by lia. done.
Qed.

Lemma bucketRequestTimes_run (Buckets : Z) (timeBuckets : list Z) (t : Z) :
  (0 ≤ t)%Z → (0 ≤ Buckets)%Z →
  length timeBuckets = Z.to_nat (Buckets + 1) →
  ∃ x, timeBuckets !! bucket_of Buckets t = Some x ∧
       bucketRequestTimes Buckets timeBuckets t =
         Some (<[bucket_of Buckets t := expvar.Add x 1]> timeBuckets,
               bool_decide (Buckets * 100000000 ≤ t)%Z).
Proof.
  intros Ht HB Hlen. unfold bucketRequestTimes, bucket_of.
  rewrite bucket_index by done.
  assert (0 ≤ t / 100000000)%Z by (apply Z.div_pos; lia).
  assert (Hslow : (Buckets * 100000000 ≤ t ↔ Buckets ≤ t / 100000000)%Z).
  { split; intros ?.
    - apply Z.div_le_lower_bound; lia.
    - pose proof (Z.mul_div_le t 100000000). nia. }
  destruct (lookup_lt_is_Some_2 timeBuckets
              (Z.to_nat (Z.min (t / 100000000) Buckets))) as [x Hx]; [lia|].
  exists x. split; [done|]. unfold atomic_AddInt64.
  case_decide.
  - rewrite decide_True by done. rewrite Z.min_l in Hx |- * by lia.
    rewrite Hx. cbn. by rewrite bool_decide_eq_false_2 by lia.
  - rewrite decide_True by done. rewrite Z.min_r in Hx |- * by lia.
    rewrite Hx. cbn. by rewrite bool_decide_eq_true_2 by lia.
Qed.

(** X25.  A request that took [t >= 0] nanoseconds adds one to exactly one
    counter of the histogram, the one of its 100 ms bucket or, from
    [Buckets] * 100 ms on, the overflow bucket, and leaves the others as
    they are; it is logged as slow exactly in the overflow case. *)
Theorem bucketRequestTimes_bucket (Buckets : Z) (timeBuckets : list Z) (t : Z) :
  (0 ≤ t)%Z → (0 ≤ Buckets)%Z →
  length timeBuckets = Z.to_nat (Buckets + 1) →
  ∃ x, timeBuckets !! bucket_of Buckets t = Some x ∧
       bucketRequestTimes Buckets timeBuckets t =
         Some (<[bucket_of Buckets t := expvar.Add x 1]> timeBuckets,
               bool_decide (Buckets * 100000000 ≤ t)%Z).
Proof. apply bucketRequestTimes_run. Qed.

Lemma bucketRequestTimes_bucket_witness :
  ∃ x, [0; 0; 0]%Z !! bucket_of 2 250000000 = Some x ∧
       bucketRequestTimes 2 [0; 0; 0]%Z 250000000 =
         Some (<[bucket_of 2 250000000 := expvar.Add x 1]> [0; 0; 0]%Z,
               bool_decide (2 * 100000000 ≤ 250000000)%Z).
Proof.
  apply (bucketRequestTimes_bucket 2 [0; 0; 0]%Z 250000000); [lia | lia | reflexivity].
Defined.

(** X26.  With a histogram of [Buckets] + 1 counters, [bucketRequestTimes]
    panics (index out of range) exactly for a duration of -100 ms or less:
    a shorter negative duration truncates to bucket 0. *)
Theorem bucketRequestTimes_panics (Buckets : Z) (timeBuckets : list Z) (t : Z) :
  (0 ≤ Buckets)%Z →
  length timeBuckets = Z.to_nat (Buckets + 1) →
  bucketRequestTimes Buckets timeBuckets t = None ↔ (t ≤ -100000000)%Z.
Proof.
  intros HB Hlen. destruct (decide (0 ≤ t)%Z) as [Ht|Ht].
  - destruct (bucketRequestTimes_run Buckets timeBuckets t Ht HB Hlen)
      as (x & _ & ->). split; [done | lia].
  - unfold bucketRequestTimes, atomic_AddInt64, Millisecond.
    assert (Hq : ((t ÷ 1000000) ÷ 100 = t ÷ 100000000)%Z).
    { replace t with (- - t)%Z by lia. generalize (- t)%Z, (Z.opp_nonneg_nonpos t).
      intros u Hu. rewrite !Z.quot_opp_l by lia.
      rewrite (Z.quot_div_nonneg u) by lia.
      rewrite Z.quot_div_nonneg by (try apply Z.div_pos; lia).
      rewrite (Z.quot_div_nonneg u) by lia.
      rewrite Z.div_div by lia. done. }
    rewrite Hq.
    destruct (decide (t ≤ -100000000)%Z) as [Hle|Hgt].
    + assert ((t ÷ 100000000 < 0)%Z).
      { replace t with (- - t)%Z by lia. rewrite Z.quot_opp_l by lia.
        rewrite Z.quot_div_nonneg by lia.
        assert (1 ≤ - t / 100000000)%Z by (apply Z.div_le_lower_bound; lia). lia. }
      rewrite decide_True by lia. by rewrite decide_False by lia.
    + assert (Hz : (t ÷ 100000000 = 0)%Z).
      { apply Z.quot_small_iff; lia. }
      rewrite Hz. split; [|lia]. intros Hnone. exfalso.
      destruct (lookup_lt_is_Some_2 timeBuckets (Z.to_nat 0)) as [x Hx]; [lia|].
      case_decide.
      * rewrite decide_True, Hx in Hnone by done. done.
      * assert (Buckets = 0)%Z as -> by lia.
        rewrite decide_True, Hx in Hnone by done. done.
Qed.

Lemma bucketRequestTimes_panics_witness :
  bucketRequestTimes 2 [0; 0; 0]%Z (-100000000) = None ↔ (-100000000 ≤ -100000000)%Z.
Proof.
  apply (bucketRequestTimes_panics 2 [0; 0; 0]%Z (-100000000)); [lia | reflexivity].
Defined.

Lemma timed_counts (Buckets : Z) (ts : list Z) :
  (0 ≤ Buckets)%Z → Forall (λ t, 0 ≤ t)%Z ts →
  ∀ timeBuckets : list Z,
  length timeBuckets = Z.to_nat (Buckets + 1) →
  Forall (λ c, 0 ≤ c ∧ c + Z.of_nat (length ts) < 2 ^ 63)%Z timeBuckets →
  ∃ after, timed Buckets timeBuckets ts = Some after ∧
    length after = length timeBuckets ∧
    ∀ k c, timeBuckets !! k = Some c →
      after !! k =
        Some (c + Z.of_nat (length (filter (λ t, bucket_of Buckets t = k) ts)))%Z.
Proof.
  intros HB Hts. induction Hts as [|t ts Ht Hts IH]; intros tb Hlen Hsmall.
  - exists tb. split_and!; [done|done|]. intros k c Hk. cbn.
    by rewrite Z.add_0_r.
  - destruct (bucketRequestTimes_run Buckets tb t Ht HB Hlen) as (x & Hx & Hrun).
    cbn [timed]. rewrite Hrun. cbn [mbind option_bind fst].
    assert (Hadd : ∀ c, (0 ≤ c ∧ c + Z.of_nat (length (t :: ts)) < 2 ^ 63)%Z →
                        expvar.Add c 1 = (c + 1)%Z).
    { intros c [? Hc]. cbn [length] in Hc. unfold expvar.Add, wrap64.
      rewrite Z.mod_small by lia. lia. }
    pose proof (proj1 (Forall_lookup _ _) Hsmall _ _ Hx) as Hxs.
    destruct (IH (<[bucket_of Buckets t := expvar.Add x 1]> tb))
      as (after & Hafter & Hlen' & Hcount).
    { by rewrite length_insert. }
    { apply Forall_insert.
      - eapply Forall_impl; [exact Hsmall|]. cbn. intros c [? ?]. lia.
      - rewrite Hadd by done. cbn [length] in Hxs. lia. }
    exists after. split_and!; [done | by rewrite Hlen', length_insert |].
    intros k c Hk. rewrite filter_cons.
    destruct (decide (bucket_of Buckets t = k)) as [<-|Hne].
    + rewrite Hx in Hk. injection Hk as <-.
      rewrite (Hcount _ (expvar.Add x 1)).
      * rewrite Hadd by done. cbn [length]. f_equal. lia.
      * apply list_lookup_insert_eq. by eapply lookup_lt_Some.
    + apply Hcount. by rewrite list_lookup_insert_ne.
Qed.

(** X27.  From the histogram [main] makes, every counter is the number of
    requests so far that fell into its bucket, so the counters add up to
    the number of requests: no request is dropped or counted twice, as
    long as durations are not negative (and fewer than 2^63 requests were
    served). *)
Theorem timeBuckets_count_requests (Buckets : Z) (ts : list Z) (timeBuckets : list Z) :
  (0 ≤ Buckets)%Z → Forall (λ t, 0 ≤ t)%Z ts →
  (Z.of_nat (length ts) < 2 ^ 63)%Z →
  make_timeBuckets Buckets = Some timeBuckets →
  ∃ after, timed Buckets timeBuckets ts = Some after ∧
    length after = Z.to_nat (Buckets + 1) ∧
    ∀ k, k < length after →
      after !! k =
        Some (Z.of_nat (length (filter (λ t, bucket_of Buckets t = k) ts))).
Proof.
  intros HB Hts Hfew. unfold make_timeBuckets. rewrite decide_True by lia.
  intros [= <-].
  destruct (timed_counts Buckets ts HB Hts (replicate (Z.to_nat (Buckets + 1)) 0%Z))
    as (after & Hafter & Hlen & Hcount).
  { by rewrite length_replicate. }
  { apply Forall_replicate. lia. }
  rewrite length_replicate in Hlen.
  exists after. split_and!; [done|done|]. intros k Hk.
  rewrite (Hcount k 0%Z); [done|]. apply lookup_replicate_2. lia.
Qed.

Lemma timeBuckets_count_requests_witness :
  ∃ after, timed 2 [0; 0; 0]%Z [250000000; 30000000; 199999999; 1000000000]%Z = Some after ∧
    length after = Z.to_nat (2 + 1) ∧
    ∀ k, k < length after →
      after !! k =
        Some (Z.of_nat (length (filter (λ t, bucket_of 2 t = k)
                                  [250000000; 30000000; 199999999; 1000000000]%Z))).
Proof.
  apply (timeBuckets_count_requests 2 [250000000; 30000000; 199999999; 1000000000]%Z
           [0; 0; 0]%Z).
  - lia.
  - repeat constructor; lia.
  - cbn. lia.
  - reflexivity.
Defined.

(** ** The concurrency limiter *)

Lemma newServerLimiter_lookup (servers : list string) (l : Z) :
  (0 ≤ l)%Z →
  ∃ m, newServerLimiter servers l = Some (Some m) ∧
    ∀ s, m !! s = if decide (s ∈ servers) then Some (mkSemaphore 0 (Z.to_nat l))
                  else None.
Proof.
  intros Hl.
  assert (Hfold : ∀ (servers : list string) (m0 : gmap string semaphore) s,
            foldl (λ sl s, <[s := mkSemaphore 0 (Z.to_nat l)]> sl) m0 servers !! s =
              if decide (s ∈ servers) then Some (mkSemaphore 0 (Z.to_nat l))
              else m0 !! s).
  { clear servers. induction servers as [|x servers IH]; intros m0 s.
    - cbn. rewrite decide_False; [done | apply not_elem_of_nil].
    - cbn [foldl]. rewrite IH. destruct (decide (s ∈ servers)) as [Hin|Hnin].
      + rewrite decide_True; [done | by right].
      + destruct (decide (s = x)) as [->|Hne].
        * rewrite lookup_insert_eq, decide_True; [done | left].
        * rewrite lookup_insert_ne by done. rewrite decide_False; [done|].
          by rewrite not_elem_of_cons. }
  unfold newServerLimiter. destruct servers as [|x servers].
  - exists ∅. split; [done|]. intros s.
    rewrite decide_False; [apply lookup_empty | apply not_elem_of_nil].
  - rewrite decide_False by lia. eexists. split; [done|]. intros s.
    rewrite Hfold. by destruct (decide (s ∈ x :: servers)).
Qed.

Lemma entered_cons (s : string) (c : limiter_call) (cs : list limiter_call) :
  entered s (c :: cs) = (if decide (c = Enter s) then 1 else 0) + entered s cs.
Proof. unfold entered. rewrite filter_cons. by case_decide. Qed.

Lemma left_cons (s : string) (c : limiter_call) (cs : list limiter_call) :
  left_ s (c :: cs) = (if decide (c = Leave s) then 1 else 0) + left_ s cs.
Proof. unfold left_. rewrite filter_cons. by case_decide. Qed.

(** What a sequence of calls that all proceed does to each semaphore. *)
Lemma calls_balance (cs : list limiter_call) :
  ∀ (m : gmap string semaphore) (sl' : serverLimiter),
  calls (Some m) cs = Proceeds sl' →
  ∃ m', sl' = Some m' ∧
    ∀ s c, m !! s = Some c →
      ∃ c', m' !! s = Some c' ∧ capacity c' = capacity c ∧
            held c + entered s cs = held c' + left_ s cs ∧
            (held c ≤ capacity c → held c' ≤ capacity c').
Proof.
  induction cs as [|k cs IH]; intros m sl' Hrun.
  - injection Hrun as <-. exists m. split; [done|]. intros s c Hc.
    exists c. split_and!; done.
  - cbn [calls] in Hrun. destruct k as [x|x]; cbn [call enter leave] in Hrun.
    + destruct (m !! x) as [cx|] eqn:Hx; [|done].
      case_decide as Hfree; [|done].
      apply IH in Hrun as (m' & -> & Hm'). exists m'. split; [done|].
      intros s c Hc. rewrite entered_cons, left_cons.
      rewrite (decide_False (P := Enter x = Leave s)) by done.
      destruct (decide (s = x)) as [->|Hne].
      * rewrite Hx in Hc. injection Hc as <-.
        destruct (Hm' x (mkSemaphore (S (held cx)) (capacity cx)))
          as (c' & Hc' & Hcap & Hbal & Hle); [apply lookup_insert_eq|].
        cbn in *. exists c'. rewrite decide_True by done.
        split_and!; [done | done | lia | intros _; apply Hle; lia].
      * destruct (Hm' s c) as (c' & Hc' & Hcap & Hbal & Hle).
        { by rewrite lookup_insert_ne. }
        exists c'. rewrite decide_False by congruence.
        split_and!; [done | done | lia | done].
    + destruct (m !! x) as [cx|] eqn:Hx; [|done].
      destruct (held cx) as [|n] eqn:Hheld; [done|].
      apply IH in Hrun as (m' & -> & Hm'). exists m'. split; [done|].
      intros s c Hc. rewrite entered_cons, left_cons.
      rewrite (decide_False (P := Leave x = Enter s)) by done.
      destruct (decide (s = x)) as [->|Hne].
      * rewrite Hx in Hc. injection Hc as <-.
        destruct (Hm' x (mkSemaphore n (capacity cx)))
          as (c' & Hc' & Hcap & Hbal & Hle); [apply lookup_insert_eq|].
        cbn in *. exists c'. rewrite decide_True by done.
        split_and!; [done | done | lia | intros ?; apply Hle; lia].
      * destruct (Hm' s c) as (c' & Hc' & Hcap & Hbal & Hle).
        { by rewrite lookup_insert_ne. }
        exists c'. rewrite decide_False by congruence.
        split_and!; [done | done | lia | done].
Qed.

(** X28.  With a limiter made for [l] > 0 slots, however the [enter] and
    [leave] calls of the workers interleave, the number of workers inside
    the limited section of a configured server (entered and not yet left)
    is the number of tokens its channel holds, and never more than
    [l]. *)
Theorem limiter_bounds_in_flight
    (servers : list string) (l : Z) (sl sl' : serverLimiter)
    (cs : list limiter_call) (s : string) :
  (0 < l)%Z →
  newServerLimiter servers l = Some sl →
  calls sl cs = Proceeds sl' →
  s ∈ servers →
  ∃ m c, sl' = Some m ∧ m !! s = Some c ∧
         entered s cs = held c + left_ s cs ∧
         held c ≤ Z.to_nat l.
Proof.
  intros Hl Hnew Hrun Hs.
  destruct (newServerLimiter_lookup servers l) as (m & Hm & Hlookup); [lia|].
  rewrite Hm in Hnew. injection Hnew as <-.
  apply calls_balance in Hrun as (m' & -> & Hm').
  destruct (Hm' s (mkSemaphore 0 (Z.to_nat l))) as (c & Hc & Hcap & Hbal & Hle).
  { by rewrite Hlookup, decide_True. }
  cbn in *. exists m', c. split_and!; [done | done | lia | lia].
Qed.

Lemma limiter_bounds_in_flight_witness :
  ∃ (m : gmap string semaphore) c,
         Some (<["A" := mkSemaphore 1 1]> (<["B" := mkSemaphore 1 1]> ∅)) = Some m ∧
         m !! "A" = Some c ∧
         entered "A" [Enter "A"; Enter "B"; Leave "A"; Enter "A"] =
           held c + left_ "A" [Enter "A"; Enter "B"; Leave "A"; Enter "A"] ∧
         held c ≤ Z.to_nat 1.
Proof.
  apply (limiter_bounds_in_flight ["A"; "B"] 1
           (Some (<["B" := mkSemaphore 0 1]> (<["A" := mkSemaphore 0 1]> ∅)))
           (Some (<["A" := mkSemaphore 1 1]> (<["B" := mkSemaphore 1 1]> ∅)))
           [Enter "A"; Enter "B"; Leave "A"; Enter "A"] "A").
  - lia.
  - reflexivity.
  - vm_compute. reflexivity.
  - left.
Defined.

Lemma enter_leave (sl sl1 : serverLimiter) (s : string) :
  enter sl s = Proceeds sl1 → leave sl1 s = Proceeds sl.
Proof.
  destruct sl as [m|]; cbn; [|by intros [= <-]].
  destruct (m !! s) as [[n cap]|] eqn:Hs; [|done]. cbn.
  case_decide; [|done]. intros [= <-]. cbn.
  rewrite lookup_insert_eq. cbn. rewrite insert_insert_eq.
  by rewrite insert_id.
Qed.

(** X29.  A worker that gets its slot sends its report and gives the slot
    back, whatever became of the exchange: once it has returned the limiter
    is as it was before the worker entered. *)
Theorem singleGet_limited_releases
    (sl sl1 : serverLimiter) (uri server : string) (x : exchange) :
  enter sl server = Proceeds sl1 →
  singleGet_limited sl uri server x =
    (Some (singleGet uri server x), Proceeds sl).
Proof.
  intros Henter. unfold singleGet_limited.
  rewrite Henter, (enter_leave sl sl1 server Henter). by destruct x.
Qed.

Lemma singleGet_limited_releases_witness :
  singleGet_limited (Some (<["A" := mkSemaphore 0 1]> ∅)) "/render/?target=x" "A" DoError =
    (Some (singleGet "/render/?target=x" "A" DoError),
     Proceeds (Some (<["A" := mkSemaphore 0 1]> ∅))).
Proof.
  apply (singleGet_limited_releases (Some (<["A" := mkSemaphore 0 1]> ∅))
           (Some (<["A" := mkSemaphore 1 1]> ∅))).
  vm_compute. reflexivity.
Defined.

Lemma entered_replicate (s : string) (n : nat) :
  entered s (replicate n (Enter s)) = n ∧ left_ s (replicate n (Enter s)) = 0.
Proof.
  induction n as [|n [IHe IHl]]; [done|]. cbn [replicate].
  rewrite entered_cons, left_cons, IHe, IHl.
  rewrite decide_True by done. by rewrite decide_False by done.
Qed.

Lemma calls_enter_free (s : string) (n : nat) :
  ∀ (m : gmap string semaphore) (c : semaphore),
  m !! s = Some c → held c + n ≤ capacity c →
  ∃ sl', calls (Some m) (replicate n (Enter s)) = Proceeds sl'.
Proof.
  induction n as [|n IH]; intros m c Hc Hfree; [by eexists|].
  cbn [replicate calls call enter]. rewrite Hc, decide_True by lia.
  apply (IH _ (mkSemaphore (S (held c)) (capacity c))).
  - apply lookup_insert_eq.
  - cbn. lia.
Qed.

(** X30.  A limiter made for [l] > 0 slots lets exactly [l] workers into
    the limited section of a configured server at once: [n] workers in a
    row all get in if and only if [n <= l]. *)
Theorem limiter_admits
    (servers : list string) (l : Z) (sl : serverLimiter) (s : string) (n : nat) :
  (0 < l)%Z →
  newServerLimiter servers l = Some sl →
  s ∈ servers →
  (∃ sl', calls sl (replicate n (Enter s)) = Proceeds sl') ↔ n ≤ Z.to_nat l.
Proof.
  intros Hl Hnew Hs.
  destruct (newServerLimiter_lookup servers l) as (m & Hm & Hlookup); [lia|].
  rewrite Hm in Hnew. injection Hnew as <-.
  specialize (Hlookup s). rewrite decide_True in Hlookup by done.
  split.
  - intros (sl' & Hrun). apply calls_balance in Hrun as (m' & -> & Hm').
    destruct (Hm' s _ Hlookup) as (c & _ & Hcap & Hbal & Hle).
    destruct (entered_replicate s n) as [He Hlf]. rewrite He, Hlf in Hbal.
    cbn in *. lia.
  - intros Hn. eapply calls_enter_free; [exact Hlookup|]. cbn. lia.
Qed.

Lemma limiter_admits_witness :
  (∃ sl', calls (Some (<["B" := mkSemaphore 0 2]> (<["A" := mkSemaphore 0 2]> ∅)))
                (replicate 3 (Enter "A")) = Proceeds sl') ↔ 3 ≤ Z.to_nat 2.
Proof.
  apply (limiter_admits ["A"; "B"] 2
           (Some (<["B" := mkSemaphore 0 2]> (<["A" := mkSemaphore 0 2]> ∅))) "A" 3).
  - lia.
  - reflexivity.
  - left.
Defined.

(** * What a render writes *)

Lemma mapM_read_json_sample (vs : list float) (absent : list bool) :
  mapM read_json_sample
       (zip_with (λ v (a : bool), if a then JNull else JNumber v) vs absent) =
    Some (zip_with (λ v (a : bool), if a then None else Some v) vs absent).
Proof.
  revert absent. induction vs as [|v vs IH]; intros [|a absent]; try done.
  cbn [zip_with mapM]. rewrite IH. by destruct a.
Qed.

Lemma mapM_read_pickle_sample (vs : list float) (absent : list bool) :
  mapM read_pickle_sample
       (zip_with (λ v (a : bool), if a then APickleNone else AFloat64 v) vs absent) =
    Some (zip_with (λ v (a : bool), if a then None else Some v) vs absent).
Proof.
  revert absent. induction vs as [|v vs IH]; intros [|a absent]; try done.
  cbn [zip_with mapM]. rewrite IH. by destruct a.
Qed.

Lemma read_render_json (metric : FetchResponse) :
  read_render (JSON (render_json metric)) =
    Some (Name metric, StartTime metric, StopTime metric, StepTime metric,
          samples_of metric).
Proof.
  unfold read_render, render_json.
  rewrite !(lookup_insert_ne _ _ "name") by done.
  rewrite (lookup_insert_eq _ "name").
  rewrite (lookup_insert_eq _ "start").
  rewrite !(lookup_insert_ne _ _ "end") by done.
  rewrite (lookup_insert_eq _ "end").
  rewrite !(lookup_insert_ne _ _ "step") by done.
  rewrite (lookup_insert_eq _ "step").
  rewrite !(lookup_insert_ne _ _ "values") by done.
  rewrite (lookup_insert_eq _ "values").
  pose proof (mapM_read_json_sample (Values metric) (IsAbsent metric)) as Hread.
  fold (json_samples metric) in Hread. fold (samples_of metric) in Hread.
  destruct (json_samples metric) as [|j l]; cbn [json_slice].
  - cbn in Hread. injection Hread as <-. done.
  - by rewrite Hread.
Qed.

Lemma read_render_pickle (metric : FetchResponse) :
  read_render (Pickle (ASlice (Some [render_map metric APickleNone]))) =
    Some (Name metric, StartTime metric, StopTime metric, StepTime metric,
          samples_of metric).
Proof.
  unfold read_render, render_map.
  rewrite !(lookup_insert_ne _ _ "name") by done.
  rewrite (lookup_insert_eq _ "name").
  rewrite (lookup_insert_eq _ "start").
  rewrite !(lookup_insert_ne _ _ "end") by done.
  rewrite (lookup_insert_eq _ "end").
  rewrite !(lookup_insert_ne _ _ "step") by done.
  rewrite (lookup_insert_eq _ "step").
  rewrite !(lookup_insert_ne _ _ "values") by done.
  rewrite (lookup_insert_eq _ "values").
  pose proof (mapM_read_pickle_sample (Values metric) (IsAbsent metric)) as Hread.
  fold (samples_of metric) in Hread. unfold appended.
  destruct (zip_with _ (Values metric) (IsAbsent metric)) as [|x l].
  - cbn in Hread. injection Hread as <-. done.
  - by rewrite Hread.
Qed.

(** In each of the formats the handlers know, a response with one flag per
    sample is written so that the client reads back its name, start, stop
    and step and its samples (for json, when its present samples are
    finite). *)
Lemma returnRender_read tags format metric s :
  aligned metric → known_format format →
  (format = "json" → finite_samples metric) →
  ∃ resp,
    returnRender tags format metric s = (Some resp, s) ∧
    Status resp = 200%Z ∧
    read_render (Body resp) =
      Some (Name metric, StartTime metric, StopTime metric, StepTime metric,
            samples_of metric).
Proof.
  intros Hal Hformat Hfin.
  destruct (decide (format = "protobuf")) as [->|Hp].
  { eexists. split; [reflexivity|]. done. }
  destruct (decide (format = "json")) as [->|Hj].
  { eexists. rewrite (returnRender_json tags metric s Hal (Hfin eq_refl)).
    split; [reflexivity|].
    split; [done|]. apply read_render_json. }
  assert (format = "" ∨ format = "pickle") as Hk.
  { destruct Hformat as [?|[?|[?|?]]]; tauto. }
  eexists. unfold returnRender. rewrite !decide_False by done.
  rewrite decide_True by done.
  rewrite bind_run, createRenderResponse_run, decide_False
    by (unfold aligned in Hal; lia).
  split; [reflexivity|]. split; [done|]. apply read_render_pickle.
Qed.

(** A merge of responses whose present samples are finite has finite
    present samples. *)
Lemma mergeValues_finite metric decoded s merged s' :
  aligned metric → Forall aligned (drop 1 decoded) →
  finite_samples metric → Forall finite_samples (drop 1 decoded) →
  mergeValues metric decoded s = (Some merged, s') →
  finite_samples merged.
Proof.
  intros Hal Hpeers Hfin Hfins Hmerge. unfold mergeValues in Hmerge.
  destruct (mergeLoop_general (seq 0 (length (Values metric))) (drop 1 decoded)
              metric false s) as (r & s1 & Hrun & _ & _ & Hall & _); [|done..|].
  { intros k Hk. apply elem_of_seq in Hk. lia. }
  rewrite bind_run, Hrun in Hmerge. injection Hmerge as <- <-.
  intros i v Hv Ha.
  destruct (Hall i) as [Hsame|(_ & _ & m & Hm & _ & Hma & Hmv)].
  - unfold sample in Hsame. injection Hsame as Hf Hv'.
    apply (Hfin i v); congruence.
  - rewrite Forall_forall in Hfins. apply (Hfins m Hm i v); congruence.
Qed.

(** C4.  With the responses that decoded: a single one is handed to
    [returnRender] as it is, nothing else happens, and the client reads
    back that response, metadata and samples.  With two or more, the base
    is the response of smallest step, the first of them in decode order;
    the working list is the decoded list with the base and the first
    response exchanged, so the base is at position 0 and every other
    position but the base's old one is untouched; the merged response has
    the base's name, start, stop and step; it is what [returnRender]
    encodes, and in every format the handlers know the client is answered
    200 and reads back the base's name, start, stop and step with the
    merged samples (for json, when the present samples of the responses
    are finite: the encoder writes nothing for a NaN or an infinity). *)
Theorem handleRenderPB_base
    (Unmarshal_Fetch : list byte → option FetchResponse) (tags : GlobMatchTags)
    (req : Request) (format : string) (responses : list serverResponse)
    (s0 : State) (decoded : list FetchResponse) (s : State) :
  decodeLoop Unmarshal_Fetch responses [] s0 = (Some decoded, s) →
  Forall aligned decoded →
  (∀ d, decoded = [d] →
     handleRenderPB Unmarshal_Fetch tags req format responses s0 =
       returnRender tags format d s ∧
     (known_format format → (format = "json" → finite_samples d) →
      ∃ resp,
        handleRenderPB Unmarshal_Fetch tags req format responses s0 = (Some resp, s) ∧
        Status resp = 200%Z ∧
        read_render (Body resp) =
          Some (Name d, StartTime d, StopTime d, StepTime d, samples_of d))) ∧
  (2 ≤ length decoded →
   ∃ highest base first working merged s',
     first_smallest_step decoded highest base ∧
     decoded !! 0 = Some first ∧
     swapBase decoded highest s = (Some working, s) ∧
     working !! 0 = Some base ∧
     working = <[highest:=first]> (<[0:=base]> decoded) ∧
     mergeValues base working s = (Some merged, s') ∧
     Name merged = Name base ∧ StartTime merged = StartTime base ∧
     StopTime merged = StopTime base ∧ StepTime merged = StepTime base ∧
     handleRenderPB Unmarshal_Fetch tags req format responses s0 =
       returnRender tags format merged s' ∧
     (known_format format → (format = "json" → Forall finite_samples decoded) →
      ∃ resp,
        handleRenderPB Unmarshal_Fetch tags req format responses s0 = (Some resp, s') ∧
        Status resp = 200%Z ∧
        read_render (Body resp) =
          Some (Name base, StartTime base, StopTime base, StepTime base,
                samples_of merged))).
Proof.
  intros Hdec Hal. unfold handleRenderPB. rewrite bind_run, Hdec. split.
  - intros d ->. split; [done|]. intros Hformat Hfin. cbn [renderDecoded].
    apply returnRender_read; [|done..]. by apply Forall_cons in Hal as [? _].
  - intros Hlen.
    destruct decoded as [|first [|second rest]]; [cbn in Hlen; lia..|].
    set (decoded := first :: second :: rest) in *.
    destruct (highestLoop_run decoded decoded 0 0 s) as (h & base & Hh & Hbase);
      [done|cbn; lia|intros; lia|intros; lia|by right|].
    destruct (swapBase_run decoded h base first s) as [Hswap Hzero];
      [by destruct Hbase|done|].
    set (working := <[h:=first]> (<[0:=base]> decoded)) in *.
    assert (∀ P : FetchResponse → Prop, Forall P decoded → Forall P working) as Hkeep.
    { intros P HP. destruct Hbase as [Hb _].
      apply Forall_insert; [apply Forall_insert|]; try done.
      - by eapply Forall_lookup_1 in Hb.
      - by apply Forall_cons in HP as [? _]. }
    pose proof (Hkeep _ Hal) as Hworking.
    assert (aligned base) as Hbal by (by eapply Forall_lookup_1 in Hzero).
    destruct (mergeValues_total base working s)
      as (merged & s' & Hmerge & Hmal & Hn & Hst & Hsp & Hstep);
      [done|by apply Forall_drop|].
    assert (renderDecoded tags req format decoded s =
            returnRender tags format merged s') as Hrender.
    { unfold renderDecoded. fold decoded.
      change (imap pair decoded) with (imap (λ i d, (0 + i, d)) decoded).
      unfold decoded at 1.
      rewrite bind_run. fold decoded. rewrite Hh, bind_run, Hswap.
      by rewrite bind_run, (index_run _ _ _ _ Hzero), bind_run, Hmerge. }
    exists h, base, first, working, merged, s'. split_and!; try done.
    intros Hformat Hfin. rewrite Hrender.
    destruct (returnRender_read tags format merged s' Hmal Hformat)
      as (resp & Hresp & Hstatus & Hread).
    { intros Hjson. specialize (Hfin Hjson).
      pose proof (Hkeep _ Hfin) as Hfw.
      eapply (mergeValues_finite base working s); [done| | | |done].
      - by apply Forall_drop.
      - by eapply Forall_lookup_1 in Hzero.
      - by apply Forall_drop. }
    exists resp. split_and!; [done|done|]. rewrite Hread. congruence.
Qed.

Lemma handleRenderPB_base_witness :
  ∃ highest base first working merged s',
    first_smallest_step [Sample.coarse; Sample.fine] highest base ∧
    [Sample.coarse; Sample.fine] !! 0 = Some first ∧
    swapBase [Sample.coarse; Sample.fine] highest Sample.s0 = (Some working, Sample.s0) ∧
    working !! 0 = Some base ∧
    working = <[highest:=first]> (<[0:=base]> [Sample.coarse; Sample.fine]) ∧
    mergeValues base working Sample.s0 = (Some merged, s') ∧
    Name merged = Name base ∧ StartTime merged = StartTime base ∧
    StopTime merged = StopTime base ∧ StepTime merged = StepTime base ∧
    handleRenderPB Sample.Unmarshal_Fetch generated_tags Sample.render_xz "json"
                   Sample.render12 Sample.s0 =
      returnRender generated_tags "json" merged s' ∧
    ∃ resp,
      handleRenderPB Sample.Unmarshal_Fetch generated_tags Sample.render_xz "json"
                     Sample.render12 Sample.s0 = (Some resp, s') ∧
      Status resp = 200%Z ∧
      read_render (Body resp) =
        Some (Name base, StartTime base, StopTime base, StepTime base,
              samples_of merged).
Proof.
  destruct (proj2 (handleRenderPB_base Sample.Unmarshal_Fetch generated_tags
                     Sample.render_xz "json" Sample.render12 Sample.s0
                     [Sample.coarse; Sample.fine] Sample.s0
                     ltac:(vm_compute; reflexivity)
                     ltac:(repeat constructor)))
    as (highest & base & first & working & merged & s' & H1 & H2 & H3 & H4 & H5 &
        H6 & H7 & H8 & H9 & H10 & H11 & Hread).
  { cbn. lia. }
  exists highest, base, first, working, merged, s'.
  split_and!; [exact H1 | exact H2 | exact H3 | exact H4 | exact H5 | exact H6
              | exact H7 | exact H8 | exact H9 | exact H10 | exact H11 |].
  apply Hread.
  - right. by left.
  - intros _. repeat constructor; intros i v Hv Ha;
      apply list_elem_of_lookup_2 in Hv; cbn in Hv;
      repeat (apply elem_of_cons in Hv as [->|Hv]; [reflexivity|]);
      by apply elem_of_nil in Hv.
Defined.
